(** * A shallow embedding of [proxy_server.py]

    The proxy multiplexes outbound connections over several local network
    interfaces.  This development embeds the interface record
    ([NetworkInterface]), the health and selection engine ([LoadBalancer]),
    the request-head parser, the session function ([handle_client]), the
    forwarding pump ([forward]) and the start-up dialogue
    ([discover_interfaces], [start]) and proves properties of them.

    Conventions of the embedding:
    - a Python [str] is the list of its code points ([list N]); a [bytes]
      value is a [list Byte.byte];
    - a Python [int] is a [Z]; wall-clock instants and durations (Python
      floats) are idealised as rationals ([Q]);
    - the interface objects live in [interfaces], and the position of an
      object in that list is its identity: a reference to an interface is its
      position (objects are created by discovery only, and never removed);
    - [time.time()] reads the next element of a stream of clock readings;
    - mutation and exceptions are threaded through a state-and-exception
      monad [St]: an exception leaves the mutations done so far in place, as
      in Python;
    - the sessions are cooperative tasks: a session runs without
      interruption from one [await] to the next, and at an [await] the other
      sessions perform operations of their own on the shared state
      ([others]);
    - what the network and the library functions do is given from outside:
      the outcome of each read, connect and drain ([Session]), and the
      functions [int], [urlparse] and [bytes.decode]; at start-up, the
      addresses [psutil] reports and the lines left on standard input;
    - logging has no effect on the modelled state and is left out. *)

From Stdlib Require Import ZArith QArith Lia Lqa List Ascii String.
From stdpp Require Import base option list gmap.

Abbreviation pystr := (list N).
Abbreviation bytes := (list Byte.byte).

(** A [str] literal, from its ASCII text. *)
Definition str (s : string) : pystr :=
  map N_of_ascii (list_ascii_of_string s).

(** A [bytes] literal, from its ASCII text. *)
Definition blit (s : string) : bytes := list_byte_of_string s.

(** [s.startswith(p)] *)
Fixpoint startswith (s p : pystr) {struct p} : bool :=
  match p, s with
  | [], _ => true
  | _ :: _, [] => false
  | c :: p', d :: s' => if N.eqb c d then startswith s' p' else false
  end.

(** ** State and exceptions *)

Inductive exn :=
| RuntimeError (msg : pystr)
| IndexError
| ZeroDivisionError
| ValueError
| TimeoutError
| ConnectionResetError
| OSError
| KeyError
| CancelledError (* a [BaseException]: [except Exception] lets it through *)
| NoSuchObject. (* a reference that names no object; no Python code path builds one *)

Inductive result (A : Type) :=
| Ok (a : A)
| Raise (e : exn).
Arguments Ok {A} a.
Arguments Raise {A} e.

Definition St (S A : Type) : Type := S → result A * S.

Definition ret {S A} (a : A) : St S A := λ s, (Ok a, s).
Definition raise {S A} (e : exn) : St S A := λ s, (Raise e, s).
Definition bind {S A B} (c : St S A) (k : A → St S B) : St S B :=
  λ s, match c s with
       | (Ok a, s') => k a s'
       | (Raise e, s') => (Raise e, s')
       end.
Definition get {S} : St S S := λ s, (Ok s, s).
Definition modify {S} (f : S → S) : St S unit := λ s, (Ok tt, f s).
(** [try: c except Exception as e: h e] *)
Definition try_except {S A} (c : St S A) (h : exn → St S A) : St S A :=
  λ s, match c s with
       | (Ok a, s') => (Ok a, s')
       | (Raise CancelledError, s') => (Raise CancelledError, s')
       | (Raise e, s') => h e s'
       end.
(** [try: c finally: f] *)
Definition try_finally {S A} (c : St S A) (f : St S unit) : St S A :=
  λ s, match c s with
       | (r, s') => match f s' with
                    | (Ok _, s'') => (r, s'')
                    | (Raise e, s'') => (Raise e, s'')
                    end
       end.

Notation "x <- c ;; k" := (bind c (λ x, k))
  (at level 100, c at next level, right associativity).
Notation "c ;;; k" := (bind c (λ _, k))
  (at level 100, right associativity).

(** ** The interface record *)

Module NetworkInterface.

Record t := mk {
  name : pystr;
  ip : pystr;
  active_connections : Z;
  last_used : Z;
  bytes_sent : Z;
  bytes_received : Z;
  total_requests : Z;
  successful_requests : Z;
  failed_requests : Z;
  last_failure : option Q;
  avg_response_time : Q;
  status : pystr
}.

(** [__init__] *)
Definition init (name ip : pystr) : t :=
  {| name := name; ip := ip; active_connections := 0; last_used := 0;
     bytes_sent := 0; bytes_received := 0; total_requests := 0;
     successful_requests := 0; failed_requests := 0; last_failure := None;
     avg_response_time := 0; status := str "ACTIVE" |}.

Definition set_active_connections (v : Z) (self : t) : t :=
  mk (name self) (ip self) v (last_used self) (bytes_sent self)
     (bytes_received self) (total_requests self) (successful_requests self)
     (failed_requests self) (last_failure self) (avg_response_time self)
     (status self).
Definition set_bytes_sent (v : Z) (self : t) : t :=
  mk (name self) (ip self) (active_connections self) (last_used self) v
     (bytes_received self) (total_requests self) (successful_requests self)
     (failed_requests self) (last_failure self) (avg_response_time self)
     (status self).
Definition set_total_requests (v : Z) (self : t) : t :=
  mk (name self) (ip self) (active_connections self) (last_used self)
     (bytes_sent self) (bytes_received self) v (successful_requests self)
     (failed_requests self) (last_failure self) (avg_response_time self)
     (status self).
Definition set_successful_requests (v : Z) (self : t) : t :=
  mk (name self) (ip self) (active_connections self) (last_used self)
     (bytes_sent self) (bytes_received self) (total_requests self) v
     (failed_requests self) (last_failure self) (avg_response_time self)
     (status self).
Definition set_failed_requests (v : Z) (self : t) : t :=
  mk (name self) (ip self) (active_connections self) (last_used self)
     (bytes_sent self) (bytes_received self) (total_requests self)
     (successful_requests self) v (last_failure self)
     (avg_response_time self) (status self).
Definition set_last_failure (v : option Q) (self : t) : t :=
  mk (name self) (ip self) (active_connections self) (last_used self)
     (bytes_sent self) (bytes_received self) (total_requests self)
     (successful_requests self) (failed_requests self) v
     (avg_response_time self) (status self).
Definition set_avg_response_time (v : Q) (self : t) : t :=
  mk (name self) (ip self) (active_connections self) (last_used self)
     (bytes_sent self) (bytes_received self) (total_requests self)
     (successful_requests self) (failed_requests self) (last_failure self)
     v (status self).
Definition set_status (v : pystr) (self : t) : t :=
  mk (name self) (ip self) (active_connections self) (last_used self)
     (bytes_sent self) (bytes_received self) (total_requests self)
     (successful_requests self) (failed_requests self) (last_failure self)
     (avg_response_time self) v.

(** [update_stats]: the division raises when the incremented
    [total_requests] is zero; the two assignments before it have happened
    by then. *)
Definition update_stats (bytes_transferred : Z) (response_time : Q)
  : St t unit :=
  modify (λ self, set_bytes_sent (bytes_sent self + bytes_transferred) self) ;;;
  modify (λ self, set_total_requests (total_requests self + 1) self) ;;;
  self <- get ;;
  if Z.eqb (total_requests self) 0 then raise ZeroDivisionError
  else
    modify (set_avg_response_time
              ((avg_response_time self
                * inject_Z (total_requests self - 1) + response_time)
               / inject_Z (total_requests self))%Q).

(** [get_success_rate] *)
Definition get_success_rate (self : t) : Q :=
  let total := (successful_requests self + failed_requests self)%Z in
  if Z.eqb total 0 then 0%Q
  else (inject_Z (successful_requests self) / inject_Z total * 100)%Q.

(** [mark_request_success] *)
Definition mark_request_success : St t unit :=
  modify (λ self, set_total_requests (total_requests self + 1) self) ;;;
  modify (λ self, set_successful_requests (successful_requests self + 1) self).

(** [mark_request_failed] *)
Definition mark_request_failed : St t unit :=
  modify (λ self, set_total_requests (total_requests self + 1) self) ;;;
  modify (λ self, set_failed_requests (failed_requests self + 1) self).

End NetworkInterface.

(** ** The health and selection engine: state *)

Module LoadBalancer.

Record t := mk {
  interfaces : list NetworkInterface.t;
  current_interface_index : Z;
  failed_interfaces : gmap pystr Q;
  consecutive_failures : gmap pystr Z;
  last_stats_report : Q
}.

(** Attributes set once by [__init__] and never assigned again. *)
Definition failure_timeout : Q := 5.
Definition max_consecutive_failures : Z := 3.
Definition stats_interval : Q := 30.

(** [__init__] *)
Definition init : t :=
  {| interfaces := []; current_interface_index := 0;
     failed_interfaces := ∅; consecutive_failures := ∅;
     last_stats_report := 0 |}.

Definition set_interfaces (v : list NetworkInterface.t) (self : t) : t :=
  mk v (current_interface_index self) (failed_interfaces self)
     (consecutive_failures self) (last_stats_report self).
Definition set_current_interface_index (v : Z) (self : t) : t :=
  mk (interfaces self) v (failed_interfaces self)
     (consecutive_failures self) (last_stats_report self).
Definition set_failed_interfaces (v : gmap pystr Q) (self : t) : t :=
  mk (interfaces self) (current_interface_index self) v
     (consecutive_failures self) (last_stats_report self).
Definition set_consecutive_failures (v : gmap pystr Z) (self : t) : t :=
  mk (interfaces self) (current_interface_index self)
     (failed_interfaces self) v (last_stats_report self).
Definition set_last_stats_report (v : Q) (self : t) : t :=
  mk (interfaces self) (current_interface_index self)
     (failed_interfaces self) (consecutive_failures self) v.

(** The outcome of [discover_interfaces]: one fresh object is appended per
    selected (name, address) pair.  The prompts themselves are not
    modelled; a single selection, or a host with a single address, arrives
    here as the same pair twice. *)
Definition discover_interfaces (selected : list (pystr * pystr)) (self : t)
  : t :=
  set_interfaces
    (interfaces self
     ++ map (λ na, NetworkInterface.init (fst na) (snd na)) selected) self.

End LoadBalancer.

(** ** The world a session runs in *)

Inductive peer := Client | Remote.

Record World := mkWorld {
  lb : LoadBalancer.t;       (* the process-wide load balancer *)
  ticks : nat;               (* number of [time.time()] calls so far *)
  sent : list (peer * bytes) (* [write] calls on the two writers, oldest first *)
}.

Definition upd_lb (f : LoadBalancer.t → LoadBalancer.t) (w : World) : World :=
  mkWorld (f (lb w)) (ticks w) (sent w).
Definition tick (w : World) : World :=
  mkWorld (lb w) (S (ticks w)) (sent w).
Definition emit (p : peer) (data : bytes) (w : World) : World :=
  mkWorld (lb w) (ticks w) (sent w ++ [(p, data)]).

Definition link_local : pystr := str "169.254.".

(** The comprehension of [get_best_interface]: the references, in order,
    to the objects of [l] (the first of which has position [i]) whose address
    does not start with [169.254.]. *)
Fixpoint valid_from (i : nat) (l : list NetworkInterface.t) : list nat :=
  match l with
  | [] => []
  | o :: l' =>
      if startswith (NetworkInterface.ip o) link_local
      then valid_from (S i) l'
      else i :: valid_from (S i) l'
  end.

Definition valid_interfaces (self : LoadBalancer.t) : list nat :=
  valid_from 0 (LoadBalancer.interfaces self).

Section Engine.

(** The readings [time.time()] returns, in call order. *)
Variable clock : nat → Q.

Definition time_time : St World Q :=
  λ w, (Ok (clock (ticks w)), tick w).

(** Run a method of the object that [r] refers to. *)
Definition with_interface {A} (r : nat) (m : St NetworkInterface.t A)
  : St World A :=
  λ w, match LoadBalancer.interfaces (lb w) !! r with
       | Some o =>
           let '(res, o') := m o in
           (res, upd_lb (λ l, LoadBalancer.set_interfaces
                                (<[r := o']> (LoadBalancer.interfaces l)) l) w)
       | None => (Raise NoSuchObject, w)
       end.

(** Read an attribute of the object that [r] refers to. *)
Definition attr {A} (r : nat) (f : NetworkInterface.t → A) : St World A :=
  λ w, match LoadBalancer.interfaces (lb w) !! r with
       | Some o => (Ok (f o), w)
       | None => (Raise NoSuchObject, w)
       end.

(** [LoadBalancer.mark_interface_failed] *)
Definition mark_interface_failed (interface : nat) (error : pystr)
  : St World unit :=
  with_interface interface NetworkInterface.mark_request_failed ;;;
  now <- time_time ;;
  with_interface interface
    (modify (NetworkInterface.set_last_failure (Some now))) ;;;
  ip <- attr interface NetworkInterface.ip ;;
  modify (upd_lb (λ l,
    LoadBalancer.set_consecutive_failures
      (<[ip := (default 0 (LoadBalancer.consecutive_failures l !! ip) + 1)%Z]>
         (LoadBalancer.consecutive_failures l)) l)) ;;;
  w <- get ;;
  match LoadBalancer.consecutive_failures (lb w) !! ip with
  | None => raise KeyError
  | Some n =>
      if (LoadBalancer.max_consecutive_failures <=? n)%Z then
        now' <- time_time ;;
        modify (upd_lb (λ l,
          LoadBalancer.set_failed_interfaces
            (<[ip := now']> (LoadBalancer.failed_interfaces l)) l)) ;;;
        with_interface interface
          (modify (NetworkInterface.set_status (str "FAILED"))) ;;;
        modify (upd_lb (λ l,
          LoadBalancer.set_consecutive_failures
            (<[ip := 0%Z]> (LoadBalancer.consecutive_failures l)) l))
      else
        with_interface interface
          (modify (NetworkInterface.set_status (str "DEGRADED")))
  end.

(** [LoadBalancer.report_stats]; the report itself is log output. *)
Definition report_stats : St World unit :=
  current_time <- time_time ;;
  w <- get ;;
  if Qlt_le_dec (current_time - LoadBalancer.last_stats_report (lb w))
                LoadBalancer.stats_interval
  then ret tt
  else modify (upd_lb (LoadBalancer.set_last_stats_report current_time)).

(** [LoadBalancer.is_interface_failed] *)
Definition is_interface_failed (interface : nat) : St World bool :=
  ip <- attr interface NetworkInterface.ip ;;
  w <- get ;;
  match LoadBalancer.failed_interfaces (lb w) !! ip with
  | Some since =>
      now <- time_time ;;
      if Qlt_le_dec LoadBalancer.failure_timeout (now - since) then
        modify (upd_lb (λ l,
          LoadBalancer.set_failed_interfaces
            (delete ip (LoadBalancer.failed_interfaces l)) l)) ;;;
        ret false
      else ret true
  | None => ret false
  end.

(** The [for _ in range(n)] loop of [get_best_interface]: [Some r] when an
    iteration returned [r], [None] when the loop ran out. *)
Fixpoint round_robin (valid : list nat) (n : nat) : St World (option nat) :=
  match n with
  | O => ret None
  | S n' =>
      w <- get ;;
      let len := Z.of_nat (length valid) in
      let idx := LoadBalancer.current_interface_index (lb w) in
      match valid !! Z.to_nat (idx `mod` len) with
      | None => raise IndexError
      | Some interface =>
          modify (upd_lb (LoadBalancer.set_current_interface_index
                            ((idx + 1) `mod` len)%Z)) ;;;
          failed <- is_interface_failed interface ;;
          if failed then round_robin valid n' else ret (Some interface)
      end
  end.

(** [LoadBalancer.get_best_interface] *)
Definition get_best_interface : St World nat :=
  w <- get ;;
  match LoadBalancer.interfaces (lb w) with
  | [] => raise (RuntimeError (str "No interfaces available"))
  | _ :: _ =>
      let valid := valid_interfaces (lb w) in
      match valid with
      | [] => raise (RuntimeError (str
          "No valid interfaces available. Please select interfaces with valid IP addresses."))
      | first :: _ =>
          found <- round_robin valid (length valid) ;;
          match found with
          | Some interface => ret interface
          | None =>
              modify (upd_lb (LoadBalancer.set_failed_interfaces ∅)) ;;;
              modify (upd_lb (LoadBalancer.set_consecutive_failures ∅)) ;;;
              ret first
          end
      end
  end.

End Engine.

(** ** Python string operations used by the request parser *)

(** [s.split(sep)] for a one-character separator: cut at every occurrence. *)
Fixpoint split (sep : N) (s : pystr) : list pystr :=
  match s with
  | [] => [[]]
  | c :: s' =>
      if N.eqb c sep then [] :: split sep s'
      else match split sep s' with
           | [] => [[c]]
           | field :: fields => (c :: field) :: fields
           end
  end.

(** The code points [str.strip()] removes (those for which [str.isspace]
    holds). *)
Definition isspace (c : N) : bool :=
  ((9 <=? c) && (c <=? 13) || (28 <=? c) && (c <=? 32)
   || (c =? 133) || (c =? 160) || (c =? 5760)
   || (8192 <=? c) && (c <=? 8202)
   || (c =? 8232) || (c =? 8233) || (c =? 8239) || (c =? 8287)
   || (c =? 12288))%N.

Fixpoint lstrip (s : pystr) : pystr :=
  match s with
  | c :: s' => if isspace c then lstrip s' else s
  | [] => []
  end.

Definition rstrip (s : pystr) : pystr := rev (lstrip (rev s)).

(** [s.strip()] *)
Definition strip (s : pystr) : pystr := rstrip (lstrip s).

(** Position of the first occurrence of [sub] in [s], if any. *)
Fixpoint index_of (sub s : pystr) : option nat :=
  if startswith s sub then Some O
  else match s with
       | [] => None
       | _ :: s' => S <$> index_of sub s'
       end.

(** [s.find(sub, start)] for [start >= 0]. *)
Definition find (s sub : pystr) (start : Z) : Z :=
  if (Z.of_nat (length s) <? start)%Z then (-1)%Z
  else match index_of sub (drop (Z.to_nat start) s) with
       | Some i => (start + Z.of_nat i)%Z
       | None => (-1)%Z
       end.

(** A slice bound, as Python normalises it: a negative bound counts from the
    end, and every bound is clamped to [0, len]. *)
Definition slice_bound (len i : Z) : Z :=
  (if i <? 0 then Z.max 0 (len + i) else Z.min i len)%Z.

(** [s[lo:hi]] *)
Definition slice (s : pystr) (lo hi : Z) : pystr :=
  let len := Z.of_nat (length s) in
  let lo' := slice_bound len lo in
  let hi' := slice_bound len hi in
  take (Z.to_nat (hi' - lo')) (drop (Z.to_nat lo') s).

(** ** The request parser *)

(** What [urllib.parse.urlparse] gives for a URL: the [scheme] and [netloc]
    attributes and the [port] property (which raises [ValueError] on a port
    that is not a number in range).  The parser reads the last two. *)
Record ParseResult := {
  scheme : pystr;
  netloc : pystr;
  port : result (option Z)
}.

Section Parser.

(** Library functions, taken as given: [int(s)] and [urlparse(url)], each
    either returning or raising. *)
Variable int : pystr → result Z.
Variable urlparse : pystr → result ParseResult.

(** Lines 292-317 of [handle_client]: [None] on either of the two silent
    [return]s, otherwise [(method, host, port)]. *)
Definition quick_parse (request_text : pystr) : option (pystr * pystr * Z) :=
  let first_line := strip (hd [] (split 10 request_text)) in
  match split 32 first_line with
  | [method; url; protocol] =>
      if bool_decide (method = str "CONNECT") then
        match split 58 url with
        | [host; port] =>
            match int port with
            | Ok port => Some (method, host, port)
            | Raise _ => None
            end
        | _ => None
        end
      else
        let host_start := (find request_text (str "Host: ") 0 + 6)%Z in
        if (5 <? host_start)%Z then
          let host_end := find request_text [13; 10]%N host_start in
          let host := strip (slice request_text host_start host_end) in
          Some (method, host, 80%Z)
        else
          match urlparse url with
          | Ok parsed_url =>
              let host := netloc parsed_url in
              match port parsed_url with
              | Ok p =>
                  let port :=
                    match p with
                    | Some (Zpos _ as n) | Some (Zneg _ as n) => n
                    | Some Z0 | None =>
                        if startswith url (str "https") then 443%Z else 80%Z
                    end in
                  Some (method, host, port)
              | Raise _ => None
              end
          | Raise _ => None
          end
  | _ => None
  end.

End Parser.

(** ** The forwarding pump *)

(** How the run of one pump ends when it is not by a zero-length read in the
    middle of its chunks. *)
Inductive pump_stop :=
| Eof                                  (* [read] returned [b''] *)
| ReadRaised (e : exn)                 (* timeout, reset or any other error *)
| ReadCancelled                        (* cancelled while awaiting [read] *)
| DrainRaised (data : bytes) (e : exn) (* [data] read and written, [drain] raised *)
| DrainCancelled (data : bytes).       (* cancelled while awaiting [drain] *)

(** [ProxyServer.forward]: [chunks] are the successive results of [read]
    whose [write] and [drain] went through, [stop] is what happens next.
    The writes go to [dst]; the result is [bytes_count]. *)
Fixpoint forward_from (dst : peer) (chunks : list bytes) (stop : pump_stop)
    (bytes_count : Z) : St World Z :=
  match chunks with
  | data :: chunks' =>
      match data with
      | [] => ret bytes_count
      | _ :: _ =>
          modify (emit dst data) ;;;
          forward_from dst chunks' stop (bytes_count + Z.of_nat (length data))
      end
  | [] =>
      match stop with
      | Eof => ret bytes_count
      | ReadRaised CancelledError | ReadCancelled => raise CancelledError
      | ReadRaised _ => ret bytes_count
      | DrainRaised [] _ | DrainCancelled [] => ret bytes_count
      | DrainRaised data CancelledError | DrainCancelled data =>
          modify (emit dst data) ;;; raise CancelledError
      | DrainRaised data _ =>
          modify (emit dst data) ;;;
          ret (bytes_count + Z.of_nat (length data))%Z
      end
  end.

Definition forward (dst : peer) (chunks : list bytes) (stop : pump_stop)
  : St World Z :=
  forward_from dst chunks stop 0.

(** ** The operations on the shared state

    Sessions run as cooperative tasks and give up control at [await] only, so
    each of the following runs without interruption; whatever the
    interleaving of the sessions, the shared state goes through a sequence of
    these. *)

(** Line 416:
    [interface.active_connections = max(0, interface.active_connections - 1)] *)
Definition release (interface : nat) : St World unit :=
  with_interface interface
    (modify (λ o, NetworkInterface.set_active_connections
                    (Z.max 0 (NetworkInterface.active_connections o - 1)) o)).

Inductive op :=
| GetBestInterface
| MarkInterfaceFailed (interface : nat) (error : pystr)
| UpdateStats (interface : nat) (bytes_transferred : Z) (response_time : Q)
| ReportStats
| MarkRequestSuccess (interface : nat)
| Release (interface : nat)            (* the decrement of the [finally] block *)
| Time                                 (* a [time.time()] of its own *)
| Write (p : peer) (data : bytes).

Section Operations.

Variable clock : nat → Q.

Definition exec (o : op) : St World unit :=
  match o with
  | GetBestInterface => get_best_interface clock ;;; ret tt
  | MarkInterfaceFailed i error => mark_interface_failed clock i error
  | UpdateStats i b t =>
      with_interface i (NetworkInterface.update_stats b t)
  | ReportStats => report_stats clock
  | MarkRequestSuccess i =>
      with_interface i NetworkInterface.mark_request_success
  | Release i => release i
  | Time => time_time clock ;;; ret tt
  | Write p data => modify (emit p data)
  end.

(** The state after a sequence of operations, whether they raise or not. *)
Definition run_ops (ops : list op) (w : World) : World :=
  fold_left (λ w o, snd (exec o w)) ops w.

End Operations.

(** An operation as sessions perform it: [update_stats] with the 0 that
    [bytes_transferred] is bound to. *)
Definition of_session (o : op) : Prop :=
  match o with
  | UpdateStats _ bytes_transferred _ => bytes_transferred = 0%Z
  | _ => True
  end.

(** An operation of another session: it is one that sessions perform, and
    it is not a write to the two sockets of this session. *)
Definition background (o : op) : Prop :=
  of_session o ∧ ∀ p data, o ≠ Write p data.

(** ** The session *)

(** What the initial [wait_for(reader.read(8192), 5.0)] does: it returns
    the bytes read or raises, [TimeoutError] after 5 s without any. *)
Inductive head_read :=
| HeadData (request_data : bytes)
| HeadRaised (e : exn).

Definition HeadTimeout : head_read := HeadRaised TimeoutError.

(** The places where [handle_client] awaits: the session is suspended
    there, and other sessions run. *)
Inductive await_point :=
| AwaitDrain503                (* line 271 *)
| AwaitHead                    (* line 285 *)
| AwaitConnect (attempt : nat) (* line 338 *)
| AwaitDrain502                (* line 346 *)
| AwaitHandshake               (* line 355 *)
| AwaitTunnel                  (* lines 369 and 378 *)
| AwaitClose.                  (* line 422 *)

(** Everything the outside world decides during one session. *)
Record Session := {
  (** what the other sessions do to the shared state while this one is
      suspended at an [await] *)
  others : await_point → list op;
  head : head_read;
  (** attempt number, host, port, interface: [None] when [open_connection]
      succeeds within its 2 s, otherwise the exception *)
  open_connection : nat → pystr → Z → nat → option exn;
  (** does the one [drain] of the client writer before tunnelling succeed *)
  drain_raises : option exn;
  client_chunks : list bytes;
  client_stop : pump_stop;
  remote_chunks : list bytes;
  remote_stop : pump_stop
}.

(** The local variables of [handle_client] that its [except] and [finally]
    blocks read. *)
Record Frame := mkFrame {
  world : World;
  interface : option nat;
  remote_writer : bool       (* is [remote_writer] set *)
}.

Definition lift {A} (c : St World A) : St Frame A :=
  λ f, let '(r, w) := c (world f) in
       (r, mkFrame w (interface f) (remote_writer f)).
Definition set_interface (i : nat) : St Frame unit :=
  modify (λ f, mkFrame (world f) (Some i) (remote_writer f)).
Definition set_remote_writer : St Frame unit :=
  modify (λ f, mkFrame (world f) (interface f) true).

(** [str(e)]; it only reaches the log. *)
Definition str_of_exn (e : exn) : pystr :=
  match e with
  | RuntimeError msg => msg
  | _ => []
  end.

Definition response_503 : bytes :=
  blit "HTTP/1.1 503 Service Unavailable" ++ [Byte.x0d; Byte.x0a; Byte.x0d; Byte.x0a].
Definition response_502 : bytes :=
  blit "HTTP/1.1 502 Bad Gateway" ++ [Byte.x0d; Byte.x0a; Byte.x0d; Byte.x0a].
Definition response_200 : bytes :=
  blit "HTTP/1.1 200 Connection established" ++ [Byte.x0d; Byte.x0a; Byte.x0d; Byte.x0a].

Section ProxyServer.

Variable clock : nat → Q.
Variable int : pystr → result Z.
Variable urlparse : pystr → result ParseResult.
(** [request_data.decode('utf-8', errors='ignore')] *)
Variable decode : bytes → pystr.

Variable s : Session.

(** [await]: the other sessions run, then this one goes on. *)
Definition await (p : await_point) : St Frame unit :=
  lift (λ w, (Ok tt, run_ops clock (others s p) w)).

(** [await writer.drain()] *)
Definition drain (p : await_point) : St Frame unit :=
  await p ;;;
  match drain_raises s with
  | None => ret tt
  | Some e => raise e
  end.

(** A task created for a pump runs to its end; its result, or its
    cancellation, stays in the task object. *)
Definition create_task (pump : St World Z) : St Frame (result Z) :=
  λ f, let '(r, w) := pump (world f) in
       (Ok r, mkFrame w (interface f) (remote_writer f)).

(** The loop of lines 337-342, [n] iterations left, [attempt] done so far. *)
Fixpoint try_all (host : pystr) (port : Z) (n attempt : nat) : St Frame unit :=
  match n with
  | O => ret tt
  | S n' =>
      f <- get ;;
      match interface f with
      | None => raise NoSuchObject
      | Some i =>
          await (AwaitConnect attempt) ;;;
          match open_connection s attempt host port i with
          | None => set_remote_writer
          | Some CancelledError => raise CancelledError
          | Some e =>
              lift (mark_interface_failed clock i (str_of_exn e)) ;;;
              i' <- lift (get_best_interface clock) ;;
              set_interface i' ;;;
              try_all host port n' (S attempt)
          end
      end
  end.

(** The body of the outer [try] of [handle_client] from line 319 on, once
    the request head has been parsed. *)
Definition session_parsed (start_time : Q) (bytes_transferred : Z)
    (request_data : bytes) (method host : pystr) (port : Z)
  : St Frame unit :=
  w <- lift get ;;
  try_all host port (length (LoadBalancer.interfaces (lb w))) 0 ;;;
  f <- get ;;
  if negb (remote_writer f) then
    lift (modify (emit Client response_502)) ;;; drain AwaitDrain502
  else
    try_except
      ((if bool_decide (method = str "CONNECT")
        then lift (modify (emit Client response_200))
        else lift (modify (emit Remote request_data))) ;;;
       drain AwaitHandshake ;;;
       client_to_server <-
         create_task (forward Remote (client_chunks s) (client_stop s)) ;;
       server_to_client <-
         create_task (forward Client (remote_chunks s) (remote_stop s)) ;;
       await AwaitTunnel)
      (λ _, ret tt) ;;;
    end_time <- lift (time_time clock) ;;
    let response_time := (end_time - start_time)%Q in
    f <- get ;;
    match interface f with
    | None => raise NoSuchObject
    | Some i =>
        lift (with_interface i
                (NetworkInterface.update_stats
                   bytes_transferred response_time)) ;;;
        lift (report_stats clock) ;;;
        if remote_writer f
        then lift (with_interface i NetworkInterface.mark_request_success)
        else ret tt
    end.

(** The body of the outer [try] of [handle_client] from line 274 on, once
    [get_best_interface] has returned [i]. *)
Definition session_selected (start_time : Q) (bytes_transferred : Z) (i : nat)
  : St Frame unit :=
  set_interface i ;;;
  await AwaitHead ;;;
  match head s with
  | HeadRaised TimeoutError => ret tt
  | HeadRaised e => raise e
  | HeadData request_data =>
      let request_text := decode request_data in
      match quick_parse int urlparse request_text with
      | None => ret tt
      | Some (method, host, port) =>
          session_parsed start_time bytes_transferred request_data
            method host port
      end
  end.

(** The body of the outer [try] of [handle_client]. *)
Definition session_body (start_time : Q) (bytes_transferred : Z)
  : St Frame unit :=
  λ f0,
    match lift (get_best_interface clock) f0 with
    | (Raise (RuntimeError _), f) =>
        (lift (modify (emit Client response_503)) ;;; drain AwaitDrain503) f
    | (Raise e, f) => (Raise e, f)
    | (Ok i, f) => session_selected start_time bytes_transferred i f
    end.

(** The outer [except Exception as e] block. *)
Definition session_except (e : exn) : St Frame unit :=
  f <- get ;;
  match interface f with
  | Some i => lift (mark_interface_failed clock i (str_of_exn e))
  | None => ret tt
  end.

(** The [finally] block; closing the writers changes nothing modelled. *)
Definition session_finally : St Frame unit :=
  f <- get ;;
  match interface f with
  | Some i => lift (release i)
  | None => ret tt
  end ;;;
  await AwaitClose.

(** [ProxyServer.handle_client] *)
Definition handle_client : St World unit :=
  start_time <- time_time clock ;;
  let bytes_transferred := 0%Z in
  λ w,
    let '(r, f) :=
      try_finally
        (try_except (session_body start_time bytes_transferred)
                    session_except)
        session_finally
        (mkFrame w None false) in
    (r, world f).

End ProxyServer.

(** The state once discovery has selected [selected]. *)
Definition started (selected : list (pystr * pystr)) : World :=
  mkWorld (LoadBalancer.discover_interfaces selected LoadBalancer.init) 0 [].

(** * Properties *)

(** ** The candidate list *)

Lemma valid_from_elem i l r :
  r ∈ valid_from i l ↔
  ∃ o, i ≤ r ∧ l !! (r - i) = Some o
       ∧ startswith (NetworkInterface.ip o) link_local = false.
Proof.
  revert i. induction l as [|o l IH]; intros i; cbn [valid_from].
  - split; [intros H; inversion H | intros (o & _ & H & _); discriminate].
  - destruct (startswith (NetworkInterface.ip o) link_local) eqn:E.
    + rewrite IH. split.
      * intros (o' & Hle & Hl & Hs). exists o'. split; [lia|]. split; [|done].
        replace (r - i) with (S (r - S i)) by lia. done.
      * intros (o' & Hle & Hl & Hs).
        destruct (r - i) as [|k] eqn:Ek.
        { simpl in Hl. congruence. }
        exists o'. split; [lia|]. split; [|done].
        replace (r - S i) with k by lia. done.
    + rewrite elem_of_cons, IH. split.
      * intros [-> | (o' & Hle & Hl & Hs)].
        { exists o. rewrite Nat.sub_diag. done. }
        exists o'. split; [lia|]. split; [|done].
        replace (r - i) with (S (r - S i)) by lia. done.
      * intros (o' & Hle & Hl & Hs).
        destruct (r - i) as [|k] eqn:Ek.
        { left. lia. }
        right. exists o'. split; [lia|]. split; [|done].
        replace (r - S i) with k by lia. done.
Qed.

Lemma valid_from_NoDup i l : NoDup (valid_from i l).
Proof.
  revert i. induction l as [|o l IH]; intros i; cbn [valid_from]; [constructor|].
  destruct (startswith _ _); [apply IH|].
  constructor; [|apply IH].
  rewrite valid_from_elem. intros (? & ? & _). lia.
Qed.

Lemma valid_interfaces_elem self r :
  r ∈ valid_interfaces self ↔
  ∃ o, LoadBalancer.interfaces self !! r = Some o
       ∧ startswith (NetworkInterface.ip o) link_local = false.
Proof.
  unfold valid_interfaces. rewrite valid_from_elem.
  rewrite Nat.sub_0_r. split.
  - intros (o & _ & ? & ?). eauto.
  - intros (o & ? & ?). exists o. split; [lia | done].
Qed.

Lemma valid_interfaces_NoDup self : NoDup (valid_interfaces self).
Proof. apply valid_from_NoDup. Qed.

(** Position [c mod K] is inside a list of length [K > 0]. *)
Lemma cursor_lookup {A} (valid : list A) (c : Z) :
  valid ≠ [] →
  is_Some (valid !! Z.to_nat (c `mod` Z.of_nat (length valid))).
Proof.
  intros Hne. apply lookup_lt_is_Some.
  destruct valid as [|x valid]; [done|].
  pose proof (Z.mod_pos_bound c (Z.of_nat (length (x :: valid)))) as Hb.
  simpl length in *. lia.
Qed.

(** ** One check of one interface *)

Section Checks.

Variable clock : nat → Q.

(** The states that differ from [w] in the cursor and the number of clock
    readings only. *)
Definition moved (c : Z) (n : nat) (w : World) : World :=
  mkWorld (LoadBalancer.set_current_interface_index c (lb w)) (n + ticks w)
          (sent w).

Lemma is_interface_failed_absent w r o :
  LoadBalancer.interfaces (lb w) !! r = Some o →
  LoadBalancer.failed_interfaces (lb w) !! NetworkInterface.ip o = None →
  is_interface_failed clock r w = (Ok false, w).
Proof.
  intros Ho Hf. unfold is_interface_failed, bind, attr, get.
  rewrite Ho. simpl. rewrite Hf. done.
Qed.

Lemma is_interface_failed_fresh w r o since :
  LoadBalancer.interfaces (lb w) !! r = Some o →
  LoadBalancer.failed_interfaces (lb w) !! NetworkInterface.ip o = Some since →
  (clock (ticks w) - since <= LoadBalancer.failure_timeout)%Q →
  is_interface_failed clock r w = (Ok true, tick w).
Proof.
  intros Ho Hf Ht. unfold is_interface_failed, bind, attr, get.
  rewrite Ho. simpl. rewrite Hf. unfold time_time. simpl.
  destruct (Qlt_le_dec _ _) as [Hlt|Hle]; [|done].
  exfalso. apply (Qlt_not_le _ _ Hlt). done.
Qed.

Lemma is_interface_failed_stale w r o since :
  LoadBalancer.interfaces (lb w) !! r = Some o →
  LoadBalancer.failed_interfaces (lb w) !! NetworkInterface.ip o = Some since →
  (LoadBalancer.failure_timeout < clock (ticks w) - since)%Q →
  is_interface_failed clock r w =
    (Ok false,
     upd_lb (λ l, LoadBalancer.set_failed_interfaces
                    (delete (NetworkInterface.ip o)
                            (LoadBalancer.failed_interfaces l)) l) (tick w)).
Proof.
  intros Ho Hf Ht. unfold is_interface_failed, bind, attr, get.
  rewrite Ho. simpl. rewrite Hf. unfold time_time. simpl.
  destruct (Qlt_le_dec _ _) as [Hlt|Hle]; [done|].
  exfalso. apply (Qlt_not_le _ _ Ht). done.
Qed.

End Checks.

(** ** The panic reset *)

Section PanicReset.

Variable clock : nat → Q.

(** [r] is in quarantine in [w], and still is at each of the next [n]
    clock readings. *)
Definition quarantined (w : World) (n : nat) (r : nat) : Prop :=
  ∃ o since,
    LoadBalancer.interfaces (lb w) !! r = Some o
    ∧ LoadBalancer.failed_interfaces (lb w) !! NetworkInterface.ip o = Some since
    ∧ ∀ k, ticks w ≤ k < ticks w + n →
           (clock k - since <= LoadBalancer.failure_timeout)%Q.

Definition next_index (K : nat) (c : Z) : Z := ((c + 1) `mod` Z.of_nat K)%Z.

Lemma round_robin_exhausted valid n w :
  valid ≠ [] →
  (∀ r, r ∈ valid → quarantined w n r) →
  round_robin clock valid n w =
    (Ok None,
     match n with
     | O => w
     | S _ => moved (Nat.iter n (next_index (length valid))
                       (LoadBalancer.current_interface_index (lb w))) n w
     end).
Proof.
  intros Hne. revert w. induction n as [|n IH]; intros w Hq; [done|].
  destruct (cursor_lookup valid (LoadBalancer.current_interface_index (lb w)) Hne)
    as [r Hr].
  assert (Hin : r ∈ valid) by (eapply list_elem_of_lookup_2; done).
  destruct (Hq r Hin) as (o & since & Ho & Hf & Ht).
  cbn [round_robin]. unfold bind at 1. unfold get at 1. cbn beta iota.
  rewrite Hr. unfold bind at 1. unfold modify at 1. cbn beta iota.
  unfold bind at 1.
  erewrite is_interface_failed_fresh; [| exact Ho | exact Hf | ].
  2:{ apply Ht. simpl. lia. }
  rewrite IH.
  2:{ intros r' Hr'. destruct (Hq r' Hr') as (o' & s' & ? & ? & Ht').
      exists o', s'. simpl. repeat split; try done.
      intros k Hk. apply Ht'. simpl in Hk. lia. }
  f_equal. destruct n as [|n'].
  - unfold moved, tick, upd_lb. simpl. done.
  - unfold moved, tick, upd_lb. cbn [lb ticks sent].
    rewrite (Nat.iter_succ_r (S n')).
    f_equal. lia.
Qed.

(** C1.  When the candidate list is not empty ([first] is its element 0)
    and every candidate is in quarantine, at each of the clock readings the
    call takes (one per candidate), [get_best_interface] returns [first],
    and afterwards both [failed_interfaces] and [consecutive_failures] are
    empty. *)
Theorem panic_reset (w : World) (first : nat) :
  valid_interfaces (lb w) !! 0 = Some first →
  (∀ r, r ∈ valid_interfaces (lb w) →
        quarantined w (length (valid_interfaces (lb w))) r) →
  ∃ w',
    get_best_interface clock w = (Ok first, w')
    ∧ LoadBalancer.failed_interfaces (lb w') = ∅
    ∧ LoadBalancer.consecutive_failures (lb w') = ∅
    ∧ LoadBalancer.interfaces (lb w') = LoadBalancer.interfaces (lb w).
Proof.
  intros Hfirst Hq.
  assert (Hne : valid_interfaces (lb w) ≠ []).
  { intros E. rewrite E in Hfirst. discriminate. }
  unfold get_best_interface, bind at 1, get at 1. cbn beta iota.
  destruct (LoadBalancer.interfaces (lb w)) as [|o0 rest] eqn:Ei.
  { exfalso. apply Hne. unfold valid_interfaces. rewrite Ei. done. }
  destruct (valid_interfaces (lb w)) as [|v vs] eqn:Ev; [done|].
  simpl in Hfirst. injection Hfirst as ->.
  unfold bind at 1. rewrite round_robin_exhausted; [| done | done].
  eexists. split; [reflexivity|]. simpl. rewrite Ei. done.
Qed.

End PanicReset.

(** ** Round-robin selection *)

(** [n] calls of [get_best_interface] in a row, and what they return. *)
Fixpoint select_many (clock : nat → Q) (n : nat) : St World (list nat) :=
  match n with
  | O => ret []
  | S n' =>
      r <- get_best_interface clock ;;
      rs <- select_many clock n' ;;
      ret (r :: rs)
  end.

Section Arithmetic.

Local Open Scope Z_scope.

Lemma div_succ (m K : Z) :
  0 < K → 0 ≤ m →
  (m + 1) / K = m / K + (if (m + 1) mod K =? 0 then 1 else 0).
Proof.
  intros HK Hm.
  pose proof (Z.div_mod m K ltac:(lia)) as E1.
  pose proof (Z.mod_pos_bound m K HK) as B1.
  pose proof (Z.div_mod (m + 1) K ltac:(lia)) as E2.
  pose proof (Z.mod_pos_bound (m + 1) K HK) as B2.
  destruct (Z.eqb_spec ((m + 1) mod K) 0) as [E|E]; nia.
Qed.

(** Call number [N] lands on position [j] exactly when [N] is congruent to
    [j - c]. *)
Lemma hit_iff (c N j K : Z) :
  0 < K → 0 ≤ j < K →
  ((c + N) mod K =? j) = ((N + K - (j - c) mod K) mod K =? 0).
Proof.
  intros HK Hj.
  pose proof (Z.div_mod (j - c) K ltac:(lia)) as D2.
  destruct (Z.eqb_spec ((c + N) mod K) j) as [E|E]; symmetry.
  - apply Z.eqb_eq.
    pose proof (Z.div_mod (c + N) K ltac:(lia)) as D1.
    replace (N + K - (j - c) mod K)
      with (((c + N) / K + (j - c) / K + 1) * K) by lia.
    apply Z.mod_mul. lia.
  - apply Z.eqb_neq. intros H. apply E.
    apply Z.mod_divide in H; [|lia]. destruct H as [q Hq].
    replace (c + N) with (j + (q - (j - c) / K - 1) * K) by lia.
    rewrite Z.mod_add by lia. apply Z.mod_small. lia.
Qed.

End Arithmetic.

Section RoundRobin.

Variable clock : nat → Q.

(** [r] is a live object whose address is not in [failed_interfaces]. *)
Definition healthy (w : World) (r : nat) : Prop :=
  ∃ o, LoadBalancer.interfaces (lb w) !! r = Some o
       ∧ LoadBalancer.failed_interfaces (lb w) !! NetworkInterface.ip o = None.

(** The candidate the cursor [c] designates at the [i]-th call from now. *)
Definition pick (valid : list nat) (c : Z) (i : nat) : nat :=
  nth (Z.to_nat ((c + Z.of_nat i) `mod` Z.of_nat (length valid))) valid 0.

Lemma get_best_interface_healthy w :
  valid_interfaces (lb w) ≠ [] →
  (∀ r, r ∈ valid_interfaces (lb w) → healthy w r) →
  get_best_interface clock w =
    (Ok (pick (valid_interfaces (lb w))
              (LoadBalancer.current_interface_index (lb w)) 0),
     moved (next_index (length (valid_interfaces (lb w)))
              (LoadBalancer.current_interface_index (lb w))) 0 w).
Proof.
  intros Hne Hh.
  unfold get_best_interface, bind at 1, get at 1. cbn beta iota.
  destruct (LoadBalancer.interfaces (lb w)) as [|o0 rest] eqn:Ei.
  { exfalso. apply Hne. unfold valid_interfaces. rewrite Ei. done. }
  destruct (cursor_lookup (valid_interfaces (lb w))
              (LoadBalancer.current_interface_index (lb w)) Hne) as [r Hr].
  assert (Hin : r ∈ valid_interfaces (lb w))
    by (eapply list_elem_of_lookup_2; done).
  destruct (Hh r Hin) as (o & Ho & Hf).
  unfold pick. rewrite Z.add_0_r, nth_lookup, Hr. simpl default.
  destruct (valid_interfaces (lb w)) as [|v vs] eqn:Ev; [done|].
  unfold bind at 1. cbn [length round_robin].
  unfold bind at 1, get at 1. cbn beta iota.
  cbn [length] in Hr. rewrite Hr.
  unfold bind at 1, modify at 1. cbn beta iota. unfold bind at 1.
  erewrite is_interface_failed_absent; [| exact Ho | exact Hf].
  reflexivity.
Qed.

Lemma pick_shift valid c i :
  valid ≠ [] →
  pick valid (next_index (length valid) c) i = pick valid c (S i).
Proof.
  intros Hne. unfold pick, next_index. f_equal. f_equal.
  rewrite Z.add_mod_idemp_l.
  - f_equal. lia.
  - destruct valid; [done | simpl; lia].
Qed.

Lemma select_many_healthy n w :
  valid_interfaces (lb w) ≠ [] →
  (∀ r, r ∈ valid_interfaces (lb w) → healthy w r) →
  select_many clock n w =
    (Ok (map (pick (valid_interfaces (lb w))
                   (LoadBalancer.current_interface_index (lb w))) (seq 0 n)),
     match n with
     | O => w
     | S _ => moved (Nat.iter n (next_index (length (valid_interfaces (lb w))))
                       (LoadBalancer.current_interface_index (lb w))) 0 w
     end).
Proof.
  revert w. induction n as [|n IH]; intros w Hne Hh; [done|].
  cbn [select_many]. unfold bind at 1.
  rewrite get_best_interface_healthy by done.
  unfold bind at 1. rewrite IH; [| done | done].
  unfold ret. cbn [moved lb LoadBalancer.set_current_interface_index
                    LoadBalancer.current_interface_index].
  replace (valid_interfaces _) with (valid_interfaces (lb w)) by done.
  f_equal.
  - f_equal. cbn [seq map]. f_equal.
    rewrite <- seq_shift, map_map.
    apply map_ext. intros i. apply pick_shift. done.
  - destruct n as [|n']; [done|].
    rewrite (Nat.iter_succ_r (S n')). unfold moved. simpl. done.
Qed.

(** How often position [j] comes up in [n] calls from cursor [c]. *)
Lemma count_pick valid c (j n : nat) :
  NoDup valid → j < length valid →
  Z.of_nat (count_occ Nat.eq_dec (map (pick valid c) (seq 0 n))
              (nth j valid 0)) =
  ((Z.of_nat n + Z.of_nat (length valid) - 1
    - (Z.of_nat j - c) `mod` Z.of_nat (length valid))
   `div` Z.of_nat (length valid))%Z.
Proof.
  intros Hnd Hj.
  set (K := Z.of_nat (length valid)).
  assert (HK : (0 < K)%Z) by (unfold K; lia).
  pose proof (Z.mod_pos_bound (Z.of_nat j - c) K HK) as Hrho.
  induction n as [|n IH].
  - simpl. symmetry. apply Z.div_small. lia.
  - rewrite seq_S, map_app, count_occ_app, Nat2Z.inj_add, IH. simpl.
    replace (Z.of_nat (S n) + K - 1 - (Z.of_nat j - c) `mod` K)%Z
      with ((Z.of_nat n + K - 1 - (Z.of_nat j - c) `mod` K) + 1)%Z by lia.
    rewrite div_succ by lia. f_equal.
    replace (Z.of_nat n + K - 1 - (Z.of_nat j - c) `mod` K + 1)%Z
      with (Z.of_nat n + K - (Z.of_nat j - c) `mod` K)%Z by lia.
    rewrite <- (hit_iff c (Z.of_nat n) (Z.of_nat j) K) by lia.
    pose proof (Z.mod_pos_bound (c + Z.of_nat n) K HK) as Hb.
    destruct (Nat.eq_dec (pick valid c n) (nth j valid 0)) as [E|E].
    + unfold pick in E. fold K in E.
      destruct (lookup_lt_is_Some_2 valid
                  (Z.to_nat ((c + Z.of_nat n) `mod` K)) ltac:(lia)) as [x Hx].
      destruct (lookup_lt_is_Some_2 valid j Hj) as [y Hy].
      rewrite (nth_lookup_Some _ _ _ _ Hx), (nth_lookup_Some _ _ _ _ Hy) in E.
      subst y. pose proof (NoDup_lookup _ _ _ _ Hnd Hx Hy).
      destruct (Z.eqb_spec ((c + Z.of_nat n) `mod` K) (Z.of_nat j));
        [done | lia].
    + destruct (Z.eqb_spec ((c + Z.of_nat n) `mod` K) (Z.of_nat j)) as [E'|E'];
        [|done].
      exfalso. apply E. unfold pick. fold K. rewrite E'.
      rewrite Nat2Z.id. done.
Qed.

(** C2.  With [K >= 1] candidates, none of them in [failed_interfaces],
    [N >= 1] calls of [get_best_interface] in a row all return; call number
    [i] returns the candidate at position [(c + i) mod K], where [c] is the
    cursor before the first call, each call moving the cursor by one
    ([next_index]); and every candidate is returned [N / K] or
    [(N + K - 1) / K] times, the floor and the ceiling of [N / K]. *)
Theorem round_robin_fair (w : World) (N : nat) :
  let valid := valid_interfaces (lb w) in
  let K := length valid in
  let c := LoadBalancer.current_interface_index (lb w) in
  1 ≤ N → 1 ≤ K →
  (∀ r, r ∈ valid → healthy w r) →
  ∃ rs w',
    select_many clock N w = (Ok rs, w')
    ∧ rs = map (pick valid c) (seq 0 N)
    ∧ LoadBalancer.current_interface_index (lb w')
      = Nat.iter N (next_index K) c
    ∧ ∀ r, r ∈ valid →
        count_occ Nat.eq_dec rs r = N / K
        ∨ count_occ Nat.eq_dec rs r = (N + K - 1) / K.
Proof.
  intros valid K c HN HK Hh.
  assert (Hne : valid ≠ []).
  { intros E. unfold K in HK. rewrite E in HK. simpl in HK. lia. }
  eexists _, _. split; [apply select_many_healthy; done|].
  split; [done|]. split.
  { destruct N as [|N']; [lia | done]. }
  intros r Hr.
  apply list_elem_of_lookup_1 in Hr as [j Hj].
  pose proof (lookup_lt_Some _ _ _ Hj) as Hlt.
  assert (Er : r = nth j valid 0) by (rewrite nth_lookup, Hj; done).
  pose proof (count_pick valid c j N (valid_interfaces_NoDup (lb w)) Hlt) as Hc.
  rewrite <- Er in Hc. fold K in Hc.
  fold valid. fold c.
  set (cnt := count_occ Nat.eq_dec (map (pick valid c) (seq 0 N)) r) in *.
  pose proof (Z.mod_pos_bound (Z.of_nat j - c) (Z.of_nat K) ltac:(lia)) as Hrho.
  set (rho := ((Z.of_nat j - c) `mod` Z.of_nat K)%Z) in *.
  assert (Hlo : (Z.of_nat N `div` Z.of_nat K ≤ Z.of_nat cnt)%Z).
  { rewrite Hc. apply Z.div_le_mono; lia. }
  assert (Hhi : (Z.of_nat cnt ≤ (Z.of_nat N + Z.of_nat K - 1) `div` Z.of_nat K)%Z).
  { rewrite Hc. apply Z.div_le_mono; lia. }
  assert (Hce : ((Z.of_nat N + Z.of_nat K - 1) `div` Z.of_nat K
                 ≤ Z.of_nat N `div` Z.of_nat K + 1)%Z).
  { replace (Z.of_nat N `div` Z.of_nat K + 1)%Z
      with ((Z.of_nat N + 1 * Z.of_nat K) `div` Z.of_nat K)%Z
      by (rewrite Z.div_add by lia; done).
    apply Z.div_le_mono; lia. }
  rewrite <- (Nat2Z.id (N / K)), <- (Nat2Z.id ((N + K - 1) / K)).
  rewrite !Nat2Z.inj_div, Nat2Z.inj_sub, Nat2Z.inj_add by lia.
  change (Z.of_nat 1) with 1%Z. lia.
Qed.

End RoundRobin.

(** ** Failure marking *)

Section FailureMarking.

Variable clock : nat → Q.

(** The counter [mark_interface_failed] compares with the threshold. *)
Definition incremented (w : World) (ip : pystr) : Z :=
  (default 0 (LoadBalancer.consecutive_failures (lb w) !! ip) + 1)%Z.

(** The run of [mark_interface_failed] on a live interface, in full. *)
Lemma mark_interface_failed_run (w : World) (r : nat)
    (o : NetworkInterface.t) (error : pystr) :
  LoadBalancer.interfaces (lb w) !! r = Some o →
  let ip := NetworkInterface.ip o in
  ∃ w' o',
    mark_interface_failed clock r error w = (Ok tt, w')
    ∧ LoadBalancer.interfaces (lb w') !! r = Some o'
    ∧ NetworkInterface.failed_requests o'
      = (NetworkInterface.failed_requests o + 1)%Z
    ∧ NetworkInterface.total_requests o'
      = (NetworkInterface.total_requests o + 1)%Z
    ∧ NetworkInterface.last_failure o' = Some (clock (ticks w))
    ∧ NetworkInterface.ip o' = ip
    ∧ LoadBalancer.consecutive_failures (lb w')
      = <[ip := if (3 <=? incremented w ip)%Z then 0%Z else incremented w ip]>
          (LoadBalancer.consecutive_failures (lb w))
    ∧ if (3 <=? incremented w ip)%Z then
        LoadBalancer.failed_interfaces (lb w')
        = <[ip := clock (S (ticks w))]> (LoadBalancer.failed_interfaces (lb w))
        ∧ NetworkInterface.status o' = str "FAILED"
      else
        LoadBalancer.failed_interfaces (lb w')
        = LoadBalancer.failed_interfaces (lb w)
        ∧ NetworkInterface.status o' = str "DEGRADED".
Proof.
  intros Ho ip.
  pose proof (lookup_lt_Some _ _ _ Ho) as Hlt.
  unfold mark_interface_failed, incremented.
  unfold bind at 1. unfold with_interface at 1. rewrite Ho.
  cbn -[str Z.add Z.leb].
  unfold bind at 1. unfold time_time at 1. cbn -[str Z.add Z.leb].
  unfold bind at 1. unfold with_interface at 1. cbn -[str Z.add Z.leb].
  rewrite list_lookup_insert_eq by done. cbn -[str Z.add Z.leb].
  unfold bind at 1. unfold attr at 1. cbn -[str Z.add Z.leb].
  rewrite list_lookup_insert_eq by (rewrite length_insert; done).
  cbn -[str Z.add Z.leb].
  unfold bind at 1. unfold modify at 1. cbn -[str Z.add Z.leb].
  rewrite lookup_insert_eq.
  fold ip.
  change (LoadBalancer.max_consecutive_failures) with 3%Z.
  destruct (3 <=? default 0 (LoadBalancer.consecutive_failures (lb w) !! ip) + 1)%Z.
  - unfold with_interface, modify. cbn -[str Z.add Z.leb].
    rewrite list_lookup_insert_eq by (rewrite length_insert; done).
    eexists _, _. split; [reflexivity|]. cbn -[str Z.add Z.leb].
    rewrite list_lookup_insert_eq by (rewrite !length_insert; done).
    rewrite insert_insert_eq. done.
  - unfold with_interface, modify. cbn -[str Z.add Z.leb].
    rewrite list_lookup_insert_eq by (rewrite length_insert; done).
    eexists _, _. split; [reflexivity|]. cbn -[str Z.add Z.leb].
    rewrite list_lookup_insert_eq by (rewrite !length_insert; done).
    done.
Qed.

(** C3.  [mark_interface_failed] on a live interface returns, and
    afterwards [failed_requests] and [total_requests] are one more than
    before and [last_failure] is the clock reading it took; when the
    incremented [consecutive_failures] entry of the address is at least 3,
    the address is in [failed_interfaces] with the next clock reading, the
    status is FAILED and the entry is 0; otherwise the status is DEGRADED,
    the entry is the incremented count and [failed_interfaces] is as
    before. *)
Theorem mark_interface_failed_spec (w : World) (r : nat)
    (o : NetworkInterface.t) (error : pystr) :
  LoadBalancer.interfaces (lb w) !! r = Some o →
  let ip := NetworkInterface.ip o in
  ∃ w' o',
    mark_interface_failed clock r error w = (Ok tt, w')
    ∧ LoadBalancer.interfaces (lb w') !! r = Some o'
    ∧ NetworkInterface.failed_requests o'
      = (NetworkInterface.failed_requests o + 1)%Z
    ∧ NetworkInterface.total_requests o'
      = (NetworkInterface.total_requests o + 1)%Z
    ∧ NetworkInterface.last_failure o' = Some (clock (ticks w))
    ∧ NetworkInterface.ip o' = ip
    ∧ if (3 <=? incremented w ip)%Z then
        LoadBalancer.failed_interfaces (lb w')
        = <[ip := clock (S (ticks w))]> (LoadBalancer.failed_interfaces (lb w))
        ∧ NetworkInterface.status o' = str "FAILED"
        ∧ LoadBalancer.consecutive_failures (lb w') !! ip = Some 0%Z
      else
        LoadBalancer.failed_interfaces (lb w')
        = LoadBalancer.failed_interfaces (lb w)
        ∧ NetworkInterface.status o' = str "DEGRADED"
        ∧ LoadBalancer.consecutive_failures (lb w') !! ip
          = Some (incremented w ip).
Proof.
  intros Ho ip.
  destruct (mark_interface_failed_run w r o error Ho)
    as (w' & o' & Hrun & Ho' & Hf & Ht & Hl & Hip & Hcf & Hbr).
  exists w', o'. repeat (split; [done|]). fold ip in Hcf, Hbr.
  destruct (3 <=? incremented w ip)%Z; destruct Hbr as [Hfi Hst];
    (split; [done|]); (split; [done|]); rewrite Hcf; apply lookup_insert_eq.
Qed.

End FailureMarking.

(** ** The quarantine window *)

Section Quarantine.

Variable clock : nat → Q.

(** One iteration of the loop of [get_best_interface], spelled out. *)
Lemma round_robin_step valid n w i :
  valid !! Z.to_nat (LoadBalancer.current_interface_index (lb w)
                     `mod` Z.of_nat (length valid)) = Some i →
  round_robin clock valid (S n) w =
    (failed <- is_interface_failed clock i ;;
     if failed then round_robin clock valid n else ret (Some i))
      (moved (next_index (length valid)
                (LoadBalancer.current_interface_index (lb w))) 0 w).
Proof.
  intros Hi. cbn [round_robin]. unfold bind at 1, get at 1. cbn beta iota.
  rewrite Hi. unfold bind at 1, modify at 1. cbn beta iota. done.
Qed.

Lemma round_robin_skips valid ip0 since n : ∀ w r w',
  (∀ i, i ∈ valid → is_Some (LoadBalancer.interfaces (lb w) !! i)) →
  LoadBalancer.failed_interfaces (lb w) !! ip0 = Some since →
  (∀ k, ticks w ≤ k < ticks w + n →
        (clock k - since <= LoadBalancer.failure_timeout)%Q) →
  round_robin clock valid n w = (Ok (Some r), w') →
  ∃ o, LoadBalancer.interfaces (lb w) !! r = Some o
       ∧ NetworkInterface.ip o ≠ ip0.
Proof.
  induction n as [|n IH]; intros w r w' Hlive Hq Ht Hrun; [discriminate|].
  destruct (valid !! Z.to_nat (LoadBalancer.current_interface_index (lb w)
                               `mod` Z.of_nat (length valid))) as [i|] eqn:Hi.
  2:{ cbn [round_robin] in Hrun. unfold bind at 1, get at 1 in Hrun.
      cbn beta iota in Hrun. rewrite Hi in Hrun. discriminate. }
  rewrite (round_robin_step _ _ _ _ Hi) in Hrun.
  set (w1 := moved _ 0 w) in Hrun.
  assert (Hin : i ∈ valid) by (eapply list_elem_of_lookup_2; done).
  destruct (Hlive i Hin) as [o Ho].
  unfold bind at 1 in Hrun.
  destruct (LoadBalancer.failed_interfaces (lb w) !! NetworkInterface.ip o)
    as [s|] eqn:Hs.
  - destruct (Qlt_le_dec LoadBalancer.failure_timeout (clock (ticks w) - s))
      as [Hstale|Hfresh].
    + rewrite (is_interface_failed_stale clock w1 i o s) in Hrun by done.
      injection Hrun as <- _. exists o. split; [done|].
      intros E. rewrite E, Hq in Hs. injection Hs as <-.
      apply (Qlt_not_le _ _ Hstale). apply Ht. lia.
    + rewrite (is_interface_failed_fresh clock w1 i o s) in Hrun by done.
      apply IH in Hrun; [done | done | done |].
      intros k Hk. apply Ht. simpl in Hk. lia.
  - rewrite (is_interface_failed_absent clock w1 i o) in Hrun by done.
    injection Hrun as <- _. exists o. split; [done|].
    intros E. rewrite E, Hq in Hs. discriminate.
Qed.

(** C4.  Let the address of interface [r0] be in [failed_interfaces] since
    [since].  (1) When every clock reading the call can take (at most one
    per candidate) is at most [since + 5], a call of [get_best_interface]
    that returns out of its loop returns an interface with another
    address; the only other way for it to return is after the loop has run
    out (the panic reset).
    (2) Once a clock reading is more than [since + 5], the check of [r0]
    removes the entry and answers "not failed", and a call of
    [get_best_interface] whose cursor designates [r0] returns [r0] and
    leaves the address out of [failed_interfaces]. *)
Theorem quarantine_window (w : World) (r0 : nat) (o0 : NetworkInterface.t)
    (since : Q) :
  let ip0 := NetworkInterface.ip o0 in
  let valid := valid_interfaces (lb w) in
  LoadBalancer.interfaces (lb w) !! r0 = Some o0 →
  LoadBalancer.failed_interfaces (lb w) !! ip0 = Some since →
  ((∀ k, ticks w ≤ k < ticks w + length valid →
          (clock k - since <= LoadBalancer.failure_timeout)%Q) →
   ∀ r w', get_best_interface clock w = (Ok r, w') →
     (∃ o, LoadBalancer.interfaces (lb w) !! r = Some o
           ∧ NetworkInterface.ip o ≠ ip0)
     ∨ (∃ w'', round_robin clock valid (length valid) w = (Ok None, w'')))
  ∧ ((LoadBalancer.failure_timeout < clock (ticks w) - since)%Q →
     (∃ w', is_interface_failed clock r0 w = (Ok false, w')
            ∧ LoadBalancer.failed_interfaces (lb w')
              = delete ip0 (LoadBalancer.failed_interfaces (lb w)))
     ∧ (valid !! Z.to_nat (LoadBalancer.current_interface_index (lb w)
                           `mod` Z.of_nat (length valid)) = Some r0 →
        ∃ w', get_best_interface clock w = (Ok r0, w')
              ∧ LoadBalancer.failed_interfaces (lb w')
                = delete ip0 (LoadBalancer.failed_interfaces (lb w)))).
Proof.
  intros ip0 valid Ho Hq. split.
  - intros Ht r w' Hrun.
    unfold get_best_interface, bind at 1, get at 1 in Hrun.
    cbn beta iota in Hrun.
    destruct (LoadBalancer.interfaces (lb w)) as [|o1 rest] eqn:Ei;
      [discriminate|].
    fold valid in Hrun.
    destruct valid as [|v vs] eqn:Ev; [discriminate|].
    unfold bind at 1 in Hrun.
    destruct (round_robin clock (v :: vs) (length (v :: vs)) w)
      as [[[found|]|e] w1] eqn:Hloop; [| |discriminate].
    + injection Hrun as -> ->. left.
      rewrite <- Ei.
      eapply (round_robin_skips (v :: vs) ip0 since); [| done | done | done].
      intros i Hi. rewrite <- Ev in Hi. apply valid_interfaces_elem in Hi.
      destruct Hi as (o & -> & _). done.
    + right. eauto.
  - intros Hstale. split.
    + eexists. split; [apply (is_interface_failed_stale clock w r0 o0 since); done|].
      done.
    + intros Hc.
      unfold get_best_interface, bind at 1, get at 1. cbn beta iota.
      destruct (LoadBalancer.interfaces (lb w)) as [|o1 rest] eqn:Ei;
        [rewrite lookup_nil in Ho; discriminate|].
      fold valid.
      destruct valid as [|v vs] eqn:Ev; [rewrite lookup_nil in Hc; discriminate|].
      unfold bind at 1. cbn [length].
      rewrite (round_robin_step _ _ _ _ Hc). unfold bind at 1.
      rewrite (is_interface_failed_stale clock _ r0 o0 since);
        [| simpl; rewrite Ei; done | done | done].
      eexists. split; [reflexivity|]. done.
Qed.

End Quarantine.

(** ** Two interfaces, run on concrete states *)

Definition eth0 : NetworkInterface.t :=
  NetworkInterface.init (str "eth0") (str "10.0.0.2").
Definition wlan0 : NetworkInterface.t :=
  NetworkInterface.init (str "wlan0") (str "10.0.0.3").

(** Scenario 1 of the specification: [A = 10.0.0.2], [B = 10.0.0.3]. *)
Definition two_nics : World :=
  started [(str "eth0", str "10.0.0.2"); (str "wlan0", str "10.0.0.3")].

(** Both addresses in quarantine since instant 0. *)
Definition both_down : World :=
  upd_lb (LoadBalancer.set_failed_interfaces
            (<[str "10.0.0.2" := 0%Q]> (<[str "10.0.0.3" := 0%Q]> ∅)))
         two_nics.

(** Only [A] in quarantine since instant 0. *)
Definition eth0_down : World :=
  upd_lb (LoadBalancer.set_failed_interfaces (<[str "10.0.0.2" := 0%Q]> ∅))
         two_nics.

Lemma elem_of_two (r a b : nat) : r ∈ [a; b] → r = a ∨ r = b.
Proof.
  intros H. apply elem_of_cons in H as [H|H]; [by left|].
  apply elem_of_cons in H as [H|H]; [by right|].
  by apply not_elem_of_nil in H.
Defined.

Lemma panic_reset_witness :
  ∃ w', get_best_interface (λ _, 3%Q) both_down = (Ok 0, w')
        ∧ LoadBalancer.failed_interfaces (lb w') = ∅
        ∧ LoadBalancer.consecutive_failures (lb w') = ∅
        ∧ LoadBalancer.interfaces (lb w') = LoadBalancer.interfaces (lb both_down).
Proof.
  apply (panic_reset (λ _, 3%Q) both_down 0).
  - reflexivity.
  - intros r Hr. apply (elem_of_two r 0 1) in Hr as [-> | ->].
    + exists eth0, 0%Q. split; [reflexivity|]. split; [reflexivity|].
      intros k _. vm_compute. discriminate.
    + exists wlan0, 0%Q. split; [reflexivity|]. split; [reflexivity|].
      intros k _. vm_compute. discriminate.
Defined.

Lemma round_robin_fair_witness :
  ∃ rs w',
    select_many (λ _, 0%Q) 4 two_nics = (Ok rs, w')
    ∧ rs = map (pick [0; 1] 0) (seq 0 4)
    ∧ LoadBalancer.current_interface_index (lb w')
      = Nat.iter 4 (next_index 2) 0%Z
    ∧ ∀ r, r ∈ [0; 1] →
        count_occ Nat.eq_dec rs r = 4 / 2
        ∨ count_occ Nat.eq_dec rs r = (4 + 2 - 1) / 2.
Proof.
  apply (round_robin_fair (λ _, 0%Q) two_nics 4).
  - lia.
  - simpl. lia.
  - intros r Hr. apply (elem_of_two r 0 1) in Hr as [-> | ->].
    + exists eth0. split; reflexivity.
    + exists wlan0. split; reflexivity.
Defined.

Lemma mark_interface_failed_spec_witness :
  ∃ w' o',
    mark_interface_failed (λ _, 7%Q) 0 [] two_nics = (Ok tt, w')
    ∧ LoadBalancer.interfaces (lb w') !! 0 = Some o'
    ∧ NetworkInterface.failed_requests o' = 1%Z
    ∧ NetworkInterface.total_requests o' = 1%Z
    ∧ NetworkInterface.last_failure o' = Some 7%Q
    ∧ NetworkInterface.status o' = str "DEGRADED"
    ∧ LoadBalancer.consecutive_failures (lb w') !! str "10.0.0.2" = Some 1%Z.
Proof.
  destruct (mark_interface_failed_spec (λ _, 7%Q) two_nics 0 eth0 [] eq_refl)
    as (w' & o' & Hrun & Ho' & Hf & Ht & Hl & _ & _ & Hs & Hc).
  exists w', o'. repeat split; assumption.
Defined.

Lemma quarantine_window_witness :
  (∀ r w', get_best_interface (λ _, 3%Q) eth0_down = (Ok r, w') →
     (∃ o, LoadBalancer.interfaces (lb eth0_down) !! r = Some o
           ∧ NetworkInterface.ip o ≠ str "10.0.0.2")
     ∨ (∃ w'', round_robin (λ _, 3%Q) [0; 1] 2 eth0_down = (Ok None, w'')))
  ∧ ∃ w', get_best_interface (λ _, 6%Q) eth0_down = (Ok 0, w')
          ∧ LoadBalancer.failed_interfaces (lb w')
            = delete (str "10.0.0.2")
                (LoadBalancer.failed_interfaces (lb eth0_down)).
Proof.
  split.
  - apply (quarantine_window (λ _, 3%Q) eth0_down 0 eth0 0%Q eq_refl eq_refl).
    intros k _. vm_compute. discriminate.
  - apply (quarantine_window (λ _, 6%Q) eth0_down 0 eth0 0%Q eq_refl eq_refl).
    + vm_compute. reflexivity.
    + reflexivity.
Defined.

(** ** The string operations *)

Lemma startswith_spec (s p : pystr) :
  startswith s p = true ↔ ∃ t, s = p ++ t.
Proof.
  revert s. induction p as [|c p IH]; intros s; simpl.
  - split; [eauto | done].
  - destruct s as [|d s].
    + split; [done | intros [t Ht]; discriminate].
    + destruct (N.eqb_spec c d) as [->|Hne].
      * rewrite IH. split; intros [t Ht]; exists t; congruence.
      * split; [done | intros [t Ht]; congruence].
Qed.

Lemma split_nosep (sep : N) (a : pystr) : sep ∉ a → split sep a = [a].
Proof.
  induction a as [|c a IH]; intros Hn; [done|].
  apply not_elem_of_cons in Hn as [Hc Ha]. simpl.
  destruct (N.eqb_spec c sep) as [E|_]; [congruence|].
  rewrite IH by done. done.
Qed.

Lemma split_app (sep : N) (a s : pystr) :
  sep ∉ a → split sep (a ++ sep :: s) = a :: split sep s.
Proof.
  induction a as [|c a IH]; intros Hn; simpl.
  - rewrite N.eqb_refl. done.
  - apply not_elem_of_cons in Hn as [Hc Ha].
    destruct (N.eqb_spec c sep) as [E|_]; [congruence|].
    rewrite IH by done. done.
Qed.

(** [sep.join(fields)] *)
Fixpoint join (sep : N) (fields : list pystr) : pystr :=
  match fields with
  | [] => []
  | [field] => field
  | field :: fields' => field ++ sep :: join sep fields'
  end.

Lemma split_join (sep : N) (s : pystr) :
  split sep s ≠ [] ∧ join sep (split sep s) = s
  ∧ Forall (λ field, sep ∉ field) (split sep s).
Proof.
  induction s as [|c s (Hne & Hj & Hf)]; simpl.
  - split; [done|]. split; [done|]. repeat constructor. apply not_elem_of_nil.
  - destruct (N.eqb_spec c sep) as [->|Hc].
    + split; [done|]. split.
      * destruct (split sep s); [done|]. simpl in *. congruence.
      * constructor; [apply not_elem_of_nil | done].
    + destruct (split sep s) as [|field fields]; [done|].
      split; [done|]. split.
      * destruct fields; simpl in *; congruence.
      * inversion Hf; subst. constructor; [|done].
        apply not_elem_of_cons. split; [congruence | done].
Qed.

Lemma split_three (sep : N) (s a b c : pystr) :
  split sep s = [a; b; c] ↔
  s = a ++ sep :: b ++ sep :: c ∧ (sep ∉ a) ∧ (sep ∉ b) ∧ (sep ∉ c).
Proof.
  split.
  - intros E. destruct (split_join sep s) as (_ & Hj & Hf).
    rewrite E in Hj, Hf. simpl in Hj.
    inversion Hf as [|? ? Ha Hf']; subst.
    inversion Hf' as [|? ? Hb Hf'']; subst.
    inversion Hf'' as [|? ? Hc _]; subst. done.
  - intros (-> & Ha & Hb & Hc).
    rewrite split_app by done. rewrite split_app by done.
    rewrite split_nosep by done. done.
Qed.

Lemma split_two (sep : N) (s a b : pystr) :
  split sep s = [a; b] ↔ s = a ++ sep :: b ∧ (sep ∉ a) ∧ (sep ∉ b).
Proof.
  split.
  - intros E. destruct (split_join sep s) as (_ & Hj & Hf).
    rewrite E in Hj, Hf. simpl in Hj.
    inversion Hf as [|? ? Ha Hf']; subst.
    inversion Hf' as [|? ? Hb _]; subst. done.
  - intros (-> & Ha & Hb).
    rewrite split_app by done. rewrite split_nosep by done. done.
Qed.

(** The first field is the text before the first separator. *)
Lemma split_head (sep : N) (line rest : pystr) :
  sep ∉ line → rest = [] ∨ (∃ rest', rest = sep :: rest') →
  hd [] (split sep (line ++ rest)) = line.
Proof.
  intros Hn [-> | [rest' ->]].
  - rewrite app_nil_r, split_nosep by done. done.
  - rewrite split_app by done. done.
Qed.

Lemma index_of_first (sub s a b : pystr) :
  s = a ++ sub ++ b →
  (∀ a' b', s = a' ++ sub ++ b' → length a ≤ length a') →
  index_of sub s = Some (length a).
Proof.
  revert s. induction a as [|c a IH]; intros s -> Hmin.
  - simpl app. destruct (sub ++ b) eqn:E; simpl;
      (replace (startswith _ sub) with true; [done|]);
      symmetry; apply startswith_spec; exists b; done.
  - simpl app. cbn [index_of].
    destruct (startswith (c :: a ++ sub ++ b) sub) eqn:Es.
    + apply startswith_spec in Es as [t Ht].
      specialize (Hmin [] t Ht). simpl in Hmin. lia.
    + rewrite (IH (a ++ sub ++ b) eq_refl); [done|].
      intros a' b' E. specialize (Hmin (c :: a') b').
      simpl in Hmin. rewrite E in Hmin. specialize (Hmin eq_refl). lia.
Qed.

Lemma index_of_absent (sub s : pystr) :
  (∀ a b, s ≠ a ++ sub ++ b) → index_of sub s = None.
Proof.
  induction s as [|c s IH]; intros Hno.
  - cbn [index_of]. destruct (startswith [] sub) eqn:Es; [|done].
    apply startswith_spec in Es as [t Ht]. destruct (Hno [] t). done.
  - cbn [index_of]. destruct (startswith (c :: s) sub) eqn:Es.
    + apply startswith_spec in Es as [t Ht]. destruct (Hno [] t). done.
    + rewrite IH; [done|]. intros a b E. apply (Hno (c :: a) b).
      simpl. congruence.
Qed.

Lemma find_first (s sub a b : pystr) :
  s = a ++ sub ++ b →
  (∀ a' b', s = a' ++ sub ++ b' → length a ≤ length a') →
  find s sub 0 = Z.of_nat (length a).
Proof.
  intros Hs Hmin. unfold find.
  destruct (Z.ltb_spec (Z.of_nat (length s)) 0); [lia|].
  change (Z.to_nat 0) with 0. rewrite drop_0.
  rewrite (index_of_first sub s a b) by done. done.
Qed.

Lemma find_absent (s sub : pystr) :
  (∀ a b, s ≠ a ++ sub ++ b) → find s sub 0 = (-1)%Z.
Proof.
  intros Hno. unfold find.
  destruct (Z.ltb_spec (Z.of_nat (length s)) 0); [done|].
  change (Z.to_nat 0) with 0. rewrite drop_0.
  rewrite index_of_absent by done. done.
Qed.

(** Searching from just after a prefix is searching the rest. *)
Lemma find_after (pre rest sub a b : pystr) :
  rest = a ++ sub ++ b →
  (∀ a' b', rest = a' ++ sub ++ b' → length a ≤ length a') →
  find (pre ++ rest) sub (Z.of_nat (length pre))
  = Z.of_nat (length pre + length a).
Proof.
  intros Hs Hmin. unfold find. rewrite length_app.
  destruct (Z.ltb_spec (Z.of_nat (length pre + length rest))
              (Z.of_nat (length pre))); [lia|].
  rewrite Nat2Z.id, drop_app_length.
  rewrite (index_of_first sub rest a b) by done. lia.
Qed.

Lemma slice_middle (pre v post : pystr) :
  slice (pre ++ v ++ post) (Z.of_nat (length pre))
        (Z.of_nat (length pre + length v)) = v.
Proof.
  unfold slice, slice_bound. rewrite !length_app.
  destruct (Z.ltb_spec (Z.of_nat (length pre)) 0); [lia|].
  destruct (Z.ltb_spec (Z.of_nat (length pre + length v)) 0); [lia|].
  rewrite Z.min_l by lia. rewrite Z.min_l by lia.
  rewrite Nat2Z.id, drop_app_length.
  replace (Z.to_nat (Z.of_nat (length pre + length v) - Z.of_nat (length pre)))
    with (length v) by lia.
  apply take_app_length.
Qed.

Lemma lstrip_spec (s : pystr) :
  ∃ a, s = a ++ lstrip s
       ∧ Forall (λ c, isspace c = true) a
       ∧ ∀ c t, lstrip s = c :: t → isspace c = false.
Proof.
  induction s as [|c s (a & Ha & Hws & Hfirst)].
  - exists []. split; [done|]. split; [constructor | done].
  - cbn [lstrip]. destruct (isspace c) eqn:Ec.
    + exists (c :: a). split; [simpl; congruence|]. split; [by constructor | done].
    + exists []. split; [done|]. split; [constructor|]. by intros ? ? [= <- _].
Qed.

(** [strip] removes whitespace at both ends, and nothing else. *)
Lemma strip_spec (s : pystr) :
  ∃ a b, s = a ++ strip s ++ b
         ∧ Forall (λ c, isspace c = true) a
         ∧ Forall (λ c, isspace c = true) b
         ∧ (∀ c t, strip s = c :: t → isspace c = false)
         ∧ (∀ t c, strip s = t ++ [c] → isspace c = false).
Proof.
  destruct (lstrip_spec s) as (a & Ha & Hwa & Hfirst).
  destruct (lstrip_spec (rev (lstrip s))) as (b & Hb & Hwb & Hlast).
  unfold strip, rstrip.
  assert (Hl : lstrip s = rev (lstrip (rev (lstrip s))) ++ rev b).
  { rewrite <- rev_app_distr, <- Hb, rev_involutive. done. }
  exists a, (rev b). split; [rewrite <- Hl; exact Ha|]. split; [done|].
  split; [apply Forall_rev; done|]. split.
  - intros c t E. apply (Hfirst c (t ++ rev b)). rewrite Hl, E. done.
  - intros t c E. apply (Hlast c (rev t)).
    rewrite <- (rev_involutive (lstrip (rev (lstrip s)))), E, rev_app_distr. done.
Qed.

(** ** The request parser *)

Section ParserProperties.

Variable int : pystr → result Z.
Variable urlparse : pystr → result ParseResult.

(** [line] is the text before the first newline of [text] (all of [text]
    when it has none). *)
Definition is_first_line (text line : pystr) : Prop :=
  ∃ rest, text = line ++ rest ∧ (10%N ∉ line)
          ∧ (rest = [] ∨ ∃ rest', rest = 10%N :: rest').

(** [line], stripped, is three fields with one space between them. *)
Definition request_line (line method url protocol : pystr) : Prop :=
  strip line = method ++ 32%N :: url ++ 32%N :: protocol
  ∧ (32%N ∉ method) ∧ (32%N ∉ url) ∧ (32%N ∉ protocol).

(** [a] is the text before the first occurrence of [sub] in [s]. *)
Definition before_first (sub s a : pystr) : Prop :=
  ∀ a' b', s = a' ++ sub ++ b' → length a ≤ length a'.

(** What the parser makes of the result of [urlparse]. *)
Definition from_url (method url : pystr) : option (pystr * pystr * Z) :=
  match urlparse url with
  | Ok parsed_url =>
      match port parsed_url with
      | Ok explicit =>
          Some (method, netloc parsed_url,
                if bool_decide (explicit = None ∨ explicit = Some 0%Z)
                then (if startswith url (str "https") then 443%Z else 80%Z)
                else default 0%Z explicit)
      | Raise _ => None
      end
  | Raise _ => None
  end.

Lemma quick_parse_fields text line method url protocol :
  is_first_line text line →
  request_line line method url protocol →
  split 32 (strip (hd [] (split 10 text))) = [method; url; protocol].
Proof.
  intros (rest & -> & Hnl & Hrest) (Hline & Hm & Hu & Hp).
  rewrite split_head by done. apply split_three. done.
Qed.

(** C7, as the code has it.  Let [line] be the first newline-separated line
    of the request text.  Parsing fails unless [line], stripped, is three
    fields METHOD, URL, PROTOCOL with exactly one space character between
    them.  When it is: if METHOD is CONNECT, host and port are the two
    fields of URL around its one [:], the port read by [int] (and parsing
    fails when URL is not two such fields or [int] raises); otherwise, if
    the text contains [Host: ], the host is the text between its first
    occurrence and the next CRLF, stripped, and the port is 80; and if the
    text does not contain [Host: ], the host is the [netloc] of
    [urlparse(URL)] and the port is its explicit non-zero port, or else 443
    when the URL text starts with [https] and 80 when it does not. *)
Theorem quick_parse_spec (text line : pystr) :
  is_first_line text line →
  (quick_parse int urlparse text ≠ None →
   ∃ method url protocol, request_line line method url protocol)
  ∧ ∀ method url protocol,
      request_line line method url protocol →
      (method = str "CONNECT" →
       (∀ host p, url = host ++ 58%N :: p → 58%N ∉ host → 58%N ∉ p →
          quick_parse int urlparse text
          = match int p with
            | Ok n => Some (method, host, n)
            | Raise _ => None
            end)
       ∧ ((∀ host p, url = host ++ 58%N :: p → 58%N ∉ host → 58%N ∈ p) →
          quick_parse int urlparse text = None))
      ∧ (method ≠ str "CONNECT" →
         (∀ pre value post,
            text = pre ++ str "Host: " ++ value ++ [13; 10]%N ++ post →
            before_first (str "Host: ") text pre →
            before_first [13; 10]%N (value ++ [13; 10]%N ++ post) value →
            quick_parse int urlparse text = Some (method, strip value, 80%Z))
         ∧ ((∀ a b, text ≠ a ++ str "Host: " ++ b) →
            quick_parse int urlparse text = from_url method url)).
Proof.
  intros Hfirst. split.
  - intros Hsome. unfold quick_parse in Hsome. cbv zeta in Hsome.
    destruct Hfirst as (rest & -> & Hnl & Hrest).
    rewrite split_head in Hsome by done.
    destruct (split 32 (strip line)) as [|m [|u [|pr [|? ?]]]] eqn:E; try done.
    exists m, u, pr. apply split_three in E. done.
  - intros method url protocol Hline.
    pose proof (quick_parse_fields _ _ _ _ _ Hfirst Hline) as Hfields.
    unfold quick_parse. cbv zeta. rewrite Hfields. split.
    + intros ->. rewrite bool_decide_eq_true_2 by done. split.
      * intros host p -> Hh Hp.
        rewrite (proj2 (split_two 58 _ host p)) by done. done.
      * intros Hno.
        destruct (split 58 url) as [|h [|p [|? ?]]] eqn:E; try done.
        apply split_two in E as (-> & Hh & Hp).
        destruct (Hp (Hno h p eq_refl Hh)).
    + intros Hm. rewrite bool_decide_eq_false_2 by done. split.
      * intros pre value post Htext Hpre Hvalue.
        rewrite (find_first text (str "Host: ") pre (value ++ [13; 10]%N ++ post))
          by done.
        replace (Z.of_nat (length pre) + 6)%Z
          with (Z.of_nat (length (pre ++ str "Host: ")))
          by (rewrite length_app; simpl; lia).
        destruct (Z.ltb_spec 5 (Z.of_nat (length (pre ++ str "Host: ")))) as [_|Hle].
        2:{ rewrite length_app in Hle. simpl in Hle. lia. }
        assert (Htext' : text = (pre ++ str "Host: ") ++ value ++ [13; 10]%N ++ post)
          by (rewrite Htext, <- app_assoc; done).
        rewrite Htext'.
        rewrite (find_after _ _ [13; 10]%N value post eq_refl Hvalue).
        rewrite slice_middle. done.
      * intros Hno. rewrite find_absent by done.
        change (5 <? -1 + 6)%Z with false. cbv iota.
        unfold from_url.
        destruct (urlparse url) as [parsed_url|]; [|done].
        destruct (port parsed_url) as [[[|n|n]|]|]; done.
Qed.

End ParserProperties.

Lemma index_of_le (sub s : pystr) (i : nat) :
  index_of sub s = Some i → before_first sub s (take i s).
Proof.
  unfold before_first. revert i. induction s as [|c s IH]; intros i Hi a' b' E.
  - cbn [index_of] in Hi. destruct (startswith [] sub); [|done].
    injection Hi as <-. simpl. lia.
  - cbn [index_of] in Hi. destruct (startswith (c :: s) sub) eqn:Es.
    + injection Hi as <-. simpl. lia.
    + destruct (index_of sub s) as [i'|] eqn:Ei; [|done].
      injection Hi as <-. destruct a' as [|c' a''].
      * simpl in E. assert (startswith (c :: s) sub = true); [|congruence].
        apply startswith_spec. eauto.
      * simpl in E. injection E as -> E.
        specialize (IH i' eq_refl a'' b' E).
        simpl. rewrite length_take in *. lia.
Qed.

(** ** The parser on concrete request heads *)

(** The specification's reading of the request line: its
    whitespace-separated tokens, as [line.split()] gives them. *)
Fixpoint tokens_from (token : pystr) (s : pystr) : list pystr :=
  match s with
  | [] => match token with [] => [] | _ :: _ => [rev token] end
  | c :: s' =>
      if isspace c then
        match token with
        | [] => tokens_from [] s'
        | _ :: _ => rev token :: tokens_from [] s'
        end
      else tokens_from (c :: token) s'
  end.

Definition whitespace_tokens (s : pystr) : list pystr := tokens_from [] s.

(** The results of the two library functions on the inputs used below
    ([urlparse] lower-cases the scheme and gives no port when the URL has
    none). *)
Definition int_sample (s : pystr) : result Z :=
  if bool_decide (s = str "443") then Ok 443%Z else Raise ValueError.

Definition urlparse_sample (url : pystr) : result ParseResult :=
  if bool_decide (url = str "HTTPS://example.com/") then
    Ok {| scheme := str "https"; netloc := str "example.com"; port := Ok None |}
  else Raise ValueError.

Definition CRLF : pystr := [13; 10]%N.

(** A tab inside the URL field: four whitespace-separated tokens. *)
Definition head_with_tab : pystr :=
  str "GET /a" ++ [9%N] ++ str "b HTTP/1.1" ++ CRLF
  ++ str "Host: example.com" ++ CRLF ++ CRLF.

(** Two spaces after the method: three whitespace-separated tokens. *)
Definition head_two_spaces : pystr :=
  str "CONNECT  example.com:443 HTTP/1.1" ++ CRLF ++ CRLF.

(** An upper-case scheme and no [Host: ] header. *)
Definition head_upper_scheme : pystr :=
  str "GET HTTPS://example.com/ HTTP/1.0" ++ CRLF ++ CRLF.

Definition head_connect : pystr :=
  str "CONNECT example.com:443 HTTP/1.1" ++ CRLF ++ CRLF.

Definition head_plain : pystr :=
  str "GET /foo HTTP/1.1" ++ CRLF ++ str "Host:  example.com " ++ CRLF ++ CRLF.

(** C7 with whitespace-separated tokens and the URL scheme does not hold of
    the code.  A first line of four whitespace-separated tokens is parsed;
    a first line of exactly three whitespace-separated tokens whose first
    is CONNECT is not; and a URL whose scheme is [https] gets port 80 when
    its text does not start with lower-case [https]. *)
Lemma quick_parse_counterexample :
  (length (whitespace_tokens (hd [] (split 10 head_with_tab))) = 4
   ∧ quick_parse int_sample urlparse_sample head_with_tab
     = Some (str "GET", str "example.com", 80%Z))
  ∧ (whitespace_tokens (hd [] (split 10 head_two_spaces))
     = [str "CONNECT"; str "example.com:443"; str "HTTP/1.1"]
     ∧ quick_parse int_sample urlparse_sample head_two_spaces = None)
  ∧ (scheme <$> (match urlparse_sample (str "HTTPS://example.com/") with
                 | Ok parsed_url => Some parsed_url
                 | Raise _ => None
                 end) = Some (str "https")
     ∧ quick_parse int_sample urlparse_sample head_upper_scheme
       = Some (str "GET", str "example.com", 80%Z)).
Proof. vm_compute. repeat split. Qed.

Lemma not_elem_of_dec (c : N) (s : pystr) :
  bool_decide (c ∈ s) = false → c ∉ s.
Proof. intros H Hin. apply bool_decide_eq_false_1 in H. done. Defined.

Lemma quick_parse_spec_witness :
  quick_parse int_sample urlparse_sample head_connect
  = Some (str "CONNECT", str "example.com", 443%Z)
  ∧ quick_parse int_sample urlparse_sample head_plain
    = Some (str "GET", str "example.com", 80%Z).
Proof.
  split.
  - assert (Hfirst : is_first_line head_connect
                       (str "CONNECT example.com:443 HTTP/1.1" ++ [13%N])).
    { exists (10%N :: CRLF). split; [reflexivity|].
      split; [apply not_elem_of_dec; reflexivity | right; eauto]. }
    assert (Hline : request_line (str "CONNECT example.com:443 HTTP/1.1" ++ [13%N])
                      (str "CONNECT") (str "example.com:443") (str "HTTP/1.1")).
    { split; [reflexivity|]. repeat split; apply not_elem_of_dec; reflexivity. }
    apply (proj1 (proj1 (proj2 (quick_parse_spec int_sample urlparse_sample
                                  _ _ Hfirst) _ _ _ Hline) eq_refl)
             (str "example.com") (str "443"));
      [reflexivity | apply not_elem_of_dec; reflexivity
       | apply not_elem_of_dec; reflexivity].
  - assert (Hfirst : is_first_line head_plain (str "GET /foo HTTP/1.1" ++ [13%N])).
    { exists (10%N :: str "Host:  example.com " ++ CRLF ++ CRLF).
      split; [reflexivity|].
      split; [apply not_elem_of_dec; reflexivity | right; eauto]. }
    assert (Hline : request_line (str "GET /foo HTTP/1.1" ++ [13%N])
                      (str "GET") (str "/foo") (str "HTTP/1.1")).
    { split; [reflexivity|]. repeat split; apply not_elem_of_dec; reflexivity. }
    assert (Hm : str "GET" ≠ str "CONNECT") by discriminate.
    apply (proj1 (proj2 (proj2 (quick_parse_spec int_sample urlparse_sample
                                  _ _ Hfirst) _ _ _ Hline) Hm)
             (str "GET /foo HTTP/1.1" ++ CRLF) (str " example.com ") CRLF).
    + reflexivity.
    + apply (index_of_le (str "Host: ") head_plain 19). reflexivity.
    + apply (index_of_le CRLF (str " example.com " ++ CRLF ++ CRLF) 13).
      reflexivity.
Defined.

(** ** What every operation leaves alone *)

(** [c] takes every state to one related to it by [R], whether it returns
    or raises. *)
Definition keeps {S A} (R : S → S → Prop) (c : St S A) : Prop :=
  ∀ s, R s (snd (c s)).

Section Keeps.

Context {S : Type} (R : S → S → Prop) `{!PreOrder R}.

Lemma keeps_ret {A} (a : A) : keeps R (ret a).
Proof. intros s. simpl. reflexivity. Qed.

Lemma keeps_raise {A} (e : exn) : keeps R (raise (A := A) e).
Proof. intros s. simpl. reflexivity. Qed.

Lemma keeps_get : keeps R get.
Proof. intros s. simpl. reflexivity. Qed.

Lemma keeps_modify (f : S → S) : (∀ s, R s (f s)) → keeps R (modify f).
Proof. intros H s. apply H. Qed.

Lemma keeps_bind {A B} (c : St S A) (k : A → St S B) :
  keeps R c → (∀ a, keeps R (k a)) → keeps R (bind c k).
Proof.
  intros Hc Hk s. unfold bind. specialize (Hc s).
  destruct (c s) as [[a|e] s']; simpl in *; [|done].
  etrans; [exact Hc | apply Hk].
Qed.

Lemma keeps_try_except {A} (c : St S A) (h : exn → St S A) :
  keeps R c → (∀ e, keeps R (h e)) → keeps R (try_except c h).
Proof.
  intros Hc Hh s. unfold try_except. specialize (Hc s).
  destruct (c s) as [[a|e] s']; simpl in *; [done|].
  destruct e; try (etrans; [exact Hc | apply Hh]). done.
Qed.

Lemma keeps_try_finally {A} (c : St S A) (f : St S unit) :
  keeps R c → keeps R f → keeps R (try_finally c f).
Proof.
  intros Hc Hf s. unfold try_finally. specialize (Hc s).
  destruct (c s) as [r s']. specialize (Hf s').
  destruct (f s') as [[[]|e] s'']; simpl in *; etrans; done.
Qed.

End Keeps.

(** The three invariants of an interface record named by the
    specification. *)
Definition sound (o : NetworkInterface.t) : Prop :=
  (NetworkInterface.successful_requests o + NetworkInterface.failed_requests o
   ≤ NetworkInterface.total_requests o)%Z
  ∧ (0 ≤ NetworkInterface.active_connections o)%Z
  ∧ (NetworkInterface.status o = str "ACTIVE"
     ∨ NetworkInterface.status o = str "DEGRADED"
     ∨ NetworkInterface.status o = str "FAILED").

Definition idle (o : NetworkInterface.t) : Prop :=
  NetworkInterface.active_connections o = 0%Z.

(** A method that keeps the address, the byte count and both properties of
    its object. *)
Definition gentle {A} (m : St NetworkInterface.t A) : Prop :=
  ∀ o, NetworkInterface.ip (snd (m o)) = NetworkInterface.ip o
       ∧ (sound o → sound (snd (m o)))
       ∧ (idle o → idle (snd (m o)))
       ∧ NetworkInterface.bytes_sent (snd (m o)) = NetworkInterface.bytes_sent o.

(** [w'] has the objects of [w] with their addresses and byte counts,
    nothing more written, and is sound, or idle, wherever [w] is. *)
Record calm (w w' : World) : Prop := {
  calm_ip :
    NetworkInterface.ip <$> LoadBalancer.interfaces (lb w')
    = NetworkInterface.ip <$> LoadBalancer.interfaces (lb w);
  calm_sound :
    Forall sound (LoadBalancer.interfaces (lb w)) →
    Forall sound (LoadBalancer.interfaces (lb w'));
  calm_idle :
    Forall idle (LoadBalancer.interfaces (lb w)) →
    Forall idle (LoadBalancer.interfaces (lb w'));
  calm_sent : sent w' = sent w;
  calm_bytes :
    NetworkInterface.bytes_sent <$> LoadBalancer.interfaces (lb w')
    = NetworkInterface.bytes_sent <$> LoadBalancer.interfaces (lb w)
}.

(** [consecutive_failures] is as before, or empty. *)
Definition counts_kept (w w' : World) : Prop :=
  LoadBalancer.consecutive_failures (lb w')
  = LoadBalancer.consecutive_failures (lb w)
  ∨ LoadBalancer.consecutive_failures (lb w') = ∅.

Definition settled (w w' : World) : Prop := calm w w' ∧ counts_kept w w'.

Global Instance calm_preorder : PreOrder calm.
Proof.
  split.
  - intros w. split; done.
  - intros w1 w2 w3 [] []. split; try (intros; auto); congruence.
Qed.

Global Instance counts_kept_preorder : PreOrder counts_kept.
Proof.
  split.
  - intros w. by left.
  - intros w1 w2 w3 [H1|H1] [H2|H2]; unfold counts_kept; try (right; congruence).
    left. congruence.
Qed.

Global Instance settled_preorder : PreOrder settled.
Proof.
  split.
  - intros w. split; reflexivity.
  - intros w1 w2 w3 [] []. split; etrans; done.
Qed.

(** A change of the load balancer's own fields, the objects and the counts
    untouched. *)
Lemma settled_upd_lb (f : LoadBalancer.t → LoadBalancer.t) (w : World) :
  LoadBalancer.interfaces (f (lb w)) = LoadBalancer.interfaces (lb w) →
  LoadBalancer.consecutive_failures (f (lb w))
  = LoadBalancer.consecutive_failures (lb w)
  ∨ LoadBalancer.consecutive_failures (f (lb w)) = ∅ →
  settled w (upd_lb f w).
Proof.
  intros Hi Hc. split; [|exact Hc].
  split; simpl; rewrite ?Hi; done.
Qed.

Lemma settled_tick (w : World) : settled w (tick w).
Proof. split; [split; done | by left]. Qed.

(** A method call changes the one object, and nothing else. *)
Lemma with_interface_Forall {A} (P : NetworkInterface.t → Prop) (r : nat)
    (m : St NetworkInterface.t A) (w : World) :
  (∀ o, P o → P (snd (m o))) →
  Forall P (LoadBalancer.interfaces (lb w)) →
  Forall P (LoadBalancer.interfaces (lb (snd (with_interface r m w)))).
Proof.
  intros Hm H. unfold with_interface.
  destruct (LoadBalancer.interfaces (lb w) !! r) as [o|] eqn:Ho; [|done].
  specialize (Hm o). destruct (m o) as [res o']. simpl in *.
  apply Forall_insert; [done|]. apply Hm. eapply Forall_lookup_1; done.
Qed.

Lemma with_interface_counts {A} (r : nat) (m : St NetworkInterface.t A)
    (w : World) :
  LoadBalancer.consecutive_failures (lb (snd (with_interface r m w)))
  = LoadBalancer.consecutive_failures (lb w).
Proof.
  unfold with_interface.
  destruct (LoadBalancer.interfaces (lb w) !! r) as [o|]; [|done].
  destruct (m o) as [res o']. done.
Qed.

Lemma with_interface_settled {A} (r : nat) (m : St NetworkInterface.t A) :
  gentle m → keeps settled (with_interface r m).
Proof.
  intros Hm w. split; [|left; apply with_interface_counts].
  split.
  - unfold with_interface.
    destruct (LoadBalancer.interfaces (lb w) !! r) as [o|] eqn:Ho; [|done].
    destruct (Hm o) as (Hip & _). destruct (m o) as [res o']. simpl in *.
    rewrite list_fmap_insert, Hip. apply list_insert_id.
    rewrite list_lookup_fmap, Ho. done.
  - apply with_interface_Forall. intros o. apply Hm.
  - apply with_interface_Forall. intros o. apply Hm.
  - unfold with_interface.
    destruct (LoadBalancer.interfaces (lb w) !! r) as [o|]; [|done].
    destruct (m o) as [res o']. done.
  - unfold with_interface.
    destruct (LoadBalancer.interfaces (lb w) !! r) as [o|] eqn:Ho; [|done].
    destruct (Hm o) as (_ & _ & _ & Hb). destruct (m o) as [res o']. simpl in *.
    rewrite list_fmap_insert, Hb. apply list_insert_id.
    rewrite list_lookup_fmap, Ho. done.
Qed.

Lemma attr_settled {A} (r : nat) (f : NetworkInterface.t → A) :
  keeps settled (attr r f).
Proof.
  intros w. unfold attr.
  destruct (LoadBalancer.interfaces (lb w) !! r); reflexivity.
Qed.

Lemma gentle_mark_request_failed : gentle NetworkInterface.mark_request_failed.
Proof.
  intros o. unfold sound, idle. simpl. split; [done|]. split; [|done].
  intros (? & ? & ?). split; [lia | done].
Qed.

Lemma gentle_mark_request_success : gentle NetworkInterface.mark_request_success.
Proof.
  intros o. unfold sound, idle. simpl. split; [done|]. split; [|done].
  intros (? & ? & ?). split; [lia | done].
Qed.

Lemma update_stats_keeps (b : Z) (t : Q) (o : NetworkInterface.t) :
  let o' := snd (NetworkInterface.update_stats b t o) in
  (sound o → sound o') ∧ (idle o → idle o')
  ∧ NetworkInterface.bytes_sent o' = (NetworkInterface.bytes_sent o + b)%Z.
Proof.
  unfold sound, idle, NetworkInterface.update_stats, bind, modify, get.
  cbn -[Z.add Z.eqb].
  destruct (NetworkInterface.total_requests o + 1 =? 0)%Z;
    cbn -[Z.add]; (split; [|done]);
    intros (? & ? & ?); (split; [lia | done]).
Qed.

Lemma gentle_update_stats (t : Q) : gentle (NetworkInterface.update_stats 0 t).
Proof.
  intros o. destruct (update_stats_keeps 0 t o) as (Hs & Hd & Hb).
  split; [|split; [done | split; [done | rewrite Hb; lia]]].
  unfold NetworkInterface.update_stats, bind, modify, get.
  cbn -[Z.add Z.eqb].
  destruct (NetworkInterface.total_requests o + 1 =? 0)%Z; done.
Qed.

Lemma gentle_set_last_failure (v : option Q) :
  gentle (modify (NetworkInterface.set_last_failure v)).
Proof. intros o. done. Qed.

Lemma gentle_set_status (v : pystr) :
  v = str "DEGRADED" ∨ v = str "FAILED" →
  gentle (modify (NetworkInterface.set_status v)).
Proof.
  intros Hv o. unfold sound, idle. simpl. split; [done|]. split; [|done].
  intros (? & ? & _). split; [done|]. split; [done|]. tauto.
Qed.

Lemma gentle_release :
  gentle (modify (λ o, NetworkInterface.set_active_connections
                         (Z.max 0 (NetworkInterface.active_connections o - 1)) o)).
Proof.
  intros o. unfold sound, idle. simpl. split; [done|]. split; [|split; [|done]].
  - intros (? & ? & ?). split; [done|]. split; [lia | done].
  - intros ->. done.
Qed.

Section Settled.

Variable clock : nat → Q.

Lemma time_time_settled : keeps settled (time_time clock).
Proof. intros w. apply settled_tick. Qed.

Lemma release_settled r : keeps settled (release r).
Proof. apply with_interface_settled, gentle_release. Qed.

Lemma is_interface_failed_settled r : keeps settled (is_interface_failed clock r).
Proof.
  unfold is_interface_failed.
  apply keeps_bind; [apply _ | apply attr_settled |]. intros ip.
  apply keeps_bind; [apply _ | apply keeps_get; apply _ |]. intros w.
  destruct (LoadBalancer.failed_interfaces (lb w) !! ip);
    [| apply keeps_ret; apply _].
  apply keeps_bind; [apply _ | apply time_time_settled |]. intros now.
  destruct (Qlt_le_dec _ _); [| apply keeps_ret; apply _].
  apply keeps_bind; [apply _ | | intros; apply keeps_ret; apply _].
  apply keeps_modify. intros w'. apply settled_upd_lb; [done | by left].
Qed.

Lemma round_robin_settled valid n : keeps settled (round_robin clock valid n).
Proof.
  induction n as [|n IH]; [apply keeps_ret; apply _|].
  cbn [round_robin].
  apply keeps_bind; [apply _ | apply keeps_get; apply _ |]. intros w.
  cbv zeta.
  destruct (valid !! _); [| apply keeps_raise; apply _].
  apply keeps_bind; [apply _ | | intros _].
  { intros w'. apply settled_upd_lb; [done | by left]. }
  apply keeps_bind; [apply _ | apply is_interface_failed_settled |].
  intros [|]; [apply IH | apply keeps_ret; apply _].
Qed.

Lemma get_best_interface_settled : keeps settled (get_best_interface clock).
Proof.
  unfold get_best_interface.
  apply keeps_bind; [apply _ | apply keeps_get; apply _ |]. intros w.
  destruct (LoadBalancer.interfaces (lb w)); [apply keeps_raise; apply _|].
  cbv zeta.
  destruct (valid_interfaces (lb w)); [apply keeps_raise; apply _|].
  apply keeps_bind; [apply _ | apply round_robin_settled |].
  intros [r|]; [apply keeps_ret; apply _|].
  apply keeps_bind; [apply _ | | intros _].
  { intros w'. apply settled_upd_lb; [done | by left]. }
  apply keeps_bind; [apply _ | | intros; apply keeps_ret; apply _].
  intros w'. apply settled_upd_lb; [done | by right].
Qed.

Lemma report_stats_settled : keeps settled (report_stats clock).
Proof.
  unfold report_stats.
  apply keeps_bind; [apply _ | apply time_time_settled |]. intros t.
  apply keeps_bind; [apply _ | apply keeps_get; apply _ |]. intros w.
  destruct (Qlt_le_dec _ _); [apply keeps_ret; apply _|].
  intros w'. apply settled_upd_lb; [done | by left].
Qed.

Lemma settled_calm {A} (c : St World A) : keeps settled c → keeps calm c.
Proof. intros H w. apply H. Qed.

Lemma mark_interface_failed_calm r error :
  keeps calm (mark_interface_failed clock r error).
Proof.
  assert (Hcf : ∀ w m, calm w (upd_lb (LoadBalancer.set_consecutive_failures m) w)).
  { intros w m. split; done. }
  unfold mark_interface_failed.
  apply keeps_bind; [apply _ | | intros _].
  { apply settled_calm, with_interface_settled, gentle_mark_request_failed. }
  apply keeps_bind; [apply _ | apply settled_calm, time_time_settled |]. intros now.
  apply keeps_bind; [apply _ | | intros _].
  { apply settled_calm, with_interface_settled, gentle_set_last_failure. }
  apply keeps_bind; [apply _ | apply settled_calm, attr_settled |]. intros ip.
  apply keeps_bind; [apply _ | | intros _].
  { intros w. apply (Hcf w). }
  apply keeps_bind; [apply _ | apply keeps_get; apply _ |]. intros w.
  destruct (LoadBalancer.consecutive_failures (lb w) !! ip);
    [| apply keeps_raise; apply _].
  destruct (_ <=? _)%Z.
  - apply keeps_bind; [apply _ | apply settled_calm, time_time_settled |].
    intros now'.
    apply keeps_bind; [apply _ | | intros _].
    { apply settled_calm. intros w'. apply settled_upd_lb; [done | by left]. }
    apply keeps_bind; [apply _ | | intros _].
    { apply settled_calm, with_interface_settled, gentle_set_status. by right. }
    intros w'. apply (Hcf w').
  - apply settled_calm, with_interface_settled, gentle_set_status. by left.
Qed.

End Settled.

(** ** Invariants of the shared state *)

Definition bounded (counts : gmap pystr Z) : Prop :=
  map_Forall (λ _ n, (0 ≤ n ≤ 2)%Z) counts.

Section Invariants.

Variable clock : nat → Q.

Lemma exec_calm (o : op) (w : World) :
  (∀ p data, o ≠ Write p data) →
  (∀ i b t, o = UpdateStats i b t → b = 0%Z) →
  calm w (snd (exec clock o w)).
Proof.
  intros Hw Hb. destruct o as [|r error|r b t| |r|r| |p data]; cbn [exec].
  - apply settled_calm.
    apply keeps_bind; [apply _ | apply get_best_interface_settled |].
    intros; apply keeps_ret; apply _.
  - apply mark_interface_failed_calm.
  - rewrite (Hb r b t eq_refl).
    apply settled_calm, with_interface_settled, gentle_update_stats.
  - apply settled_calm, report_stats_settled.
  - apply settled_calm, with_interface_settled, gentle_mark_request_success.
  - apply settled_calm, release_settled.
  - apply settled_calm.
    apply keeps_bind; [apply _ | apply time_time_settled |].
    intros; apply keeps_ret; apply _.
  - destruct (Hw p data eq_refl).
Qed.

Lemma exec_sound (o : op) (w : World) :
  Forall sound (LoadBalancer.interfaces (lb w)) →
  Forall sound (LoadBalancer.interfaces (lb (snd (exec clock o w)))).
Proof.
  destruct o as [|r error|r b t| |r|r| |p data];
    try (apply exec_calm; discriminate); [|done].
  apply with_interface_Forall. intros o. apply update_stats_keeps.
Qed.

Lemma exec_idle (o : op) (w : World) :
  Forall idle (LoadBalancer.interfaces (lb w)) →
  Forall idle (LoadBalancer.interfaces (lb (snd (exec clock o w)))).
Proof.
  destruct o as [|r error|r b t| |r|r| |p data];
    try (apply exec_calm; discriminate); [|done].
  apply with_interface_Forall. intros o. apply update_stats_keeps.
Qed.

Lemma run_ops_sound (ops : list op) (w : World) :
  Forall sound (LoadBalancer.interfaces (lb w)) →
  Forall sound (LoadBalancer.interfaces (lb (run_ops clock ops w))).
Proof.
  revert w. induction ops as [|o ops IH]; intros w H; [done|].
  apply IH, exec_sound, H.
Qed.

Lemma run_ops_idle (ops : list op) (w : World) :
  Forall idle (LoadBalancer.interfaces (lb w)) →
  Forall idle (LoadBalancer.interfaces (lb (run_ops clock ops w))).
Proof.
  revert w. induction ops as [|o ops IH]; intros w H; [done|].
  apply IH, exec_idle, H.
Qed.

Lemma exec_bytes (o : op) (w : World) :
  (∀ i b t, o = UpdateStats i b t → b = 0%Z) →
  NetworkInterface.bytes_sent <$> LoadBalancer.interfaces (lb (snd (exec clock o w)))
  = NetworkInterface.bytes_sent <$> LoadBalancer.interfaces (lb w).
Proof.
  intros Hb. destruct o as [|r error|r b t| |r|r| |p data];
    try (apply exec_calm; [discriminate | exact Hb]). done.
Qed.

Lemma run_ops_calm (ops : list op) : ∀ w,
  Forall background ops → calm w (run_ops clock ops w).
Proof.
  induction ops as [|o ops IH]; intros w H; [reflexivity|].
  inversion H as [|? ? [Ho Hw] Hops]; subst. cbn [run_ops fold_left].
  etrans; [|apply IH, Hops]. apply exec_calm; [exact Hw|].
  intros i b t ->. exact Ho.
Qed.

Lemma started_fresh (selected : list (pystr * pystr)) :
  Forall (λ o, ∃ name ip, o = NetworkInterface.init name ip)
         (LoadBalancer.interfaces (lb (started selected))).
Proof.
  unfold started, LoadBalancer.discover_interfaces. simpl.
  induction selected as [|[name ip] selected IH]; constructor; eauto.
Qed.

Lemma init_sound (name ip : pystr) : sound (NetworkInterface.init name ip).
Proof. unfold sound. simpl. split; [lia|]. split; [lia|]. by left. Qed.

Lemma mark_interface_failed_dangling (w : World) (r : nat) (error : pystr) :
  LoadBalancer.interfaces (lb w) !! r = None →
  mark_interface_failed clock r error w = (Raise NoSuchObject, w).
Proof.
  intros Hr. unfold mark_interface_failed, bind at 1, with_interface at 1.
  rewrite Hr. done.
Qed.

Lemma counts_kept_bounded (w w' : World) :
  counts_kept w w' →
  bounded (LoadBalancer.consecutive_failures (lb w)) →
  bounded (LoadBalancer.consecutive_failures (lb w')).
Proof.
  intros [-> | ->] H; [done|]. apply map_Forall_empty.
Qed.

Lemma exec_bounded (o : op) (w : World) :
  bounded (LoadBalancer.consecutive_failures (lb w)) →
  bounded (LoadBalancer.consecutive_failures (lb (snd (exec clock o w)))).
Proof.
  intros Hb. destruct o as [|r error|r b t| |r|r| |p data]; cbn [exec].
  - eapply counts_kept_bounded; [|done].
    apply (keeps_bind settled); [apply get_best_interface_settled |].
    intros; apply keeps_ret; apply _.
  - destruct (LoadBalancer.interfaces (lb w) !! r) as [o|] eqn:Ho.
    + destruct (mark_interface_failed_run clock w r o error Ho)
        as (w' & o' & -> & _ & _ & _ & _ & _ & Hcf & _).
      simpl. rewrite Hcf. apply map_Forall_insert_2; [|done].
      unfold incremented.
      destruct (LoadBalancer.consecutive_failures (lb w) !! NetworkInterface.ip o)
        as [n|] eqn:En; simpl.
      * apply Hb in En. simpl in En.
        destruct (Z.leb_spec 3 (n + 1)); lia.
      * lia.
    + rewrite mark_interface_failed_dangling by done. done.
  - rewrite with_interface_counts. done.
  - eapply counts_kept_bounded; [|done]. apply report_stats_settled.
  - eapply counts_kept_bounded; [|done].
    apply with_interface_settled, gentle_mark_request_success.
  - eapply counts_kept_bounded; [|done]. apply release_settled.
  - eapply counts_kept_bounded; [|done].
    apply (keeps_bind settled); [apply time_time_settled |].
    intros; apply keeps_ret; apply _.
  - done.
Qed.

Lemma run_ops_bounded (ops : list op) (w : World) :
  bounded (LoadBalancer.consecutive_failures (lb w)) →
  bounded (LoadBalancer.consecutive_failures (lb (run_ops clock ops w))).
Proof.
  revert w. induction ops as [|o ops IH]; intros w H; [done|].
  apply IH, exec_bounded, H.
Qed.

End Invariants.

(** ** A session is a sequence of operations *)

Section Reach.

Variable clock : nat → Q.

(** [w'] is [w] after some sequence of such operations. *)
Definition reach (w w' : World) : Prop :=
  ∃ ops, Forall of_session ops ∧ w' = run_ops clock ops w.

Definition reach_frame (f f' : Frame) : Prop := reach (world f) (world f').

Lemma run_ops_app (ops ops' : list op) (w : World) :
  run_ops clock (ops ++ ops') w = run_ops clock ops' (run_ops clock ops w).
Proof. unfold run_ops. apply fold_left_app. Qed.

Global Instance reach_preorder : PreOrder reach.
Proof.
  split.
  - intros w. by exists [].
  - intros w1 w2 w3 (ops & H & ->) (ops' & H' & ->). exists (ops ++ ops').
    split; [by apply Forall_app|]. symmetry. apply run_ops_app.
Qed.

Global Instance reach_frame_preorder : PreOrder reach_frame.
Proof.
  split.
  - intros f. unfold reach_frame. reflexivity.
  - intros f1 f2 f3 H1 H2. unfold reach_frame in *. etrans; done.
Qed.

Lemma reach_exec (o : op) (w : World) :
  of_session o → reach w (snd (exec clock o w)).
Proof. intros H. exists [o]. split; [by constructor | done]. Qed.

Lemma get_best_interface_reach : keeps reach (get_best_interface clock).
Proof.
  intros w. pose proof (reach_exec GetBestInterface w I) as H.
  cbn [exec] in H. unfold bind in H.
  destruct (get_best_interface clock w) as [[r|e] w']; exact H.
Qed.

Lemma time_time_reach : keeps reach (time_time clock).
Proof. intros w. exact (reach_exec Time w I). Qed.

Lemma mark_interface_failed_reach r error :
  keeps reach (mark_interface_failed clock r error).
Proof. intros w. exact (reach_exec (MarkInterfaceFailed r error) w I). Qed.

Lemma emit_reach p data : keeps reach (modify (emit p data)).
Proof. intros w. exact (reach_exec (Write p data) w I). Qed.

Lemma forward_from_reach dst chunks stop n :
  keeps reach (forward_from dst chunks stop n).
Proof.
  revert n. induction chunks as [|data chunks IH]; intros n; cbn [forward_from].
  - destruct stop as [|e| |data e|data];
      try destruct e; try destruct data;
      repeat first [ apply keeps_ret; apply _
                   | apply keeps_raise; apply _
                   | apply keeps_bind; [apply _ | apply emit_reach | intros _] ].
  - destruct data; [apply keeps_ret; apply _|].
    apply keeps_bind; [apply _ | apply emit_reach | intros _]. apply IH.
Qed.

Lemma lift_reach {A} (c : St World A) :
  keeps reach c → keeps reach_frame (lift c).
Proof.
  intros H f. unfold lift, reach_frame. specialize (H (world f)).
  destruct (c (world f)) as [r w]. exact H.
Qed.

Lemma frame_only_reach (g : Frame → Frame) :
  (∀ f, world (g f) = world f) → keeps reach_frame (modify g).
Proof. intros H f. unfold reach_frame. simpl. rewrite H. reflexivity. Qed.

Variable int : pystr → result Z.
Variable urlparse : pystr → result ParseResult.
Variable decode : bytes → pystr.
Variable s : Session.
Hypothesis others_background : ∀ p, Forall background (others s p).

Lemma await_reach p : keeps reach_frame (await clock s p).
Proof.
  apply lift_reach. intros w. exists (others s p). split; [|done].
  eapply Forall_impl; [apply others_background|]. by intros o [].
Qed.

Lemma drain_reach p : keeps reach_frame (drain clock s p).
Proof.
  unfold drain. apply keeps_bind; [apply _ | apply await_reach | intros _].
  destruct (drain_raises s); [apply keeps_raise | apply keeps_ret]; apply _.
Qed.

Lemma create_task_reach pump :
  keeps reach pump → keeps reach_frame (create_task pump).
Proof.
  intros H f. unfold create_task, reach_frame. specialize (H (world f)).
  destruct (pump (world f)) as [r w]. exact H.
Qed.

Lemma try_all_reach host port n attempt :
  keeps reach_frame (try_all clock s host port n attempt).
Proof.
  revert attempt. induction n as [|n IH]; intros attempt; cbn [try_all].
  { apply keeps_ret; apply _. }
  apply keeps_bind; [apply _ | apply keeps_get; apply _ | intros f].
  destruct (interface f) as [i|]; [| apply keeps_raise; apply _].
  assert (Hretry : keeps reach_frame
            (lift (mark_interface_failed clock i
                     (str_of_exn (default OSError
                        (open_connection s attempt host port i)))) ;;;
             i' <- lift (get_best_interface clock) ;;
             set_interface i' ;;; try_all clock s host port n (S attempt))).
  { apply keeps_bind; [apply _ | | intros _].
    { apply lift_reach, mark_interface_failed_reach. }
    apply keeps_bind; [apply _ | | intros i'].
    { apply lift_reach, get_best_interface_reach. }
    apply keeps_bind; [apply _ | | intros _]; [|apply IH].
    apply frame_only_reach. done. }
  apply keeps_bind; [apply _ | apply await_reach | intros _].
  destruct (open_connection s attempt host port i) as [e|].
  - destruct e; try exact Hretry. apply keeps_raise; apply _.
  - apply frame_only_reach. done.
Qed.

Lemma session_body_reach start_time :
  keeps reach_frame
    (session_body clock int urlparse decode s start_time 0%Z).
Proof.
  intros f0. unfold session_body.
  pose proof (lift_reach _ get_best_interface_reach f0) as H0.
  destruct (lift (get_best_interface clock) f0) as [[i|e] f]; simpl in H0.
  2:{ assert (Hany : reach_frame f0 (snd (Raise (A := unit) e, f))) by exact H0.
      destruct e; try exact Hany.
      etrans; [exact H0|].
      apply (keeps_bind reach_frame); [| intros _; apply drain_reach].
      apply lift_reach, emit_reach. }
  etrans; [exact H0|]. clear H0 f0. unfold session_selected.
  apply (keeps_bind reach_frame); [apply frame_only_reach; done | intros _].
  apply (keeps_bind reach_frame); [apply await_reach | intros _].
  destruct (head s) as [request_data|e];
    [| destruct e; first [apply keeps_ret; apply _ | apply keeps_raise; apply _]].
  cbv zeta.
  destruct (quick_parse int urlparse (decode request_data))
    as [[[method host] port]|]; [| apply keeps_ret; apply _].
  unfold session_parsed.
  apply keeps_bind; [apply _ | apply lift_reach, keeps_get; apply _ | intros w].
  apply keeps_bind; [apply _ | apply try_all_reach | intros _].
  apply keeps_bind; [apply _ | apply keeps_get; apply _ | intros f1].
  destruct (negb (remote_writer f1)).
  { apply keeps_bind; [apply _ | | intros _; apply drain_reach].
    apply lift_reach, emit_reach. }
  apply keeps_bind; [apply _ | | intros _].
  { apply keeps_try_except; [apply _ | | intros; apply keeps_ret; apply _].
    apply keeps_bind; [apply _ | | intros _].
    { destruct (bool_decide _); apply lift_reach, emit_reach. }
    apply keeps_bind; [apply _ | apply drain_reach | intros _].
    apply keeps_bind; [apply _ | | intros _].
    { apply create_task_reach, forward_from_reach. }
    apply keeps_bind; [apply _ | | intros _; apply await_reach].
    apply create_task_reach, forward_from_reach. }
  apply keeps_bind; [apply _ | apply lift_reach, time_time_reach | intros end_time].
  cbv zeta.
  apply keeps_bind; [apply _ | apply keeps_get; apply _ | intros f2].
  destruct (interface f2) as [i'|]; [| apply keeps_raise; apply _].
  apply keeps_bind; [apply _ | | intros _].
  { apply lift_reach. intros w'.
    exact (reach_exec (UpdateStats i' 0 _) w' eq_refl). }
  apply keeps_bind; [apply _ | | intros _].
  { apply lift_reach. intros w'. exact (reach_exec ReportStats w' I). }
  destruct (remote_writer f2); [| apply keeps_ret; apply _].
  apply lift_reach. intros w'. exact (reach_exec (MarkRequestSuccess i') w' I).
Qed.

Lemma session_except_reach e : keeps reach_frame (session_except clock e).
Proof.
  unfold session_except.
  apply keeps_bind; [apply _ | apply keeps_get; apply _ | intros f].
  destruct (interface f); [| apply keeps_ret; apply _].
  apply lift_reach, mark_interface_failed_reach.
Qed.

Lemma session_finally_reach : keeps reach_frame (session_finally clock s).
Proof.
  unfold session_finally.
  apply keeps_bind; [apply _ | apply keeps_get; apply _ | intros f].
  apply keeps_bind; [apply _ | | intros _; apply await_reach].
  destruct (interface f) as [i|]; [| apply keeps_ret; apply _].
  apply lift_reach. intros w'. exact (reach_exec (Release i) w' I).
Qed.

(** Whatever a session does to the shared state, a sequence of operations
    does. *)
Lemma handle_client_reach :
  keeps reach (handle_client clock int urlparse decode s).
Proof.
  unfold handle_client.
  apply keeps_bind; [apply _ | apply time_time_reach | intros start_time].
  cbv zeta. intros w.
  pose proof (keeps_try_finally reach_frame _ _
                (keeps_try_except reach_frame _ _
                   (session_body_reach start_time) session_except_reach)
                session_finally_reach (mkFrame w None false)) as H.
  destruct (try_finally _ _ _) as [r f]. exact H.
Qed.

End Reach.

(** ** The invariants of the specification *)

Section SpecInvariants.

Variable clock : nat → Q.

(** C8.  A record as [__init__] builds it satisfies the three invariants
    (the two counters add up to at most [total_requests],
    [active_connections] is not negative, the status is one of ACTIVE,
    DEGRADED, FAILED); every sequence of operations, and every session
    with whatever other sessions do at its [await]s, takes a state in which
    all records satisfy them to one in which all do; and [update_stats]
    adds one to [total_requests] only, while [mark_request_success] and
    [mark_request_failed] add one to [total_requests] and to their own
    counter. *)
Theorem interface_invariants :
  (∀ name ip, sound (NetworkInterface.init name ip))
  ∧ (∀ selected ops,
       Forall sound
         (LoadBalancer.interfaces (lb (run_ops clock ops (started selected)))))
  ∧ (∀ w ops,
       Forall sound (LoadBalancer.interfaces (lb w)) →
       Forall sound (LoadBalancer.interfaces (lb (run_ops clock ops w))))
  ∧ (∀ int urlparse decode s w,
       (∀ p, Forall background (others s p)) →
       Forall sound (LoadBalancer.interfaces (lb w)) →
       Forall sound
         (LoadBalancer.interfaces
            (lb (snd (handle_client clock int urlparse decode s w)))))
  ∧ (∀ o b t,
       let o' := snd (NetworkInterface.update_stats b t o) in
       NetworkInterface.total_requests o'
       = (NetworkInterface.total_requests o + 1)%Z
       ∧ NetworkInterface.successful_requests o'
         = NetworkInterface.successful_requests o
       ∧ NetworkInterface.failed_requests o'
         = NetworkInterface.failed_requests o)
  ∧ (∀ o,
       let o' := snd (NetworkInterface.mark_request_success o) in
       NetworkInterface.total_requests o'
       = (NetworkInterface.total_requests o + 1)%Z
       ∧ NetworkInterface.successful_requests o'
         = (NetworkInterface.successful_requests o + 1)%Z
       ∧ NetworkInterface.failed_requests o'
         = NetworkInterface.failed_requests o)
  ∧ (∀ o,
       let o' := snd (NetworkInterface.mark_request_failed o) in
       NetworkInterface.total_requests o'
       = (NetworkInterface.total_requests o + 1)%Z
       ∧ NetworkInterface.successful_requests o'
         = NetworkInterface.successful_requests o
       ∧ NetworkInterface.failed_requests o'
         = (NetworkInterface.failed_requests o + 1)%Z).
Proof.
  split; [apply init_sound|]. split.
  { intros selected ops. apply run_ops_sound.
    eapply Forall_impl; [apply started_fresh|].
    intros o (name & ip & ->). apply init_sound. }
  split; [intros w ops; apply run_ops_sound|]. split.
  { intros int urlparse decode s w Hs H.
    destruct (handle_client_reach clock int urlparse decode s Hs w)
      as (ops & _ & ->).
    apply run_ops_sound, H. }
  split.
  { intros o b t.
    unfold NetworkInterface.update_stats, bind, modify, get.
    cbn -[Z.add Z.eqb].
    destruct (NetworkInterface.total_requests o + 1 =? 0)%Z; done. }
  split; intros o; done.
Qed.

(** C9.  [__init__] sets [active_connections] to 0, every operation leaves
    it 0 in every record in which it is 0, and so it is 0 in every record
    after every sequence of operations from start-up, and after every
    session run from such a state. *)
Theorem active_connections_zero :
  (∀ name ip, idle (NetworkInterface.init name ip))
  ∧ (∀ o w,
       Forall idle (LoadBalancer.interfaces (lb w)) →
       Forall idle (LoadBalancer.interfaces (lb (snd (exec clock o w)))))
  ∧ (∀ selected ops,
       Forall idle
         (LoadBalancer.interfaces (lb (run_ops clock ops (started selected)))))
  ∧ (∀ int urlparse decode s selected ops,
       (∀ p, Forall background (others s p)) →
       Forall idle
         (LoadBalancer.interfaces
            (lb (snd (handle_client clock int urlparse decode s
                        (run_ops clock ops (started selected))))))).
Proof.
  assert (Hstart : ∀ selected ops,
            Forall idle (LoadBalancer.interfaces
                           (lb (run_ops clock ops (started selected))))).
  { intros selected ops. apply run_ops_idle.
    eapply Forall_impl; [apply started_fresh|].
    intros o (name & ip & ->). done. }
  split; [done|]. split; [apply exec_idle|]. split; [exact Hstart|].
  intros int urlparse decode s selected ops Hs.
  destruct (handle_client_reach clock int urlparse decode s Hs
              (run_ops clock ops (started selected))) as (ops' & _ & ->).
  rewrite <- run_ops_app. apply Hstart.
Qed.

(** C10.  Every entry of [consecutive_failures] is between 0 and 2 after
    every sequence of operations from start-up; whenever that holds before
    a call of [mark_interface_failed], or before a session, it holds after
    it; and the panic reset leaves the map empty. *)
Theorem consecutive_failures_bounded :
  (∀ selected ops,
     bounded (LoadBalancer.consecutive_failures
                (lb (run_ops clock ops (started selected)))))
  ∧ (∀ w r error,
       bounded (LoadBalancer.consecutive_failures (lb w)) →
       bounded (LoadBalancer.consecutive_failures
                  (lb (snd (mark_interface_failed clock r error w)))))
  ∧ (∀ int urlparse decode s w,
       (∀ p, Forall background (others s p)) →
       bounded (LoadBalancer.consecutive_failures (lb w)) →
       bounded (LoadBalancer.consecutive_failures
                  (lb (snd (handle_client clock int urlparse decode s w)))))
  ∧ (∀ w,
       counts_kept w (snd (get_best_interface clock w))).
Proof.
  split; [|split; [|split]].
  - intros selected ops. apply run_ops_bounded. apply map_Forall_empty.
  - intros w r error. apply (exec_bounded clock (MarkInterfaceFailed r error)).
  - intros int urlparse decode s w Hs H.
    destruct (handle_client_reach clock int urlparse decode s Hs w)
      as (ops & _ & ->).
    apply run_ops_bounded, H.
  - intros w. apply get_best_interface_settled.
Qed.

End SpecInvariants.

(** ** Selection returns whenever there is a candidate *)

Lemma valid_from_fmap (k : nat) (l l' : list NetworkInterface.t) :
  NetworkInterface.ip <$> l = NetworkInterface.ip <$> l' →
  valid_from k l = valid_from k l'.
Proof.
  revert k l'. induction l as [|o l IH]; intros k [|o' l'] E; try done.
  injection E as Eo El. cbn [valid_from]. rewrite Eo, (IH (S k) l' El). done.
Qed.

Lemma calm_valid (w w' : World) :
  calm w w' → valid_interfaces (lb w') = valid_interfaces (lb w).
Proof. intros H. apply valid_from_fmap, H. Qed.

Lemma calm_length (w w' : World) :
  calm w w' →
  length (LoadBalancer.interfaces (lb w')) = length (LoadBalancer.interfaces (lb w)).
Proof.
  intros H. rewrite <- (length_fmap NetworkInterface.ip), (calm_ip _ _ H).
  apply length_fmap.
Qed.

Section Selection.

Variable clock : nat → Q.

Lemma is_interface_failed_returns (w : World) (r : nat) :
  r < length (LoadBalancer.interfaces (lb w)) →
  ∃ b w', is_interface_failed clock r w = (Ok b, w').
Proof.
  intros Hr. destruct (lookup_lt_is_Some_2 _ _ Hr) as [o Ho].
  destruct (LoadBalancer.failed_interfaces (lb w) !! NetworkInterface.ip o)
    as [since|] eqn:Hf.
  - destruct (Qlt_le_dec LoadBalancer.failure_timeout (clock (ticks w) - since)).
    + erewrite is_interface_failed_stale by done. eauto.
    + erewrite is_interface_failed_fresh by done. eauto.
  - erewrite is_interface_failed_absent by done. eauto.
Qed.

Lemma round_robin_returns (valid : list nat) (n : nat) : ∀ w,
  valid ≠ [] →
  (∀ i, i ∈ valid → i < length (LoadBalancer.interfaces (lb w))) →
  ∃ found w',
    round_robin clock valid n w = (Ok found, w')
    ∧ ∀ r, found = Some r → r ∈ valid.
Proof.
  induction n as [|n IH]; intros w Hne Hlive.
  { exists None, w. done. }
  destruct (cursor_lookup valid (LoadBalancer.current_interface_index (lb w)) Hne)
    as [i Hi].
  assert (Hin : i ∈ valid) by (eapply list_elem_of_lookup_2; done).
  rewrite (round_robin_step clock _ _ _ _ Hi).
  set (w1 := moved _ 0 w).
  destruct (is_interface_failed_returns w1 i (Hlive i Hin)) as (b & w2 & Hb).
  pose proof (is_interface_failed_settled clock i w1) as [Hcalm _].
  rewrite Hb in Hcalm. simpl in Hcalm.
  unfold bind at 1. rewrite Hb. destruct b.
  - apply IH; [done|]. intros j Hj.
    rewrite (calm_length _ _ Hcalm). apply (Hlive j Hj).
  - exists (Some i), w2. split; [done|]. by intros r [= <-].
Qed.

Lemma get_best_interface_returns (w : World) :
  valid_interfaces (lb w) ≠ [] →
  ∃ r w',
    get_best_interface clock w = (Ok r, w')
    ∧ r ∈ valid_interfaces (lb w).
Proof.
  intros Hne.
  unfold get_best_interface, bind at 1, get at 1. cbn beta iota.
  destruct (LoadBalancer.interfaces (lb w)) as [|o0 rest] eqn:Ei.
  { exfalso. apply Hne. unfold valid_interfaces. rewrite Ei. done. }
  destruct (valid_interfaces (lb w)) as [|v vs] eqn:Ev; [done|].
  destruct (round_robin_returns (v :: vs) (length (v :: vs)) w Hne)
    as (found & w' & Hrun & Hfound).
  { intros i Hi. rewrite <- Ev in Hi. apply valid_interfaces_elem in Hi.
    destruct Hi as (o & Ho & _). apply lookup_lt_Some in Ho. done. }
  unfold bind at 1. rewrite Hrun. destruct found as [r|].
  - exists r, w'. split; [done|]. apply Hfound. done.
  - eexists v, _. split; [reflexivity|]. apply elem_of_cons. by left.
Qed.

Lemma get_best_interface_raises (w : World) :
  valid_interfaces (lb w) = [] →
  ∃ msg, get_best_interface clock w = (Raise (RuntimeError msg), w).
Proof.
  intros Hv. unfold get_best_interface, bind, get. cbn beta iota.
  destruct (LoadBalancer.interfaces (lb w)); [eauto|].
  rewrite Hv. eauto.
Qed.

End Selection.

(** ** What a failing session writes *)

Definition calm_frame (f f' : Frame) : Prop := calm (world f) (world f').

Global Instance calm_frame_preorder : PreOrder calm_frame.
Proof.
  split.
  - intros f. unfold calm_frame. reflexivity.
  - intros f1 f2 f3 H1 H2. unfold calm_frame in *. etrans; done.
Qed.

Lemma lift_calm {A} (c : St World A) :
  keeps calm c → keeps calm_frame (lift c).
Proof.
  intros H f. unfold lift, calm_frame. specialize (H (world f)).
  destruct (c (world f)) as [r w]. exact H.
Qed.

Section Responses.

Variable clock : nat → Q.
Variable int : pystr → result Z.
Variable urlparse : pystr → result ParseResult.
Variable decode : bytes → pystr.
Variable s : Session.
Hypothesis others_background : ∀ p, Forall background (others s p).

(** The state in which the session goes on after an [await]. *)
Definition resumed (p : await_point) (f : Frame) : Frame :=
  mkFrame (run_ops clock (others s p) (world f)) (interface f) (remote_writer f).

Lemma await_run p f : await clock s p f = (Ok tt, resumed p f).
Proof. done. Qed.

Lemma resumed_calm p f : calm (world f) (world (resumed p f)).
Proof. apply run_ops_calm, others_background. Qed.

Lemma await_calm p : keeps calm_frame (await clock s p).
Proof. intros f. rewrite await_run. apply resumed_calm. Qed.

Lemma drain_calm p : keeps calm_frame (drain clock s p).
Proof.
  unfold drain. apply keeps_bind; [apply _ | apply await_calm | intros _].
  destruct (drain_raises s); [apply keeps_raise | apply keeps_ret]; apply _.
Qed.

Lemma session_except_calm e : keeps calm_frame (session_except clock e).
Proof.
  unfold session_except.
  apply keeps_bind; [apply _ | apply keeps_get; apply _ | intros f].
  destruct (interface f); [| apply keeps_ret; apply _].
  apply lift_calm, mark_interface_failed_calm.
Qed.

Lemma session_finally_calm : keeps calm_frame (session_finally clock s).
Proof.
  unfold session_finally.
  apply keeps_bind; [apply _ | apply keeps_get; apply _ | intros f].
  apply keeps_bind; [apply _ | | intros _; apply await_calm].
  destruct (interface f) as [i|]; [| apply keeps_ret; apply _].
  apply lift_calm, settled_calm, release_settled.
Qed.

(** The [except] and [finally] blocks write nothing: what the session has
    written is what its body has. *)
Lemma handle_client_sent (w : World) (out : list (peer * bytes)) :
  sent (world (snd (session_body clock int urlparse decode s
                      (clock (ticks w)) 0%Z (mkFrame (tick w) None false))))
  = out →
  sent (snd (handle_client clock int urlparse decode s w)) = out.
Proof.
  intros Hbody. unfold handle_client, bind at 1, time_time at 1.
  cbn beta iota zeta.
  set (body := session_body _ _ _ _ _ _ _) in *.
  set (f0 := mkFrame (tick w) None false) in *.
  pose proof (session_finally_calm) as Hfin.
  unfold try_finally, try_except.
  destruct (body f0) as [r f1]. simpl in Hbody.
  assert (Hexc : ∀ e, sent (world (snd (session_except clock e f1))) = out).
  { intros e. rewrite <- Hbody. apply (session_except_calm e f1). }
  assert (Hdone : ∀ (r' : result unit) f2, sent (world f2) = out →
            sent (world (snd (match session_finally clock s f2 with
                              | (Ok _, f3) => (r', f3)
                              | (Raise e, f3) => (Raise e, f3)
                              end))) = out).
  { intros r' f2 H2. specialize (Hfin f2).
    destruct (session_finally clock s f2) as [[[]|e] f3]; simpl in *;
      rewrite <- H2; apply Hfin. }
  destruct r as [[]|e].
  - specialize (Hdone (Ok tt) f1 Hbody).
    destruct (session_finally clock s f1) as [[[]|e] f3]; exact Hdone.
  - destruct e;
      match goal with
      | |- context [session_except clock ?e f1] =>
          specialize (Hexc e);
          destruct (session_except clock e f1) as [r2 f2];
          specialize (Hdone r2 f2 Hexc);
          destruct (session_finally clock s f2) as [[[]|e'] f3]; exact Hdone
      | |- _ =>
          specialize (Hdone (Raise CancelledError) f1 Hbody);
          destruct (session_finally clock s f1) as [[[]|e'] f3]; exact Hdone
      end.
Qed.

(** A response: one write to the client, then [drain]. *)
Lemma respond_sent (response : bytes) (p : await_point) (f : Frame) :
  sent (world (snd ((lift (modify (emit Client response)) ;;; drain clock s p) f)))
  = sent (world f) ++ [(Client, response)].
Proof.
  unfold bind at 1, lift at 1, modify at 1. cbn beta iota.
  rewrite (calm_sent _ _ (drain_calm p _)). done.
Qed.

(** An attempt that fails marks the interface and asks for the next. *)
Lemma try_all_retry host port n attempt f i e :
  interface f = Some i →
  open_connection s attempt host port i = Some e →
  e ≠ CancelledError →
  try_all clock s host port (S n) attempt f =
    (lift (mark_interface_failed clock i (str_of_exn e)) ;;;
     i' <- lift (get_best_interface clock) ;;
     set_interface i' ;;; try_all clock s host port n (S attempt))
      (resumed (AwaitConnect attempt) f).
Proof.
  intros Hi Ho He. cbn [try_all]. unfold bind at 1, get at 1.
  cbn beta iota. rewrite Hi. unfold bind at 1. rewrite await_run.
  cbn beta iota. rewrite Ho. destruct e; done.
Qed.

Lemma try_all_exhausted host port n : ∀ attempt f i,
  interface f = Some i →
  i ∈ valid_interfaces (lb (world f)) →
  (∀ k j, attempt ≤ k < attempt + n →
     ∃ e, open_connection s k host port j = Some e ∧ e ≠ CancelledError) →
  ∃ f',
    try_all clock s host port n attempt f = (Ok tt, f')
    ∧ remote_writer f' = remote_writer f
    ∧ calm (world f) (world f').
Proof.
  induction n as [|n IH]; intros attempt f i Hi Hin Hfail.
  { exists f. split; [done|]. split; [done|]. reflexivity. }
  destruct (Hfail attempt i ltac:(lia)) as (e & He & Hne).
  rewrite (try_all_retry _ _ _ _ _ _ _ Hi He Hne).
  pose proof (resumed_calm (AwaitConnect attempt) f) as Hc0.
  set (f0 := resumed (AwaitConnect attempt) f) in *.
  assert (Hin0 : i ∈ valid_interfaces (lb (world f0)))
    by (rewrite (calm_valid _ _ Hc0); done).
  pose proof Hin0 as Hlive. apply valid_interfaces_elem in Hlive as (o & Ho & _).
  destruct (mark_interface_failed_run clock (world f0) i o (str_of_exn e) Ho)
    as (w1 & _ & Hmark & _).
  pose proof (mark_interface_failed_calm clock i (str_of_exn e) (world f0)) as Hc1.
  rewrite Hmark in Hc1. cbn [snd] in Hc1.
  unfold bind at 1, lift at 1. rewrite Hmark. cbn beta iota.
  assert (Hne1 : valid_interfaces (lb w1) ≠ []).
  { rewrite (calm_valid _ _ Hc1). intros E. rewrite E in Hin0.
    by apply not_elem_of_nil in Hin0. }
  destruct (get_best_interface_returns clock w1 Hne1) as (i' & w2 & Hsel & Hin').
  pose proof (get_best_interface_settled clock w1) as [Hc2 _].
  rewrite Hsel in Hc2. cbn [snd] in Hc2.
  unfold bind at 1, lift at 1. cbn [world]. rewrite Hsel. cbn beta iota.
  unfold bind at 1, set_interface at 1, modify at 1. cbn beta iota.
  cbn [world interface remote_writer].
  destruct (IH (S attempt) (mkFrame w2 (Some i') (remote_writer f0)) i')
    as (f' & Hrun & Hrw & Hc3).
  - done.
  - simpl. rewrite (calm_valid _ _ Hc2). done.
  - intros k j Hk. apply Hfail. lia.
  - exists f'. split; [exact Hrun|]. split; [done|].
    simpl in Hc3. etrans; [exact Hc0|]. etrans; [exact Hc1|].
    etrans; [exact Hc2 | exact Hc3].
Qed.

(** The body up to the point where an interface has been picked. *)
Lemma session_body_picked t w0 :
  valid_interfaces (lb w0) ≠ [] →
  ∃ i w1,
    get_best_interface clock w0 = (Ok i, w1)
    ∧ i ∈ valid_interfaces (lb w1)
    ∧ sent w1 = sent w0
    ∧ length (LoadBalancer.interfaces (lb w1))
      = length (LoadBalancer.interfaces (lb w0))
    ∧ session_body clock int urlparse decode s t 0%Z (mkFrame w0 None false)
      = session_selected clock int urlparse decode s t 0%Z i
          (mkFrame w1 None false).
Proof.
  intros Hne.
  destruct (get_best_interface_returns clock w0 Hne) as (i & w1 & Hsel & Hin).
  pose proof (get_best_interface_settled clock w0) as [Hc _].
  rewrite Hsel in Hc. simpl in Hc.
  exists i, w1. split; [done|]. split; [by rewrite (calm_valid _ _ Hc)|].
  split; [apply Hc|]. split; [by apply calm_length|].
  unfold session_body, lift. cbn [world]. rewrite Hsel. done.
Qed.

(** The session from the read of the request head on. *)
Lemma session_selected_head t i w1 :
  session_selected clock int urlparse decode s t 0%Z i (mkFrame w1 None false)
  = match head s with
    | HeadRaised TimeoutError => ret tt
    | HeadRaised e => raise e
    | HeadData request_data =>
        match quick_parse int urlparse (decode request_data) with
        | None => ret tt
        | Some (method, host, port) =>
            session_parsed clock s t 0%Z request_data method host port
        end
    end (resumed AwaitHead (mkFrame w1 (Some i) false)).
Proof. done. Qed.

(** The session when every connect attempt fails. *)
Lemma session_parsed_exhausted t request_data method host port f i :
  interface f = Some i →
  remote_writer f = false →
  i ∈ valid_interfaces (lb (world f)) →
  (∀ attempt j,
     attempt < length (LoadBalancer.interfaces (lb (world f))) →
     ∃ e, open_connection s attempt host port j = Some e ∧ e ≠ CancelledError) →
  sent (world (snd (session_parsed clock s t 0%Z request_data method host port f)))
  = sent (world f) ++ [(Client, response_502)].
Proof.
  intros Hi Hrw0 Hin Hfail. unfold session_parsed.
  unfold bind at 1, lift at 1, get at 1. cbn beta iota.
  destruct (try_all_exhausted host port
              (length (LoadBalancer.interfaces (lb (world f)))) 0 f i Hi Hin)
    as (f' & Hrun & Hrw & Hcalm).
  { intros k j Hk. apply Hfail. lia. }
  replace (mkFrame (world f) (interface f) (remote_writer f)) with f
    by (destruct f; done).
  unfold bind at 1. rewrite Hrun. cbn beta iota.
  unfold bind at 1, get at 1. cbn beta iota. rewrite Hrw, Hrw0. cbn [negb].
  rewrite respond_sent, (calm_sent _ _ Hcalm). done.
Qed.

End Responses.

Section SessionResponses.

Variable clock : nat → Q.
Variable int : pystr → result Z.
Variable urlparse : pystr → result ParseResult.
Variable decode : bytes → pystr.

(** C5.  What a session adds to what has been written, whatever the other
    sessions do while it awaits: exactly the 503 response to the client
    when there is no candidate interface (which is when selection fails);
    nothing when the read of the request head times out, and nothing when
    the head does not parse; exactly the 502 response to the client when
    every one of the [len(interfaces)] connect attempts fails. *)
Theorem session_responses (s : Session) (w : World) :
  (∀ p, Forall background (others s p)) →
  let out := sent (snd (handle_client clock int urlparse decode s w)) in
  (valid_interfaces (lb w) = [] →
   (∃ msg, fst (get_best_interface clock (tick w)) = Raise (RuntimeError msg))
   ∧ out = sent w ++ [(Client, response_503)])
  ∧ (valid_interfaces (lb w) ≠ [] →
     (∃ i, fst (get_best_interface clock (tick w)) = Ok i)
     ∧ (head s = HeadTimeout → out = sent w)
     ∧ (∀ request_data,
          head s = HeadData request_data →
          quick_parse int urlparse (decode request_data) = None →
          out = sent w)
     ∧ (∀ request_data method host port,
          head s = HeadData request_data →
          quick_parse int urlparse (decode request_data)
          = Some (method, host, port) →
          (∀ attempt i,
             attempt < length (LoadBalancer.interfaces (lb w)) →
             ∃ e, open_connection s attempt host port i = Some e
                  ∧ e ≠ CancelledError) →
          out = sent w ++ [(Client, response_502)])).
Proof.
  intros Hs out. subst out. split.
  - intros Hv.
    destruct (get_best_interface_raises clock (tick w) Hv) as [msg Hsel].
    split; [exists msg; rewrite Hsel; done|].
    apply (handle_client_sent _ _ _ _ _ Hs).
    unfold session_body, lift at 1. cbn [world]. rewrite Hsel. cbn beta iota.
    rewrite (respond_sent _ s Hs). done.
  - intros Hne.
    destruct (session_body_picked clock int urlparse decode s
                (clock (ticks w)) (tick w) Hne)
      as (i & w1 & Hsel & Hin & Hsent & Hlen & Hbody).
    split; [exists i; rewrite Hsel; done|].
    pose proof (resumed_calm clock s Hs AwaitHead (mkFrame w1 (Some i) false))
      as Hc0.
    set (f0 := resumed clock s AwaitHead (mkFrame w1 (Some i) false)) in *.
    split; [|split].
    + intros Hhead. apply (handle_client_sent _ _ _ _ _ Hs).
      rewrite Hbody, session_selected_head, Hhead. fold f0.
      change (sent (world f0) = sent w).
      rewrite (calm_sent _ _ Hc0). cbn [world]. rewrite Hsent. done.
    + intros request_data Hhead Hparse. apply (handle_client_sent _ _ _ _ _ Hs).
      rewrite Hbody, session_selected_head, Hhead, Hparse. fold f0.
      change (sent (world f0) = sent w).
      rewrite (calm_sent _ _ Hc0). cbn [world]. rewrite Hsent. done.
    + intros request_data method host port Hhead Hparse Hfail.
      apply (handle_client_sent _ _ _ _ _ Hs).
      rewrite Hbody, session_selected_head, Hhead, Hparse. fold f0.
      rewrite (session_parsed_exhausted clock s Hs _ _ _ _ _ f0 i eq_refl eq_refl).
      * rewrite (calm_sent _ _ Hc0). cbn [world]. rewrite Hsent. done.
      * rewrite (calm_valid _ _ Hc0). done.
      * intros attempt j Hk. apply Hfail.
        rewrite (calm_length _ _ Hc0) in Hk. cbn [world] in Hk.
        rewrite Hlen in Hk. exact Hk.
Qed.

End SessionResponses.

(** ** Byte accounting *)

(** A pump that reads [chunks] and then end-of-file writes them in order and
    returns their total length. *)
Lemma forward_from_total (dst : peer) (chunks : list bytes) : ∀ n w,
  Forall (λ data, data ≠ []) chunks →
  forward_from dst chunks Eof n w =
    (Ok (n + Z.of_nat (length (concat chunks)))%Z,
     mkWorld (lb w) (ticks w) (sent w ++ map (λ data, (dst, data)) chunks)).
Proof.
  induction chunks as [|data chunks IH]; intros n w Hne.
  - simpl. unfold ret. rewrite Z.add_0_r, app_nil_r. destruct w; done.
  - inversion Hne as [|? ? Hd Hc]; subst. cbn [forward_from].
    destruct data as [|b data]; [done|].
    unfold bind, modify. rewrite IH by done. f_equal.
    + f_equal. cbn [concat]. rewrite length_app. lia.
    + unfold emit. cbn [lb ticks sent map]. rewrite <- app_assoc. done.
Qed.

Lemma forward_total (dst : peer) (chunks : list bytes) (w : World) :
  Forall (λ data, data ≠ []) chunks →
  forward dst chunks Eof w =
    (Ok (Z.of_nat (length (concat chunks))),
     mkWorld (lb w) (ticks w) (sent w ++ map (λ data, (dst, data)) chunks)).
Proof. intros H. unfold forward. rewrite forward_from_total by done. done. Qed.

Lemma run_ops_bytes (clock : nat → Q) (ops : list op) : ∀ w,
  Forall of_session ops →
  NetworkInterface.bytes_sent <$> LoadBalancer.interfaces (lb (run_ops clock ops w))
  = NetworkInterface.bytes_sent <$> LoadBalancer.interfaces (lb w).
Proof.
  induction ops as [|o ops IH]; intros w H; [done|].
  inversion H as [|? ? Ho Hops]; subst. cbn [run_ops fold_left].
  etrans; [apply IH, Hops|]. apply exec_bytes.
  intros i b t ->. exact Ho.
Qed.

(** No session changes the [bytes_sent] of any interface. *)
Lemma handle_client_bytes clock int urlparse decode s w :
  (∀ p, Forall background (others s p)) →
  NetworkInterface.bytes_sent
    <$> LoadBalancer.interfaces
          (lb (snd (handle_client clock int urlparse decode s w)))
  = NetworkInterface.bytes_sent <$> LoadBalancer.interfaces (lb w).
Proof.
  intros Hs.
  destruct (handle_client_reach clock int urlparse decode s Hs w)
    as (ops & Hops & ->).
  apply run_ops_bytes, Hops.
Qed.

(** [bytes.decode] on ASCII input. *)
Definition decode_ascii (data : bytes) : pystr :=
  map (λ b, N.of_nat (Byte.to_nat b)) data.

(** A CONNECT session in which the first connect attempt succeeds, the
    client sends 5 bytes and the origin 7, and both sides then close. *)
Definition tunnel : Session := {|
  others := λ _, [];
  head := HeadData (blit "CONNECT example.com:443 HTTP/1.1"
                    ++ [Byte.x0d; Byte.x0a; Byte.x0d; Byte.x0a]);
  open_connection := λ _ _ _ _, None;
  drain_raises := None;
  client_chunks := [blit "hello"];
  client_stop := Eof;
  remote_chunks := [blit "worldly"];
  remote_stop := Eof
|}.

(** C6 on the code.  In the session [tunnel] the two pumps return 5 and 7
    and their 12 bytes are written, but [update_stats] receives 0:
    [bytes_sent] of the interface that carried the session is 0 after it,
    while its [total_requests] shows that [update_stats] and
    [mark_request_success] have run.  And so it is with every session,
    whatever the other sessions do while it awaits: none changes the
    [bytes_sent] of any interface. *)
Theorem bytes_transferred_stays_zero :
  let clock := λ _ : nat, 0%Q in
  let w' := snd (handle_client clock int_sample urlparse_sample decode_ascii
                   tunnel two_nics) in
  fst (forward Remote (client_chunks tunnel) (client_stop tunnel) two_nics)
  = Ok 5%Z
  ∧ fst (forward Client (remote_chunks tunnel) (remote_stop tunnel) two_nics)
    = Ok 7%Z
  ∧ sent w' = [(Client, response_200); (Remote, blit "hello");
               (Client, blit "worldly")]
  ∧ NetworkInterface.bytes_sent <$> LoadBalancer.interfaces (lb w')
    = [0%Z; 0%Z]
  ∧ NetworkInterface.total_requests <$> LoadBalancer.interfaces (lb w')
    = [2%Z; 0%Z]
  ∧ NetworkInterface.successful_requests <$> LoadBalancer.interfaces (lb w')
    = [1%Z; 0%Z]
  ∧ ∀ clock int urlparse decode s w,
      (∀ p, Forall background (others s p)) →
      NetworkInterface.bytes_sent
        <$> LoadBalancer.interfaces
              (lb (snd (handle_client clock int urlparse decode s w)))
      = NetworkInterface.bytes_sent <$> LoadBalancer.interfaces (lb w).
Proof.
  repeat (split; [vm_compute; reflexivity|]).
  apply handle_client_bytes.
Qed.

(** ** The theorems on concrete sessions *)

(** Scenario 6 of the specification: the only interface is link-local. *)
Definition link_local_only : World :=
  started [(str "eth0", str "169.254.1.2")].

(** A CONNECT session in which every connect attempt is refused, and during
    whose first attempt another session fails on the second interface and
    picks its next one. *)
Definition refused : Session := {|
  others := λ p, match p with
                 | AwaitConnect 0 => [MarkInterfaceFailed 1 []; GetBestInterface]
                 | _ => []
                 end;
  head := HeadData (blit "CONNECT example.com:443 HTTP/1.1"
                    ++ [Byte.x0d; Byte.x0a; Byte.x0d; Byte.x0a]);
  open_connection := λ _ _ _ _, Some ConnectionResetError;
  drain_raises := None;
  client_chunks := [];
  client_stop := Eof;
  remote_chunks := [];
  remote_stop := Eof
|}.

(** A client that connects and sends nothing for 5 s. *)
Definition silent : Session := {|
  others := λ _, [];
  head := HeadTimeout;
  open_connection := λ _ _ _ _, None;
  drain_raises := None;
  client_chunks := [];
  client_stop := Eof;
  remote_chunks := [];
  remote_stop := Eof
|}.

(** A client whose first line has two fields only. *)
Definition malformed : Session := {|
  others := λ _, [];
  head := HeadData (blit "GET /" ++ [Byte.x0d; Byte.x0a; Byte.x0d; Byte.x0a]);
  open_connection := λ _ _ _ _, None;
  drain_raises := None;
  client_chunks := [];
  client_stop := Eof;
  remote_chunks := [];
  remote_stop := Eof
|}.

Lemma refused_background p : Forall background (others refused p).
Proof.
  destruct p as [| |[|k]| | | |]; simpl; repeat constructor; discriminate.
Defined.

Lemma session_responses_witness :
  let run s w :=
    sent (snd (handle_client (λ _, 0%Q) int_sample urlparse_sample
                 decode_ascii s w)) in
  run refused link_local_only = [(Client, response_503)]
  ∧ run silent two_nics = []
  ∧ run malformed two_nics = []
  ∧ run refused two_nics = [(Client, response_502)].
Proof.
  intros run. split; [|split; [|split]].
  - apply (proj1 (session_responses (λ _, 0%Q) int_sample urlparse_sample
                    decode_ascii refused link_local_only refused_background)).
    reflexivity.
  - destruct (proj2 (session_responses (λ _, 0%Q) int_sample urlparse_sample
                       decode_ascii silent two_nics (λ _, List.Forall_nil background))
                ltac:(discriminate))
      as (_ & Htimeout & _ & _).
    apply Htimeout. reflexivity.
  - destruct (proj2 (session_responses (λ _, 0%Q) int_sample urlparse_sample
                       decode_ascii malformed two_nics (λ _, List.Forall_nil background))
                ltac:(discriminate))
      as (_ & _ & Hparse & _).
    apply (Hparse (blit "GET /" ++ [Byte.x0d; Byte.x0a; Byte.x0d; Byte.x0a]));
      reflexivity.
  - destruct (proj2 (session_responses (λ _, 0%Q) int_sample urlparse_sample
                       decode_ascii refused two_nics refused_background)
                ltac:(discriminate))
      as (_ & _ & _ & Hfail).
    apply (Hfail (blit "CONNECT example.com:443 HTTP/1.1"
                  ++ [Byte.x0d; Byte.x0a; Byte.x0d; Byte.x0a])
                 (str "CONNECT") (str "example.com") 443%Z).
    + reflexivity.
    + reflexivity.
    + intros attempt i _. exists ConnectionResetError.
      split; [reflexivity | discriminate].
Defined.

Lemma eth0_sound : sound eth0.
Proof.
  split; [vm_compute; discriminate|].
  split; [vm_compute; discriminate | left; reflexivity].
Defined.

Lemma wlan0_sound : sound wlan0.
Proof.
  split; [vm_compute; discriminate|].
  split; [vm_compute; discriminate | left; reflexivity].
Defined.

Lemma interface_invariants_witness :
  Forall sound
    (LoadBalancer.interfaces
       (lb (run_ops (λ _, 0%Q)
              [GetBestInterface; MarkInterfaceFailed 0 []; UpdateStats 1 0 1;
               MarkRequestSuccess 1; Release 1; Release 0]
              two_nics)))
  ∧ Forall sound
      (LoadBalancer.interfaces
         (lb (snd (handle_client (λ _, 0%Q) int_sample urlparse_sample
                     decode_ascii tunnel two_nics)))).
Proof.
  assert (H : Forall sound (LoadBalancer.interfaces (lb two_nics))).
  { constructor; [exact eth0_sound|]. constructor; [exact wlan0_sound|].
    constructor. }
  split.
  - apply (proj1 (proj2 (proj2 (interface_invariants (λ _, 0%Q))))). exact H.
  - apply (proj1 (proj2 (proj2 (proj2 (interface_invariants (λ _, 0%Q)))))).
    + intros p. constructor.
    + exact H.
Defined.

Lemma active_connections_zero_witness :
  Forall idle
    (LoadBalancer.interfaces
       (lb (snd (exec (λ _, 0%Q) (Release 0) two_nics)))).
Proof.
  apply (proj1 (proj2 (active_connections_zero (λ _, 0%Q)))).
  constructor; [reflexivity|]. constructor; [reflexivity|]. constructor.
Defined.

Lemma consecutive_failures_bounded_witness :
  bounded
    (LoadBalancer.consecutive_failures
       (lb (snd (mark_interface_failed (λ _, 0%Q) 0 [] two_nics)))).
Proof.
  apply (proj1 (proj2 (consecutive_failures_bounded (λ _, 0%Q)))).
  apply map_Forall_empty.
Defined.

(** * Further properties *)

(** ** What selection returns and what it changes *)

Section SelectionOutcome.

Variable clock : nat → Q.

(** The cursor of [w] is a position of a list of length [K]. *)
Definition cursor_within (K : nat) (w : World) : Prop :=
  (0 ≤ LoadBalancer.current_interface_index (lb w) < Z.of_nat K)%Z.

(** [w'] is [w] but for the cursor, the clock, and entries removed from
    [failed_interfaces]. *)
Record scanned (w w' : World) : Prop := {
  scanned_interfaces :
    LoadBalancer.interfaces (lb w') = LoadBalancer.interfaces (lb w);
  scanned_failed :
    LoadBalancer.failed_interfaces (lb w') ⊆ LoadBalancer.failed_interfaces (lb w);
  scanned_counts :
    LoadBalancer.consecutive_failures (lb w')
    = LoadBalancer.consecutive_failures (lb w);
  scanned_report :
    LoadBalancer.last_stats_report (lb w') = LoadBalancer.last_stats_report (lb w);
  scanned_sent : sent w' = sent w;
  scanned_ticks : ticks w ≤ ticks w'
}.

Lemma scanned_refl w : scanned w w.
Proof. split; done. Qed.

Lemma scanned_trans w1 w2 w3 : scanned w1 w2 → scanned w2 w3 → scanned w1 w3.
Proof.
  intros [] []. split; try congruence; [by etrans | lia].
Qed.

Lemma next_index_within (K : nat) (c : Z) :
  K ≠ 0 → (0 ≤ next_index K c < Z.of_nat K)%Z.
Proof. intros HK. unfold next_index. apply Z.mod_pos_bound. lia. Qed.

(** The loop of [get_best_interface], whatever the state it starts in. *)
Lemma round_robin_post (valid : list nat) (n : nat) : ∀ w,
  valid ≠ [] →
  (∀ i, i ∈ valid → i < length (LoadBalancer.interfaces (lb w))) →
  ∃ found w',
    round_robin clock valid n w = (Ok found, w')
    ∧ scanned w w'
    ∧ (cursor_within (length valid) w ∨ 1 ≤ n → cursor_within (length valid) w')
    ∧ ∀ i, found = Some i →
        i ∈ valid
        ∧ ∀ o, LoadBalancer.interfaces (lb w) !! i = Some o →
               LoadBalancer.failed_interfaces (lb w') !! NetworkInterface.ip o
               = None.
Proof.
  induction n as [|n IH]; intros w Hne Hlive.
  { exists None, w. split; [done|]. split; [apply scanned_refl|].
    split; [intros [H|H]; [done | lia] | done]. }
  destruct (cursor_lookup valid (LoadBalancer.current_interface_index (lb w)) Hne)
    as [i Hi].
  assert (Hin : i ∈ valid) by (eapply list_elem_of_lookup_2; done).
  rewrite (round_robin_step clock _ _ _ _ Hi).
  set (w1 := moved _ 0 w).
  assert (Hw1 : scanned w w1) by (split; done).
  assert (Hc1 : cursor_within (length valid) w1).
  { apply next_index_within. destruct valid; done. }
  destruct (lookup_lt_is_Some_2 _ _ (Hlive i Hin)) as [o Ho].
  unfold bind at 1.
  destruct (LoadBalancer.failed_interfaces (lb w) !! NetworkInterface.ip o)
    as [since|] eqn:Hf.
  - destruct (Qlt_le_dec LoadBalancer.failure_timeout (clock (ticks w) - since))
      as [Hstale|Hfresh].
    + rewrite (is_interface_failed_stale clock w1 i o since) by done.
      eexists (Some i), _. split; [reflexivity|]. split.
      { split; simpl; try done; [apply delete_subseteq | lia]. }
      split; [done|]. intros ? [= <-]. split; [done|].
      intros o' Ho'. rewrite Ho in Ho'. injection Ho' as <-.
      simpl. apply lookup_delete_eq.
    + rewrite (is_interface_failed_fresh clock w1 i o since) by done.
      destruct (IH (tick w1) Hne) as (found & w' & Hrun & Hsc & Hcur & Hfound).
      { intros j Hj. apply (Hlive j Hj). }
      exists found, w'. split; [exact Hrun|]. split.
      { eapply scanned_trans; [|exact Hsc]. split; simpl; try done. lia. }
      split; [intros _; apply Hcur; by left|].
      intros j Hj. destruct (Hfound j Hj) as [Hjv Hjq]. split; [done|].
      intros o' Ho'. apply Hjq. exact Ho'.
  - rewrite (is_interface_failed_absent clock w1 i o) by done.
    exists (Some i), w1. split; [done|]. split; [done|]. split; [done|].
    intros ? [= <-]. split; [done|].
    intros o' Ho'. rewrite Ho in Ho'. injection Ho' as <-. exact Hf.
Qed.

(** X1.  [get_best_interface] raises [RuntimeError], changing nothing, when
    no interface has an address outside [169.254.]; otherwise it returns,
    and what it returns is such an interface, whose address is not in
    [failed_interfaces] once the call is over. *)
Theorem get_best_interface_outcome (w : World) :
  match valid_interfaces (lb w) with
  | [] =>
      ∃ msg, get_best_interface clock w = (Raise (RuntimeError msg), w)
  | _ :: _ =>
      ∃ r w' o,
        get_best_interface clock w = (Ok r, w')
        ∧ LoadBalancer.interfaces (lb w) !! r = Some o
        ∧ startswith (NetworkInterface.ip o) link_local = false
        ∧ LoadBalancer.failed_interfaces (lb w') !! NetworkInterface.ip o = None
  end.
Proof.
  destruct (valid_interfaces (lb w)) as [|v vs] eqn:Ev.
  { apply get_best_interface_raises. done. }
  assert (Hne : valid_interfaces (lb w) ≠ []) by (rewrite Ev; done).
  assert (Hlive : ∀ i, i ∈ valid_interfaces (lb w) →
            i < length (LoadBalancer.interfaces (lb w))).
  { intros i Hi. apply valid_interfaces_elem in Hi as (o & Ho & _).
    by apply lookup_lt_Some in Ho. }
  destruct (round_robin_post (valid_interfaces (lb w))
              (length (valid_interfaces (lb w))) w Hne Hlive)
    as (found & w' & Hrun & Hsc & _ & Hfound).
  unfold get_best_interface, bind at 1, get at 1. cbn beta iota.
  destruct (LoadBalancer.interfaces (lb w)) as [|o0 rest] eqn:Ei.
  { unfold valid_interfaces in Ev. rewrite Ei in Ev. done. }
  rewrite Ev in *. unfold bind at 1. rewrite Hrun.
  destruct found as [r|].
  - destruct (Hfound r eq_refl) as [Hin Hq].
    rewrite <- Ev in Hin. apply valid_interfaces_elem in Hin as (o & Ho & Hl).
    exists r, w', o. rewrite <- Ei. split; [done|]. split; [done|].
    split; [done|]. apply Hq. rewrite <- Ei. done.
  - assert (Hin : v ∈ valid_interfaces (lb w)) by (rewrite Ev; left).
    apply valid_interfaces_elem in Hin as (o & Ho & Hl).
    eexists v, _, o. split; [reflexivity|]. rewrite <- Ei.
    split; [done|]. split; [done|]. simpl. apply lookup_empty.
Qed.

Lemma get_best_interface_kept (w w' : World) (r : nat) :
  get_best_interface clock w = (Ok r, w') →
  LoadBalancer.interfaces (lb w') = LoadBalancer.interfaces (lb w)
  ∧ LoadBalancer.last_stats_report (lb w') = LoadBalancer.last_stats_report (lb w)
  ∧ sent w' = sent w
  ∧ cursor_within (length (valid_interfaces (lb w))) w'
  ∧ LoadBalancer.failed_interfaces (lb w') ⊆ LoadBalancer.failed_interfaces (lb w)
  ∧ (LoadBalancer.consecutive_failures (lb w')
     = LoadBalancer.consecutive_failures (lb w)
     ∨ LoadBalancer.consecutive_failures (lb w') = ∅).
Proof.
  intros Hrun.
  destruct (valid_interfaces (lb w)) as [|v vs] eqn:Ev.
  { destruct (get_best_interface_raises clock w Ev) as [msg E].
    rewrite E in Hrun. discriminate. }
  assert (Hne : valid_interfaces (lb w) ≠ []) by (rewrite Ev; done).
  assert (Hlive : ∀ i, i ∈ valid_interfaces (lb w) →
            i < length (LoadBalancer.interfaces (lb w))).
  { intros i Hi. apply valid_interfaces_elem in Hi as (o & Ho & _).
    by apply lookup_lt_Some in Ho. }
  destruct (round_robin_post (valid_interfaces (lb w))
              (length (valid_interfaces (lb w))) w Hne Hlive)
    as (found & w1 & Hloop & Hsc & Hcur & _).
  unfold get_best_interface, bind at 1, get at 1 in Hrun. cbn beta iota in Hrun.
  destruct (LoadBalancer.interfaces (lb w)) as [|o0 rest] eqn:Ei.
  { unfold valid_interfaces in Ev. rewrite Ei in Ev. done. }
  rewrite Ev in *. unfold bind at 1 in Hrun. rewrite Hloop in Hrun.
  assert (Hc1 : cursor_within (length (v :: vs)) w1)
    by (apply Hcur; right; simpl; lia).
  destruct Hsc as [Hi Hf Hc Hr Hs _].
  destruct found as [i|].
  - unfold ret in Hrun. injection Hrun as <- <-. rewrite Ei in Hi.
    repeat split; try done; apply Hc1 || by left.
  - cbv [bind modify ret] in Hrun. injection Hrun as <- <-. simpl.
    rewrite Ei in Hi.
    repeat split; try done; try apply Hc1; [apply map_empty_subseteq | by right].
Qed.

(** X2.  A call of [get_best_interface] that returns leaves the interface
    objects, [last_stats_report] and what has been written as they were, and
    the cursor inside the candidate list; [failed_interfaces] loses entries
    at most, and [consecutive_failures] is unchanged or empty. *)
Theorem get_best_interface_frame (w w' : World) (r : nat) :
  get_best_interface clock w = (Ok r, w') →
  LoadBalancer.interfaces (lb w') = LoadBalancer.interfaces (lb w)
  ∧ LoadBalancer.last_stats_report (lb w') = LoadBalancer.last_stats_report (lb w)
  ∧ sent w' = sent w
  ∧ cursor_within (length (valid_interfaces (lb w))) w'
  ∧ LoadBalancer.failed_interfaces (lb w') ⊆ LoadBalancer.failed_interfaces (lb w)
  ∧ (LoadBalancer.consecutive_failures (lb w')
     = LoadBalancer.consecutive_failures (lb w)
     ∨ LoadBalancer.consecutive_failures (lb w') = ∅).
Proof. apply get_best_interface_kept. Qed.

End SelectionOutcome.

Lemma get_best_interface_frame_witness :
  let w' := snd (get_best_interface (λ _, 3%Q) eth0_down) in
  LoadBalancer.interfaces (lb w') = LoadBalancer.interfaces (lb eth0_down)
  ∧ LoadBalancer.last_stats_report (lb w')
    = LoadBalancer.last_stats_report (lb eth0_down)
  ∧ sent w' = sent eth0_down
  ∧ cursor_within 2 w'
  ∧ LoadBalancer.failed_interfaces (lb w')
    ⊆ LoadBalancer.failed_interfaces (lb eth0_down)
  ∧ (LoadBalancer.consecutive_failures (lb w')
     = LoadBalancer.consecutive_failures (lb eth0_down)
     ∨ LoadBalancer.consecutive_failures (lb w') = ∅).
Proof.
  apply (get_best_interface_frame (λ _, 3%Q) eth0_down _ 1). reflexivity.
Defined.

(** ** Failures add up to a quarantine *)

Section Escalation.

Variable clock : nat → Q.

(** The number of clock readings [mark_interface_failed] takes: two when
    the incremented count reaches the threshold, one otherwise. *)
Lemma mark_interface_failed_ticks (w : World) (r : nat)
    (o : NetworkInterface.t) (error : pystr) :
  LoadBalancer.interfaces (lb w) !! r = Some o →
  ticks (snd (mark_interface_failed clock r error w))
  = (if (3 <=? incremented w (NetworkInterface.ip o))%Z then 2 else 1)
    + ticks w.
Proof.
  intros Ho.
  pose proof (lookup_lt_Some _ _ _ Ho) as Hlt.
  unfold mark_interface_failed, incremented.
  unfold bind at 1. unfold with_interface at 1. rewrite Ho.
  cbn -[str Z.add Z.leb].
  unfold bind at 1. unfold time_time at 1. cbn -[str Z.add Z.leb].
  unfold bind at 1. unfold with_interface at 1. cbn -[str Z.add Z.leb].
  rewrite list_lookup_insert_eq by done. cbn -[str Z.add Z.leb].
  unfold bind at 1. unfold attr at 1. cbn -[str Z.add Z.leb].
  rewrite list_lookup_insert_eq by (rewrite length_insert; done).
  cbn -[str Z.add Z.leb].
  unfold bind at 1. unfold modify at 1. cbn -[str Z.add Z.leb].
  rewrite lookup_insert_eq.
  change (LoadBalancer.max_consecutive_failures) with 3%Z.
  destruct (3 <=? _)%Z.
  - unfold with_interface, modify. cbn -[str Z.add Z.leb].
    rewrite list_lookup_insert_eq by (rewrite length_insert; done). done.
  - unfold with_interface, modify. cbn -[str Z.add Z.leb].
    rewrite list_lookup_insert_eq by (rewrite length_insert; done). done.
Qed.

(** X3.  Three calls of [mark_interface_failed] in a row on an interface
    whose address has no failures counted: after the first two the address
    is still out of [failed_interfaces] with count 2; the third puts it
    there with the fourth clock reading, sets FAILED and resets the count;
    from then on [is_interface_failed] answers [True] as long as its own
    clock reading is within 5 s of that entry. *)
Theorem three_failures_quarantine (w : World) (r : nat)
    (o : NetworkInterface.t) (e1 e2 e3 : pystr) :
  LoadBalancer.interfaces (lb w) !! r = Some o →
  default 0%Z (LoadBalancer.consecutive_failures (lb w) !! NetworkInterface.ip o)
  = 0%Z →
  let ip := NetworkInterface.ip o in
  ∃ w2 w3 o3,
    (mark_interface_failed clock r e1 ;;; mark_interface_failed clock r e2) w
    = (Ok tt, w2)
    ∧ LoadBalancer.failed_interfaces (lb w2)
      = LoadBalancer.failed_interfaces (lb w)
    ∧ LoadBalancer.consecutive_failures (lb w2) !! ip = Some 2%Z
    ∧ mark_interface_failed clock r e3 w2 = (Ok tt, w3)
    ∧ LoadBalancer.failed_interfaces (lb w3)
      = <[ip := clock (3 + ticks w)]> (LoadBalancer.failed_interfaces (lb w))
    ∧ LoadBalancer.consecutive_failures (lb w3) !! ip = Some 0%Z
    ∧ LoadBalancer.interfaces (lb w3) !! r = Some o3
    ∧ NetworkInterface.status o3 = str "FAILED"
    ∧ NetworkInterface.failed_requests o3
      = (NetworkInterface.failed_requests o + 3)%Z
    ∧ ((clock (4 + ticks w) - clock (3 + ticks w)
        <= LoadBalancer.failure_timeout)%Q →
       is_interface_failed clock r w3 = (Ok true, tick w3)).
Proof.
  intros Ho Hc ip. subst ip.
  destruct (mark_interface_failed_run clock w r o e1 Ho)
    as (w1 & o1 & Hrun1 & Ho1 & Hf1 & _ & _ & Hip1 & Hcf1 & Hbr1).
  pose proof (mark_interface_failed_ticks w r o e1 Ho) as Ht1.
  rewrite Hrun1 in Ht1. cbn [snd] in Ht1.
  unfold incremented in Hcf1, Hbr1, Ht1.
  rewrite Hc in Hcf1, Hbr1, Ht1. cbn in Hcf1, Hbr1, Ht1.
  destruct Hbr1 as [Hq1 _].
  assert (Hc1 : default 0%Z (LoadBalancer.consecutive_failures (lb w1) !! NetworkInterface.ip o)
                = 1%Z) by (rewrite Hcf1, lookup_insert_eq; done).
  destruct (mark_interface_failed_run clock w1 r o1 e2 Ho1)
    as (w2 & o2 & Hrun2 & Ho2 & Hf2 & _ & _ & Hip2 & Hcf2 & Hbr2).
  pose proof (mark_interface_failed_ticks w1 r o1 e2 Ho1) as Ht2.
  rewrite Hrun2 in Ht2. cbn [snd] in Ht2.
  rewrite Hip1 in Hcf2, Hbr2, Ht2, Hip2. unfold incremented in Hcf2, Hbr2, Ht2.
  rewrite Hc1 in Hcf2, Hbr2, Ht2. cbn in Hcf2, Hbr2, Ht2.
  destruct Hbr2 as [Hq2 _].
  assert (Hc2 : default 0%Z (LoadBalancer.consecutive_failures (lb w2) !! NetworkInterface.ip o)
                = 2%Z) by (rewrite Hcf2, lookup_insert_eq; done).
  destruct (mark_interface_failed_run clock w2 r o2 e3 Ho2)
    as (w3 & o3 & Hrun3 & Ho3 & Hf3 & _ & _ & Hip3 & Hcf3 & Hbr3).
  pose proof (mark_interface_failed_ticks w2 r o2 e3 Ho2) as Ht3.
  rewrite Hrun3 in Ht3. cbn [snd] in Ht3.
  rewrite Hip2 in Hcf3, Hbr3, Ht3, Hip3. unfold incremented in Hcf3, Hbr3, Ht3.
  rewrite Hc2 in Hcf3, Hbr3, Ht3. cbn in Hcf3, Hbr3, Ht3.
  destruct Hbr3 as [Hq3 Hst3].
  exists w2, w3, o3.
  split; [unfold bind; rewrite Hrun1, Hrun2; done|].
  split; [congruence|].
  split; [rewrite Hcf2; apply lookup_insert_eq|].
  split; [done|].
  split; [rewrite Hq3, Hq2, Hq1, Ht2, Ht1; done|].
  split; [rewrite Hcf3; apply lookup_insert_eq|].
  split; [done|]. split; [done|]. split; [lia|].
  intros Hwithin.
  apply (is_interface_failed_fresh clock w3 r o3 (clock (3 + ticks w))).
  - done.
  - rewrite Hip3, Hq3, Hq2, Hq1, Ht2, Ht1. apply lookup_insert_eq.
  - rewrite Ht3, Ht2, Ht1. exact Hwithin.
Qed.

End Escalation.

Lemma three_failures_quarantine_witness :
  ∃ w3,
    LoadBalancer.failed_interfaces (lb w3) !! str "10.0.0.2" = Some 7%Q
    ∧ LoadBalancer.consecutive_failures (lb w3) !! str "10.0.0.2" = Some 0%Z
    ∧ is_interface_failed (λ _, 7%Q) 0 w3 = (Ok true, tick w3).
Proof.
  destruct (three_failures_quarantine (λ _, 7%Q) two_nics 0 eth0 [] [] []
              eq_refl eq_refl)
    as (w2 & w3 & o3 & _ & _ & _ & _ & Hq & Hc & _ & _ & _ & Hfailed).
  exists w3. split; [rewrite Hq; apply lookup_insert_eq|].
  split; [exact Hc|]. apply Hfailed. vm_compute. discriminate.
Defined.

(** ** Relations that every operation keeps *)

Section OperationsKeep.

Variable clock : nat → Q.
Variable R : World → World → Prop.
Context `{!PreOrder R}.

Hypothesis R_cursor : ∀ c w,
  R w (upd_lb (LoadBalancer.set_current_interface_index c) w).
Hypothesis R_failed : ∀ g w,
  R w (upd_lb (λ l, LoadBalancer.set_failed_interfaces (g l) l) w).
Hypothesis R_counts : ∀ g w,
  R w (upd_lb (λ l, LoadBalancer.set_consecutive_failures (g l) l) w).
Hypothesis R_report : ∀ t w,
  (LoadBalancer.stats_interval <= t - LoadBalancer.last_stats_report (lb w))%Q →
  R w (upd_lb (LoadBalancer.set_last_stats_report t) w).
Hypothesis R_tick : ∀ w, R w (tick w).
Hypothesis R_emit : ∀ p data w, R w (emit p data w).
Hypothesis R_mark_request_failed : ∀ r,
  keeps R (with_interface r NetworkInterface.mark_request_failed).
Hypothesis R_mark_request_success : ∀ r,
  keeps R (with_interface r NetworkInterface.mark_request_success).
Hypothesis R_update_stats : ∀ r b t,
  keeps R (with_interface r (NetworkInterface.update_stats b t)).
Hypothesis R_last_failure : ∀ r now,
  keeps R (with_interface r
             (modify (NetworkInterface.set_last_failure (Some now)))).
Hypothesis R_status : ∀ r v,
  v = str "DEGRADED" ∨ v = str "FAILED" →
  keeps R (with_interface r (modify (NetworkInterface.set_status v))).
Hypothesis R_release : ∀ r, keeps R (release r).

Lemma attr_keeps {A} (r : nat) (f : NetworkInterface.t → A) :
  keeps R (attr r f).
Proof.
  intros w. unfold attr.
  destruct (LoadBalancer.interfaces (lb w) !! r); reflexivity.
Qed.

Lemma is_interface_failed_keeps r : keeps R (is_interface_failed clock r).
Proof.
  unfold is_interface_failed.
  apply keeps_bind; [apply _ | apply attr_keeps |]. intros ip.
  apply keeps_bind; [apply _ | apply keeps_get; apply _ |]. intros w.
  destruct (LoadBalancer.failed_interfaces (lb w) !! ip);
    [| apply keeps_ret; apply _].
  apply keeps_bind; [apply _ | exact R_tick |]. intros now.
  destruct (Qlt_le_dec _ _); [| apply keeps_ret; apply _].
  apply keeps_bind; [apply _ | | intros; apply keeps_ret; apply _].
  apply keeps_modify. intros w'.
  apply (R_failed (λ l, delete ip (LoadBalancer.failed_interfaces l))).
Qed.

Lemma round_robin_keeps valid n : keeps R (round_robin clock valid n).
Proof.
  induction n as [|n IH]; [apply keeps_ret; apply _|].
  cbn [round_robin].
  apply keeps_bind; [apply _ | apply keeps_get; apply _ |]. intros w.
  cbv zeta.
  destruct (valid !! _); [| apply keeps_raise; apply _].
  apply keeps_bind; [apply _ | | intros _].
  { intros w'. apply R_cursor. }
  apply keeps_bind; [apply _ | apply is_interface_failed_keeps |].
  intros [|]; [apply IH | apply keeps_ret; apply _].
Qed.

Lemma get_best_interface_keeps : keeps R (get_best_interface clock).
Proof.
  unfold get_best_interface.
  apply keeps_bind; [apply _ | apply keeps_get; apply _ |]. intros w.
  destruct (LoadBalancer.interfaces (lb w)); [apply keeps_raise; apply _|].
  cbv zeta.
  destruct (valid_interfaces (lb w)); [apply keeps_raise; apply _|].
  apply keeps_bind; [apply _ | apply round_robin_keeps |].
  intros [r|]; [apply keeps_ret; apply _|].
  apply keeps_bind; [apply _ | | intros _].
  { intros w'. apply (R_failed (λ _, ∅)). }
  apply keeps_bind; [apply _ | | intros; apply keeps_ret; apply _].
  intros w'. apply (R_counts (λ _, ∅)).
Qed.

Lemma report_stats_keeps : keeps R (report_stats clock).
Proof.
  intros w. unfold report_stats, bind, time_time, get. cbn [lb tick].
  destruct (Qlt_le_dec _ _) as [|Hdue]; cbn [snd ret modify].
  - apply R_tick.
  - etrans; [apply R_tick|]. apply R_report. exact Hdue.
Qed.

Lemma mark_interface_failed_keeps r error :
  keeps R (mark_interface_failed clock r error).
Proof.
  unfold mark_interface_failed.
  apply keeps_bind; [apply _ | apply R_mark_request_failed | intros _].
  apply keeps_bind; [apply _ | exact R_tick |]. intros now.
  apply keeps_bind; [apply _ | apply R_last_failure | intros _].
  apply keeps_bind; [apply _ | apply attr_keeps |]. intros ip.
  apply keeps_bind; [apply _ | | intros _].
  { intros w.
    apply (R_counts (λ l,
             <[ip := (default 0 (LoadBalancer.consecutive_failures l !! ip)
                      + 1)%Z]> (LoadBalancer.consecutive_failures l))). }
  apply keeps_bind; [apply _ | apply keeps_get; apply _ |]. intros w.
  destruct (LoadBalancer.consecutive_failures (lb w) !! ip);
    [| apply keeps_raise; apply _].
  destruct (_ <=? _)%Z.
  - apply keeps_bind; [apply _ | exact R_tick |]. intros now'.
    apply keeps_bind; [apply _ | | intros _].
    { intros w'.
      apply (R_failed (λ l, <[ip := now']> (LoadBalancer.failed_interfaces l))). }
    apply keeps_bind; [apply _ | apply R_status; by right | intros _].
    intros w'.
    apply (R_counts (λ l, <[ip := 0%Z]> (LoadBalancer.consecutive_failures l))).
  - apply R_status. by left.
Qed.

Lemma exec_keeps (o : op) : keeps R (exec clock o).
Proof.
  destruct o as [|r error|r b t| |r|r| |p data]; cbn [exec].
  - apply keeps_bind; [apply _ | apply get_best_interface_keeps |].
    intros; apply keeps_ret; apply _.
  - apply mark_interface_failed_keeps.
  - apply R_update_stats.
  - apply report_stats_keeps.
  - apply R_mark_request_success.
  - apply R_release.
  - apply keeps_bind; [apply _ | exact R_tick |].
    intros; apply keeps_ret; apply _.
  - intros w. apply R_emit.
Qed.

Lemma run_ops_keeps (ops : list op) (w : World) : R w (run_ops clock ops w).
Proof.
  revert w. induction ops as [|o ops IH]; intros w; [reflexivity|].
  cbn [run_ops fold_left]. etrans; [apply exec_keeps | apply IH].
Qed.

End OperationsKeep.

(** ** How an interface object changes over its life *)

(** [o'] is a later state of the object [o]: same name and address,
    [last_used] and [bytes_received] as they were, no counter smaller, no
    fewer requests counted in [total_requests] only, a recorded failure
    still recorded, and a status that has left ACTIVE still away from
    it. *)
Record evolves (o o' : NetworkInterface.t) : Prop := {
  evolves_name : NetworkInterface.name o' = NetworkInterface.name o;
  evolves_ip : NetworkInterface.ip o' = NetworkInterface.ip o;
  evolves_last_used :
    NetworkInterface.last_used o' = NetworkInterface.last_used o;
  evolves_bytes_received :
    NetworkInterface.bytes_received o' = NetworkInterface.bytes_received o;
  evolves_total :
    (NetworkInterface.total_requests o ≤ NetworkInterface.total_requests o')%Z;
  evolves_successful :
    (NetworkInterface.successful_requests o
     ≤ NetworkInterface.successful_requests o')%Z;
  evolves_failed :
    (NetworkInterface.failed_requests o
     ≤ NetworkInterface.failed_requests o')%Z;
  evolves_uncounted :
    (NetworkInterface.total_requests o
     - NetworkInterface.successful_requests o
     - NetworkInterface.failed_requests o
     ≤ NetworkInterface.total_requests o'
       - NetworkInterface.successful_requests o'
       - NetworkInterface.failed_requests o')%Z;
  evolves_last_failure :
    is_Some (NetworkInterface.last_failure o) →
    is_Some (NetworkInterface.last_failure o');
  evolves_status :
    NetworkInterface.status o ≠ str "ACTIVE" →
    NetworkInterface.status o' ≠ str "ACTIVE"
}.

Global Instance evolves_preorder : PreOrder evolves.
Proof.
  split.
  - intros o. split; done || lia.
  - intros o1 o2 o3 [] []. split; try congruence; try lia; auto.
Qed.

(** The objects of [w'] are those of [w], each related to what it was. *)
Definition objectwise (E : NetworkInterface.t → NetworkInterface.t → Prop)
    (w w' : World) : Prop :=
  Forall2 E (LoadBalancer.interfaces (lb w)) (LoadBalancer.interfaces (lb w')).

Global Instance objectwise_preorder E `{!PreOrder E} : PreOrder (objectwise E).
Proof.
  split.
  - intros w. unfold objectwise. reflexivity.
  - intros w1 w2 w3 H1 H2. unfold objectwise in *. etrans; done.
Qed.

Lemma with_interface_objectwise E `{!PreOrder E} {A} (r : nat)
    (m : St NetworkInterface.t A) :
  (∀ o, E o (snd (m o))) → keeps (objectwise E) (with_interface r m).
Proof.
  intros Hm w. unfold objectwise, with_interface.
  destruct (LoadBalancer.interfaces (lb w) !! r) as [o|] eqn:Ho;
    [| reflexivity].
  specialize (Hm o). destruct (m o) as [res o']. simpl in *.
  rewrite <- (list_insert_id _ _ _ Ho) at 1.
  apply Forall2_insert; [reflexivity | exact Hm].
Qed.

Lemma objectwise_same E `{!PreOrder E} (w w' : World) :
  LoadBalancer.interfaces (lb w') = LoadBalancer.interfaces (lb w) →
  objectwise E w w'.
Proof. intros H. unfold objectwise. rewrite H. reflexivity. Qed.

Lemma update_stats_evolves (b : Z) (t : Q) (o : NetworkInterface.t) :
  evolves o (snd (NetworkInterface.update_stats b t o)).
Proof.
  unfold NetworkInterface.update_stats, bind, modify, get.
  cbn -[Z.add Z.eqb].
  destruct (NetworkInterface.total_requests o + 1 =? 0)%Z;
    split; cbn -[Z.add]; try done; lia.
Qed.

Lemma run_ops_evolves (clock : nat → Q) (ops : list op) (w : World) :
  objectwise evolves w (run_ops clock ops w).
Proof.
  apply run_ops_keeps; try apply _.
  - intros c w'. apply objectwise_same; [apply _ | done].
  - intros g w'. apply objectwise_same; [apply _ | done].
  - intros g w'. apply objectwise_same; [apply _ | done].
  - intros t w' _. apply objectwise_same; [apply _ | done].
  - intros w'. apply objectwise_same; [apply _ | done].
  - intros p data w'. apply objectwise_same; [apply _ | done].
  - intros r. apply with_interface_objectwise; [apply _|].
    intros o. split; simpl; try done; lia.
  - intros r. apply with_interface_objectwise; [apply _|].
    intros o. split; simpl; try done; lia.
  - intros r b t. apply with_interface_objectwise; [apply _|].
    apply update_stats_evolves.
  - intros r now. apply with_interface_objectwise; [apply _|].
    intros o. split; simpl; done || lia.
  - intros r v Hv. apply with_interface_objectwise; [apply _|].
    intros o. split; simpl; try done; try lia. intros _.
    destruct Hv as [-> | ->]; discriminate.
  - intros r. apply with_interface_objectwise; [apply _|].
    intros o. split; simpl; done || lia.
Qed.

(** X4.  Whatever sequence of operations runs, and whatever a session does
    while others run at its awaits, every interface object keeps its name,
    its address, its [last_used] and its [bytes_received]; none of its three
    request counters decreases, nor does the excess of [total_requests]
    over the successes and failures; a recorded [last_failure] stays
    recorded; and a status that is no longer ACTIVE never becomes ACTIVE
    again. *)
Theorem objects_evolve (clock : nat → Q) (int : pystr → result Z)
    (urlparse : pystr → result ParseResult) (decode : bytes → pystr) :
  (∀ ops w,
     Forall2 evolves (LoadBalancer.interfaces (lb w))
       (LoadBalancer.interfaces (lb (run_ops clock ops w))))
  ∧ ∀ s w,
      (∀ p, Forall background (others s p)) →
      Forall2 evolves (LoadBalancer.interfaces (lb w))
        (LoadBalancer.interfaces
           (lb (snd (handle_client clock int urlparse decode s w)))).
Proof.
  split.
  - intros ops w. apply run_ops_evolves.
  - intros s w Hs.
    destruct (handle_client_reach clock int urlparse decode s Hs w)
      as (ops & _ & ->).
    apply run_ops_evolves.
Qed.

Lemma objects_evolve_witness :
  Forall2 evolves (LoadBalancer.interfaces (lb two_nics))
    (LoadBalancer.interfaces
       (lb (snd (handle_client (λ _, 0%Q) int_sample urlparse_sample
                   decode_ascii refused two_nics)))).
Proof.
  apply (proj2 (objects_evolve (λ _, 0%Q) int_sample urlparse_sample
                  decode_ascii) refused two_nics).
  exact refused_background.
Defined.

(** ** The counters in the states the process can be in *)

(** The request counters of [o] are not negative. *)
Definition tallied (o : NetworkInterface.t) : Prop :=
  (0 ≤ NetworkInterface.total_requests o)%Z
  ∧ (0 ≤ NetworkInterface.successful_requests o)%Z
  ∧ (0 ≤ NetworkInterface.failed_requests o)%Z.

Lemma reachable_tallied (clock : nat → Q) (selected : list (pystr * pystr))
    (ops : list op) :
  Forall tallied
    (LoadBalancer.interfaces (lb (run_ops clock ops (started selected)))).
Proof.
  pose proof (run_ops_evolves clock ops (started selected)) as He.
  pose proof (started_fresh selected) as Hf.
  unfold objectwise in He.
  induction He as [|o o' l l' Ho _ IH]; [constructor|].
  inversion Hf as [|? ? (name & ip & ->) Hf']; subst.
  constructor; [|apply IH, Hf'].
  destruct Ho as [_ _ _ _ Ht Hs Hd _ _ _]. simpl in *. done.
Qed.

Lemma get_success_rate_bounds (o : NetworkInterface.t) :
  (0 ≤ NetworkInterface.successful_requests o)%Z →
  (0 ≤ NetworkInterface.failed_requests o)%Z →
  (0 <= NetworkInterface.get_success_rate o
   ∧ NetworkInterface.get_success_rate o <= 100)%Q.
Proof.
  intros Hs Hf. unfold NetworkInterface.get_success_rate. cbv zeta.
  destruct (Z.eqb_spec
              (NetworkInterface.successful_requests o
               + NetworkInterface.failed_requests o) 0) as [E|E].
  { split; discriminate. }
  set (n := NetworkInterface.successful_requests o) in *.
  set (d := (n + NetworkInterface.failed_requests o)%Z) in *.
  assert (Hd : (0 < inject_Z d)%Q).
  { change 0%Q with (inject_Z 0). rewrite <- Zlt_Qlt. lia. }
  assert (Hlo : (0 <= inject_Z n / inject_Z d)%Q).
  { apply Qle_shift_div_l; [exact Hd|]. rewrite Qmult_0_l.
    change 0%Q with (inject_Z 0). rewrite <- Zle_Qle. exact Hs. }
  assert (Hhi : (inject_Z n / inject_Z d <= 1)%Q).
  { apply Qle_shift_div_r; [exact Hd|]. rewrite Qmult_1_l.
    rewrite <- Zle_Qle. lia. }
  split.
  - apply Qmult_le_0_compat; [exact Hlo | discriminate].
  - apply (Qle_trans _ (1 * 100)%Q); [| vm_compute; discriminate].
    apply Qmult_le_compat_r; [exact Hhi | discriminate].
Qed.

(** X5.  In every state the process can be in (discovery, then any sequence
    of operations), [get_success_rate] of every interface is a percentage:
    between 0 and 100. *)
Theorem success_rate_is_percentage (clock : nat → Q)
    (selected : list (pystr * pystr)) (ops : list op) :
  Forall (λ o, (0 <= NetworkInterface.get_success_rate o
                ∧ NetworkInterface.get_success_rate o <= 100)%Q)
    (LoadBalancer.interfaces (lb (run_ops clock ops (started selected)))).
Proof.
  eapply Forall_impl; [apply reachable_tallied|].
  intros o (_ & Hs & Hf). by apply get_success_rate_bounds.
Qed.

(** ** The response-time average *)



(** One call on an object whose request count is not negative. *)
Lemma update_stats_run (b : Z) (t : Q) (o : NetworkInterface.t) :
  (0 ≤ NetworkInterface.total_requests o)%Z →
  ∃ o',
    NetworkInterface.update_stats b t o = (Ok tt, o')
    ∧ NetworkInterface.total_requests o'
      = (NetworkInterface.total_requests o + 1)%Z
    ∧ NetworkInterface.bytes_sent o' = (NetworkInterface.bytes_sent o + b)%Z
    ∧ (NetworkInterface.avg_response_time o'
       * inject_Z (NetworkInterface.total_requests o')
       == NetworkInterface.avg_response_time o
          * inject_Z (NetworkInterface.total_requests o) + t)%Q.
Proof.
  intros Hn. unfold NetworkInterface.update_stats, bind, modify, get.
  cbn -[Z.add Z.sub Z.eqb Qmult Qplus Qdiv inject_Z].
  destruct (Z.eqb_spec (NetworkInterface.total_requests o + 1) 0) as [E|E];
    [lia|].
  eexists. split; [reflexivity|].
  cbn -[Z.add Z.sub Qmult Qplus Qdiv inject_Z].
  split; [done|]. split; [done|].
  replace (NetworkInterface.total_requests o + 1 - 1)%Z
    with (NetworkInterface.total_requests o) by lia.
  rewrite Qmult_comm. apply Qmult_div_r.
  change 0%Q with (inject_Z 0). rewrite inject_Z_injective. exact E.
Qed.



(** X7.  In every state the process can be in, [update_stats] returns on
    every interface: its division is never by zero. *)
Theorem update_stats_never_raises (clock : nat → Q)
    (selected : list (pystr * pystr)) (ops : list op) :
  Forall (λ o, ∀ b t, fst (NetworkInterface.update_stats b t o) = Ok tt)
    (LoadBalancer.interfaces (lb (run_ops clock ops (started selected)))).
Proof.
  eapply Forall_impl; [apply reachable_tallied|].
  intros o (Hn & _) b t.
  destruct (update_stats_run b t o Hn) as (o' & -> & _). done.
Qed.

(** ** What a pump writes *)

(** The chunks a pump writes: those it reads before the first empty one,
    and the one whose [drain] fails or is cancelled. *)
Fixpoint delivered (chunks : list bytes) (stop : pump_stop) : list bytes :=
  match chunks with
  | [] :: _ => []
  | data :: chunks' => data :: delivered chunks' stop
  | [] =>
      match stop with
      | DrainRaised ((_ :: _) as data) _
      | DrainCancelled ((_ :: _) as data) => [data]
      | _ => []
      end
  end.

Lemma forward_from_delivers (dst : peer) (chunks : list bytes)
    (stop : pump_stop) : ∀ n w,
  snd (forward_from dst chunks stop n w)
  = mkWorld (lb w) (ticks w)
      (sent w ++ map (λ data, (dst, data)) (delivered chunks stop))
  ∧ match fst (forward_from dst chunks stop n w) with
    | Ok total =>
        total = (n + Z.of_nat (length (concat (delivered chunks stop))))%Z
    | Raise e => e = CancelledError
    end.
Proof.
  induction chunks as [|data chunks IH]; intros n w.
  - cbn [forward_from delivered].
    destruct stop as [|e| |data e|data]; try destruct e; try destruct data;
      cbn [bind modify ret raise emit fst snd map concat app length
           lb ticks sent];
      rewrite ?app_nil_r, ?Z.add_0_r; (split; [by destruct w | done || lia]).
  - cbn [forward_from delivered]. destruct data as [|b data].
    { cbn. rewrite app_nil_r, Z.add_0_r. by destruct w. }
    unfold bind at 1 2, modify at 1 2. cbn beta iota.
    destruct (IH (n + Z.of_nat (length (b :: data)))%Z (emit dst (b :: data) w))
      as [Hw Hr].
    split.
    + rewrite Hw. cbn [emit lb ticks sent map]. rewrite <- app_assoc. done.
    + destruct (fst (forward_from dst chunks stop _ _)); [|done].
      rewrite Hr. cbn [concat]. rewrite length_app. lia.
Qed.

Lemma forward_world (dst : peer) (chunks : list bytes) (stop : pump_stop)
    (w : World) :
  snd (forward dst chunks stop w)
  = mkWorld (lb w) (ticks w)
      (sent w ++ map (λ data, (dst, data)) (delivered chunks stop)).
Proof. apply forward_from_delivers. Qed.

(** X8.  [forward] changes nothing but what has been written, to which it
    adds, for its own writer and in reading order, the chunks read before
    the first empty one (and the one whose [drain] fails); none of them is
    empty; it returns the number of bytes it has written, and the only
    exception it raises is [CancelledError]. *)
Theorem forward_delivers (dst : peer) (chunks : list bytes) (stop : pump_stop)
    (w : World) :
  snd (forward dst chunks stop w)
  = mkWorld (lb w) (ticks w)
      (sent w ++ map (λ data, (dst, data)) (delivered chunks stop))
  ∧ Forall (λ data, data ≠ []) (delivered chunks stop)
  ∧ match fst (forward dst chunks stop w) with
    | Ok total => total = Z.of_nat (length (concat (delivered chunks stop)))
    | Raise e => e = CancelledError
    end.
Proof.
  destruct (forward_from_delivers dst chunks stop 0 w) as [Hw Hr].
  split; [exact Hw|]. split; [|exact Hr].
  clear. induction chunks as [|data chunks IH]; cbn [delivered].
  - destruct stop as [|e| |data e|data]; try destruct data;
      repeat constructor; done.
  - destruct data; [constructor|]. constructor; [done | exact IH].
Qed.

(** ** The statistics report *)

(** [last_stats_report] is as it was or at least [stats_interval] later. *)
Definition report_spaced (w w' : World) : Prop :=
  LoadBalancer.last_stats_report (lb w') = LoadBalancer.last_stats_report (lb w)
  ∨ (LoadBalancer.last_stats_report (lb w) + LoadBalancer.stats_interval
     <= LoadBalancer.last_stats_report (lb w'))%Q.

Global Instance report_spaced_preorder : PreOrder report_spaced.
Proof.
  split.
  - intros w. by left.
  - intros w1 w2 w3 [H1|H1] [H2|H2]; unfold report_spaced.
    + left. congruence.
    + right. rewrite <- H1. exact H2.
    + right. rewrite H2. exact H1.
    + right. unfold LoadBalancer.stats_interval in *. lra.
Qed.

Lemma with_interface_lb {A} (r : nat) (m : St NetworkInterface.t A)
    (w : World) :
  ∃ l, snd (with_interface r m w)
       = upd_lb (LoadBalancer.set_interfaces l) w.
Proof.
  unfold with_interface.
  destruct (LoadBalancer.interfaces (lb w) !! r) as [o|].
  - destruct (m o) as [res o']. eexists. reflexivity.
  - exists (LoadBalancer.interfaces (lb w)). by destruct w as [[]].
Qed.

Lemma with_interface_report_spaced {A} (r : nat)
    (m : St NetworkInterface.t A) :
  keeps report_spaced (with_interface r m).
Proof.
  intros w. destruct (with_interface_lb r m w) as [l ->]. by left.
Qed.

(** X9.  Over any sequence of operations, [last_stats_report] changes by
    jumps of at least 30 s only: two reports are never less than 30 s of
    clock readings apart, and the value never decreases. *)
Theorem reports_thirty_apart (clock : nat → Q) (ops : list op) (w : World) :
  let w' := run_ops clock ops w in
  LoadBalancer.last_stats_report (lb w') = LoadBalancer.last_stats_report (lb w)
  ∨ (LoadBalancer.last_stats_report (lb w) + 30
     <= LoadBalancer.last_stats_report (lb w'))%Q.
Proof.
  apply (run_ops_keeps clock report_spaced);
    try (intros; apply with_interface_report_spaced);
    try (intros; by left).
  intros t w' Hdue. right. simpl.
  unfold LoadBalancer.stats_interval in *. lra.
Qed.

(** ** What a success does not undo *)

(** The operations that are neither a selection nor a failure mark: the
    bookkeeping of a session that went well, clock readings and writes. *)
Definition bookkeeping (o : op) : Prop :=
  match o with
  | GetBestInterface | MarkInterfaceFailed _ _ => False
  | _ => True
  end.

(** The failure state of [w'] is that of [w]. *)
Record failures_kept (w w' : World) : Prop := {
  kept_counts :
    LoadBalancer.consecutive_failures (lb w')
    = LoadBalancer.consecutive_failures (lb w);
  kept_failed :
    LoadBalancer.failed_interfaces (lb w')
    = LoadBalancer.failed_interfaces (lb w);
  kept_status :
    NetworkInterface.status <$> LoadBalancer.interfaces (lb w')
    = NetworkInterface.status <$> LoadBalancer.interfaces (lb w)
}.

Global Instance failures_kept_preorder : PreOrder failures_kept.
Proof.
  split.
  - intros w. split; done.
  - intros w1 w2 w3 [] []. split; congruence.
Qed.

Lemma with_interface_fmap {A B} (f : NetworkInterface.t → B) (r : nat)
    (m : St NetworkInterface.t A) (w : World) :
  (∀ o, f (snd (m o)) = f o) →
  f <$> LoadBalancer.interfaces (lb (snd (with_interface r m w)))
  = f <$> LoadBalancer.interfaces (lb w).
Proof.
  intros Hm. unfold with_interface.
  destruct (LoadBalancer.interfaces (lb w) !! r) as [o|] eqn:Ho; [|done].
  specialize (Hm o). destruct (m o) as [res o']. simpl in *.
  rewrite list_fmap_insert, Hm. apply list_insert_id.
  rewrite list_lookup_fmap, Ho. done.
Qed.

Lemma with_interface_failures_kept {A} (r : nat)
    (m : St NetworkInterface.t A) :
  (∀ o, NetworkInterface.status (snd (m o)) = NetworkInterface.status o) →
  keeps failures_kept (with_interface r m).
Proof.
  intros Hm w. split; [| | by apply with_interface_fmap];
    destruct (with_interface_lb r m w) as [l ->]; done.
Qed.

Lemma exec_failures_kept (clock : nat → Q) (o : op) :
  bookkeeping o → keeps failures_kept (exec clock o).
Proof.
  destruct o as [|r error|r b t| |r|r| |p data]; intros Ho;
    [done | done | | | | | |]; cbn [exec].
  - apply with_interface_failures_kept. intros o.
    unfold NetworkInterface.update_stats, bind, modify, get.
    cbn -[Z.add Z.eqb].
    destruct (NetworkInterface.total_requests o + 1 =? 0)%Z; done.
  - intros w. unfold report_stats, bind, time_time, get. cbn [lb tick].
    destruct (Qlt_le_dec _ _); split; done.
  - apply with_interface_failures_kept. done.
  - apply with_interface_failures_kept. done.
  - intros w. split; done.
  - intros w. split; done.
Qed.

Lemma run_ops_failures_kept (clock : nat → Q) (ops : list op) : ∀ w,
  Forall bookkeeping ops → failures_kept w (run_ops clock ops w).
Proof.
  induction ops as [|o ops IH]; intros w H; [reflexivity|].
  inversion H as [|? ? Ho Hops]; subst. cbn [run_ops fold_left].
  etrans; [apply (exec_failures_kept clock o Ho) | apply IH, Hops].
Qed.

(** X10.  Successes reset nothing.  The bookkeeping of sessions that went
    well ([update_stats], [report_stats], [mark_request_success], the
    release in [finally]) leaves [consecutive_failures], [failed_interfaces]
    and every status as they were; so an address with two failures counted
    is put in [failed_interfaces] by its next failure, however many
    successes lie in between. *)
Theorem failures_outlast_successes (clock : nat → Q) (w : World) (r : nat)
    (o : NetworkInterface.t) (ops : list op) (error : pystr) :
  LoadBalancer.interfaces (lb w) !! r = Some o →
  LoadBalancer.consecutive_failures (lb w) !! NetworkInterface.ip o = Some 2%Z →
  Forall bookkeeping ops →
  let w1 := run_ops clock ops w in
  failures_kept w w1
  ∧ ∃ w' o',
      mark_interface_failed clock r error w1 = (Ok tt, w')
      ∧ LoadBalancer.failed_interfaces (lb w') !! NetworkInterface.ip o
        = Some (clock (S (ticks w1)))
      ∧ LoadBalancer.interfaces (lb w') !! r = Some o'
      ∧ NetworkInterface.status o' = str "FAILED".
Proof.
  intros Ho Hc Hops w1.
  pose proof (run_ops_failures_kept clock ops w Hops) as Hk. fold w1 in Hk.
  split; [exact Hk|].
  pose proof (run_ops_evolves clock ops w) as He. fold w1 in He.
  destruct (Forall2_lookup_l _ _ _ _ _ He Ho) as (o1 & Ho1 & Heo).
  destruct (mark_interface_failed_run clock w1 r o1 error Ho1)
    as (w' & o' & Hrun & Ho' & _ & _ & _ & _ & _ & Hbr).
  unfold incremented in Hbr.
  rewrite (evolves_ip _ _ Heo), (kept_counts _ _ Hk), Hc in Hbr.
  cbn in Hbr. destruct Hbr as [Hq Hst].
  exists w', o'. split; [exact Hrun|].
  split; [rewrite Hq; apply lookup_insert_eq|]. done.
Qed.

Lemma failures_outlast_successes_witness :
  let w := upd_lb (LoadBalancer.set_consecutive_failures
                     (<[str "10.0.0.2" := 2%Z]> ∅)) two_nics in
  let w1 := run_ops (λ _, 9%Q) [MarkRequestSuccess 0; MarkRequestSuccess 0] w in
  failures_kept w w1
  ∧ ∃ w' o',
      mark_interface_failed (λ _, 9%Q) 0 [] w1 = (Ok tt, w')
      ∧ LoadBalancer.failed_interfaces (lb w') !! str "10.0.0.2" = Some 9%Q
      ∧ LoadBalancer.interfaces (lb w') !! 0 = Some o'
      ∧ NetworkInterface.status o' = str "FAILED".
Proof.
  apply (failures_outlast_successes (λ _, 9%Q) _ 0 eth0
           [MarkRequestSuccess 0; MarkRequestSuccess 0] []).
  - reflexivity.
  - reflexivity.
  - repeat constructor.
Defined.

(** ** No error escapes a session *)

(** The session is never cancelled while it awaits. *)
Definition uncancelled (s : Session) : Prop :=
  head s ≠ HeadRaised CancelledError
  ∧ drain_raises s ≠ Some CancelledError
  ∧ ∀ attempt host port i,
      open_connection s attempt host port i ≠ Some CancelledError.

(** The interface the session holds, if any, is one of the objects. *)
Definition lively (f : Frame) : Prop :=
  ∀ i, interface f = Some i →
       i < length (LoadBalancer.interfaces (lb (world f))).

(** A computation on the shared state that keeps the number of objects and
    does not raise [CancelledError]. *)
Definition tame {A} (c : St World A) : Prop :=
  ∀ w, length (LoadBalancer.interfaces (lb (snd (c w))))
       = length (LoadBalancer.interfaces (lb w))
       ∧ fst (c w) ≠ Raise CancelledError.

(** From a frame in [P], [c] returns some [a] in a frame in [Q a], or
    raises an exception other than [CancelledError] in a lively frame. *)
Definition obeys {A} (P : Frame → Prop) (c : St Frame A)
    (Q : A → Frame → Prop) : Prop :=
  ∀ f, P f →
    match c f with
    | (Ok a, f') => Q a f'
    | (Raise e, f') => lively f' ∧ e ≠ CancelledError
    end.

Definition orderly {A} (c : St Frame A) : Prop :=
  obeys lively c (λ _, lively).

Lemma obeys_bind {A B} (P : Frame → Prop) (c : St Frame A)
    (Q : A → Frame → Prop) (k : A → St Frame B) (Q' : B → Frame → Prop) :
  obeys P c Q → (∀ a, obeys (Q a) (k a) Q') → obeys P (bind c k) Q'.
Proof.
  intros Hc Hk f Hf. unfold bind. specialize (Hc f Hf).
  destruct (c f) as [[a|e] f']; [apply Hk, Hc | exact Hc].
Qed.

Lemma orderly_bind {A B} (c : St Frame A) (k : A → St Frame B) :
  orderly c → (∀ a, orderly (k a)) → orderly (bind c k).
Proof. intros Hc Hk. eapply obeys_bind; [exact Hc | exact Hk]. Qed.

Lemma orderly_ret {A} (a : A) : orderly (ret a).
Proof. intros f Hf. exact Hf. Qed.

Lemma orderly_raise {A} (e : exn) :
  e ≠ CancelledError → orderly (raise (A := A) e).
Proof. intros He f Hf. split; done. Qed.

Lemma orderly_get : orderly get.
Proof. intros f Hf. exact Hf. Qed.

Lemma orderly_try_except {A} (c : St Frame A) (h : exn → St Frame A) :
  orderly c → (∀ e, orderly (h e)) → orderly (try_except c h).
Proof.
  intros Hc Hh f Hf. unfold try_except. specialize (Hc f Hf).
  destruct (c f) as [[a|e] f']; [exact Hc|].
  destruct Hc as [Hl He]. destruct e; try (apply Hh, Hl). done.
Qed.

Lemma orderly_lift {A} (c : St World A) : tame c → orderly (lift c).
Proof.
  intros Hc f Hf. unfold lift. destruct (Hc (world f)) as [Hlen Hres].
  destruct (c (world f)) as [[a|e] w']; simpl in *.
  - intros i Hi. simpl in *. rewrite Hlen. apply Hf, Hi.
  - split; [|congruence]. intros i Hi. simpl in *. rewrite Hlen. apply Hf, Hi.
Qed.

Section Absorbed.

Variable clock : nat → Q.

Lemma exec_length (o : op) (w : World) :
  length (LoadBalancer.interfaces (lb (snd (exec clock o w))))
  = length (LoadBalancer.interfaces (lb w)).
Proof.
  symmetry. exact (Forall2_length _ _ _ (run_ops_evolves clock [o] w)).
Qed.

Lemma run_ops_length (ops : list op) (w : World) :
  length (LoadBalancer.interfaces (lb (run_ops clock ops w)))
  = length (LoadBalancer.interfaces (lb w)).
Proof.
  symmetry. exact (Forall2_length _ _ _ (run_ops_evolves clock ops w)).
Qed.

Lemma tame_mark_interface_failed r error :
  tame (mark_interface_failed clock r error).
Proof.
  intros w. split; [exact (exec_length (MarkInterfaceFailed r error) w)|].
  destruct (LoadBalancer.interfaces (lb w) !! r) as [o|] eqn:Ho.
  - destruct (mark_interface_failed_run clock w r o error Ho)
      as (w' & _ & -> & _). done.
  - rewrite mark_interface_failed_dangling by done. done.
Qed.

Lemma tame_get_best_interface : tame (get_best_interface clock).
Proof.
  intros w. split.
  - pose proof (exec_length GetBestInterface w) as H. cbn [exec] in H.
    unfold bind in H.
    destruct (get_best_interface clock w) as [[r|e] w']; exact H.
  - destruct (valid_interfaces (lb w)) as [|v vs] eqn:Ev.
    + destruct (get_best_interface_raises clock w Ev) as [msg ->]. done.
    + destruct (get_best_interface_returns clock w) as (r & w' & -> & _);
        [rewrite Ev|]; done.
Qed.

Lemma tame_time_time : tame (time_time clock).
Proof. intros w. done. Qed.

Lemma tame_report_stats : tame (report_stats clock).
Proof.
  intros w. split; [exact (exec_length ReportStats w)|].
  unfold report_stats, bind, time_time, get. cbn [lb tick].
  destruct (Qlt_le_dec _ _); done.
Qed.

Lemma tame_with_interface {A} (r : nat) (m : St NetworkInterface.t A) :
  (∀ o, fst (m o) ≠ Raise CancelledError) → tame (with_interface r m).
Proof.
  intros Hm w. unfold with_interface.
  destruct (LoadBalancer.interfaces (lb w) !! r) as [o|]; [|done].
  specialize (Hm o). destruct (m o) as [res o']. simpl in *.
  split; [apply length_insert | exact Hm].
Qed.

Lemma tame_update_stats r b t :
  tame (with_interface r (NetworkInterface.update_stats b t)).
Proof.
  apply tame_with_interface. intros o.
  unfold NetworkInterface.update_stats, bind, modify, get.
  cbn -[Z.add Z.eqb].
  destruct (NetworkInterface.total_requests o + 1 =? 0)%Z; done.
Qed.

Lemma tame_emit p data : tame (modify (emit p data)).
Proof. intros w. done. Qed.

Variable int : pystr → result Z.
Variable urlparse : pystr → result ParseResult.
Variable decode : bytes → pystr.
Variable s : Session.
Hypothesis never_cancelled : uncancelled s.

Lemma orderly_await p : orderly (await clock s p).
Proof.
  apply orderly_lift. intros w. split; [apply run_ops_length | done].
Qed.

Lemma orderly_drain p : orderly (drain clock s p).
Proof.
  unfold drain. apply orderly_bind; [apply orderly_await | intros _].
  destruct (drain_raises s) as [e|] eqn:E; [|apply orderly_ret].
  apply orderly_raise. intros ->. by apply never_cancelled.
Qed.

Lemma orderly_create_task dst chunks stop :
  orderly (create_task (forward dst chunks stop)).
Proof.
  intros f Hf. unfold create_task.
  pose proof (forward_world dst chunks stop (world f)) as Hw.
  destruct (forward dst chunks stop (world f)) as [r w']. cbn [snd] in Hw.
  intros i Hi. cbn [world interface] in *. rewrite Hw. apply Hf, Hi.
Qed.

(** Selection hands the session a reference to one of the objects. *)
Lemma obeys_get_best_interface :
  obeys lively (lift (get_best_interface clock))
    (λ i f, i < length (LoadBalancer.interfaces (lb (world f)))).
Proof.
  intros f Hf. unfold lift.
  destruct (tame_get_best_interface (world f)) as [Hlen Hres].
  destruct (valid_interfaces (lb (world f))) as [|v vs] eqn:Ev.
  - destruct (get_best_interface_raises clock (world f) Ev) as [msg E].
    rewrite E in *. simpl. split; done.
  - destruct (get_best_interface_returns clock (world f)) as (r & w' & E & Hin);
      [rewrite Ev; done|].
    rewrite E in *. simpl in *. rewrite Hlen.
    apply valid_interfaces_elem in Hin as (o & Ho & _).
    by apply lookup_lt_Some in Ho.
Qed.

Lemma obeys_set_interface (i : nat) :
  obeys (λ f, i < length (LoadBalancer.interfaces (lb (world f))))
    (set_interface i) (λ _, lively).
Proof. intros f Hf j [= <-]. exact Hf. Qed.

Lemma orderly_try_all host port n : ∀ attempt,
  orderly (try_all clock s host port n attempt).
Proof.
  induction n as [|n IH]; intros attempt; cbn [try_all]; [apply orderly_ret|].
  apply orderly_bind; [apply orderly_get | intros f].
  destruct (interface f) as [i|]; [| by apply orderly_raise].
  apply orderly_bind; [apply orderly_await | intros _].
  assert (Hretry : ∀ e, orderly
            (lift (mark_interface_failed clock i (str_of_exn e)) ;;;
             i' <- lift (get_best_interface clock) ;;
             set_interface i' ;;; try_all clock s host port n (S attempt))).
  { intros e.
    apply orderly_bind;
      [apply orderly_lift, tame_mark_interface_failed | intros _].
    eapply obeys_bind; [apply obeys_get_best_interface | intros i'].
    eapply obeys_bind; [apply obeys_set_interface | intros ?]. apply IH. }
  destruct (open_connection s attempt host port i) as [e|] eqn:E.
  - destruct e; try apply Hretry.
    exfalso. by apply never_cancelled in E.
  - intros f' Hf'. exact Hf'.
Qed.

Lemma orderly_session_parsed t request_data method host port :
  orderly (session_parsed clock s t 0%Z request_data method host port).
Proof.
  unfold session_parsed.
  apply orderly_bind; [apply orderly_lift; intros w; done | intros w].
  apply orderly_bind; [apply orderly_try_all | intros _].
  apply orderly_bind; [apply orderly_get | intros f1].
  destruct (negb (remote_writer f1)).
  { apply orderly_bind; [apply orderly_lift, tame_emit | intros _].
    apply orderly_drain. }
  apply orderly_bind.
  { apply orderly_try_except; [| intros; apply orderly_ret].
    apply orderly_bind.
    { destruct (bool_decide _); apply orderly_lift, tame_emit. }
    intros _. apply orderly_bind; [apply orderly_drain | intros _].
    apply orderly_bind; [apply orderly_create_task | intros _].
    apply orderly_bind; [apply orderly_create_task | intros _].
    apply orderly_await. }
  intros _.
  apply orderly_bind; [apply orderly_lift, tame_time_time | intros end_time].
  cbv zeta.
  apply orderly_bind; [apply orderly_get | intros f2].
  destruct (interface f2) as [i|]; [| by apply orderly_raise].
  apply orderly_bind; [apply orderly_lift, tame_update_stats | intros _].
  apply orderly_bind; [apply orderly_lift, tame_report_stats | intros _].
  destruct (remote_writer f2); [| apply orderly_ret].
  apply orderly_lift, tame_with_interface. done.
Qed.

Lemma orderly_session_body t :
  orderly (session_body clock int urlparse decode s t 0%Z).
Proof.
  intros f0 Hf0. unfold session_body.
  pose proof (obeys_get_best_interface f0 Hf0) as Hsel.
  pose proof (orderly_lift _ tame_get_best_interface f0 Hf0) as Hlive.
  destruct (lift (get_best_interface clock) f0) as [[i|e] f].
  - unfold session_selected.
    assert (Hrest : orderly
              (await clock s AwaitHead ;;;
               match head s with
               | HeadData request_data =>
                   match quick_parse int urlparse (decode request_data) with
                   | Some (method, host, port) =>
                       session_parsed clock s t 0%Z request_data method host port
                   | None => ret tt
                   end
               | HeadRaised TimeoutError => ret tt
               | HeadRaised e => raise e
               end)).
    { apply orderly_bind; [apply orderly_await | intros _].
      destruct (head s) as [request_data|e] eqn:E.
      - destruct (quick_parse _ _ _) as [[[method host] port]|];
          [apply orderly_session_parsed | apply orderly_ret].
      - destruct e; try (by apply orderly_raise); [apply orderly_ret|].
        exfalso. by apply never_cancelled in E. }
    exact (obeys_bind _ _ _ _ _ (obeys_set_interface i) (λ _, Hrest) f Hsel).
  - destruct Hlive as [Hl He].
    assert (Hany : lively f ∧ e ≠ CancelledError) by done.
    destruct e; try exact Hany.
    apply (orderly_bind (lift (modify (emit Client response_503)))
             (λ _, drain clock s AwaitDrain503));
      [apply orderly_lift, tame_emit | intros _; apply orderly_drain | exact Hl].
Qed.

(** The [except] block returns. *)
Lemma session_except_returns e f :
  lively f → ∃ f', session_except clock e f = (Ok tt, f') ∧ lively f'.
Proof.
  intros Hf. unfold session_except, bind, get.
  destruct (interface f) as [i|] eqn:Hi; [|exists f; done].
  destruct (lookup_lt_is_Some_2 _ _ (Hf i Hi)) as [o Ho].
  destruct (mark_interface_failed_run clock (world f) i o (str_of_exn e) Ho)
    as (w' & _ & Hrun & _).
  pose proof (proj1 (tame_mark_interface_failed i (str_of_exn e) (world f)))
    as Hlen.
  unfold lift. rewrite Hrun in *. eexists. split; [reflexivity|].
  intros j Hj. simpl in *. rewrite Hlen. apply Hf. congruence.
Qed.

(** The [finally] block returns. *)
Lemma session_finally_returns f :
  lively f → ∃ f', session_finally clock s f = (Ok tt, f').
Proof.
  intros Hf. unfold session_finally, bind at 1, get at 1. cbn beta iota.
  unfold bind at 1.
  destruct (interface f) as [i|] eqn:Hi.
  - destruct (lookup_lt_is_Some_2 _ _ (Hf i Hi)) as [o Ho].
    unfold lift at 1, release, with_interface. rewrite Ho. simpl.
    eexists. reflexivity.
  - simpl. eexists. reflexivity.
Qed.

Lemma handle_client_returns (w : World) :
  fst (handle_client clock int urlparse decode s w) = Ok tt.
Proof.
  unfold handle_client, bind at 1, time_time at 1. cbn beta iota zeta.
  set (f0 := mkFrame (tick w) None false).
  assert (Hf0 : lively f0) by (intros i Hi; discriminate).
  pose proof (orderly_session_body (clock (ticks w)) f0 Hf0) as Hbody.
  unfold try_finally, try_except.
  destruct (session_body _ _ _ _ _ _ _ f0) as [[[]|e] f1].
  - destruct (session_finally_returns f1 Hbody) as [f2 ->]. done.
  - destruct Hbody as [Hl He].
    destruct (session_except_returns e f1 Hl) as (f2 & Hexc & Hl2).
    destruct (session_finally_returns f2 Hl2) as [f3 Hfin].
    destruct e; try done; rewrite Hexc, Hfin; done.
Qed.

End Absorbed.

(** X11.  A session that is not cancelled while it awaits returns: whatever
    goes wrong in it (selection, reading or parsing the head, connecting,
    relaying, the statistics) and whatever the other sessions do meanwhile,
    [handle_client] raises nothing. *)
Theorem handle_client_absorbs_errors (clock : nat → Q)
    (int : pystr → result Z) (urlparse : pystr → result ParseResult)
    (decode : bytes → pystr) (s : Session) (w : World) :
  uncancelled s →
  fst (handle_client clock int urlparse decode s w) = Ok tt.
Proof. intros Hs. by apply handle_client_returns. Qed.

Lemma handle_client_absorbs_errors_witness :
  fst (handle_client (λ _, 0%Q) int_sample urlparse_sample decode_ascii
         refused two_nics) = Ok tt.
Proof.
  apply handle_client_absorbs_errors.
  split; [discriminate|]. split; [discriminate|]. intros. discriminate.
Defined.

(** ** What a session that connects writes *)

Global Instance peer_eq_dec : EqDecision peer.
Proof. solve_decision. Defined.

(** The chunks written to [p], oldest first. *)
Definition written_to (p : peer) (out : list (peer * bytes)) : list bytes :=
  snd <$> filter (λ x, fst x = p) out.

Lemma written_to_app p out out' :
  written_to p (out ++ out') = written_to p out ++ written_to p out'.
Proof. unfold written_to. rewrite filter_app, fmap_app. done. Qed.

Lemma written_to_map p dst (chunks : list bytes) :
  written_to p (map (λ data, (dst, data)) chunks)
  = if decide (dst = p) then chunks else [].
Proof.
  unfold written_to. induction chunks as [|data chunks IH].
  { by destruct (decide _). }
  cbn [map]. rewrite filter_cons. cbn [fst].
  destruct (decide (dst = p)); [cbn [fmap list_fmap snd]; f_equal|]; exact IH.
Qed.

Section Connected.

Variable clock : nat → Q.
Variable int : pystr → result Z.
Variable urlparse : pystr → result ParseResult.
Variable decode : bytes → pystr.
Variable s : Session.
Hypothesis others_background : ∀ p, Forall background (others s p).

(** The loop of connect attempts when attempt [attempt + k] is the first
    to succeed. *)
Lemma try_all_connects host port (k : nat) : ∀ n attempt f i,
  interface f = Some i →
  i ∈ valid_interfaces (lb (world f)) →
  k < n →
  (∀ j i', attempt ≤ j < attempt + k →
     ∃ e, open_connection s j host port i' = Some e ∧ e ≠ CancelledError) →
  (∀ i', open_connection s (attempt + k) host port i' = None) →
  ∃ f' i',
    try_all clock s host port n attempt f = (Ok tt, f')
    ∧ remote_writer f' = true
    ∧ interface f' = Some i'
    ∧ i' ∈ valid_interfaces (lb (world f'))
    ∧ calm (world f) (world f').
Proof.
  induction k as [|k IH]; intros n attempt f i Hi Hin Hk Hfail Hok.
  - destruct n as [|n]; [lia|]. rewrite Nat.add_0_r in Hok.
    pose proof (resumed_calm clock s others_background
                  (AwaitConnect attempt) f) as Hc0.
    cbn [try_all]. unfold bind at 1, get at 1. cbn beta iota. rewrite Hi.
    unfold bind at 1. rewrite await_run. cbn beta iota. rewrite Hok.
    eexists _, i. split; [reflexivity|]. cbn [remote_writer interface world].
    split; [done|]. split; [done|]. split; [|exact Hc0].
    rewrite (calm_valid _ _ Hc0). exact Hin.
  - destruct n as [|n]; [lia|].
    destruct (Hfail attempt i ltac:(lia)) as (e & He & Hne).
    rewrite (try_all_retry clock s _ _ _ _ _ _ _ Hi He Hne).
    pose proof (resumed_calm clock s others_background
                  (AwaitConnect attempt) f) as Hc0.
    set (f0 := resumed clock s (AwaitConnect attempt) f) in *.
    assert (Hin0 : i ∈ valid_interfaces (lb (world f0)))
      by (rewrite (calm_valid _ _ Hc0); done).
    pose proof Hin0 as Hlive.
    apply valid_interfaces_elem in Hlive as (o & Ho & _).
    destruct (mark_interface_failed_run clock (world f0) i o (str_of_exn e) Ho)
      as (w1 & _ & Hmark & _).
    pose proof (mark_interface_failed_calm clock i (str_of_exn e) (world f0))
      as Hc1.
    rewrite Hmark in Hc1. cbn [snd] in Hc1.
    unfold bind at 1, lift at 1. rewrite Hmark. cbn beta iota.
    assert (Hne1 : valid_interfaces (lb w1) ≠ []).
    { rewrite (calm_valid _ _ Hc1). intros E. rewrite E in Hin0.
      by apply not_elem_of_nil in Hin0. }
    destruct (get_best_interface_returns clock w1 Hne1)
      as (i1 & w2 & Hsel & Hin1).
    pose proof (get_best_interface_settled clock w1) as [Hc2 _].
    rewrite Hsel in Hc2. cbn [snd] in Hc2.
    unfold bind at 1, lift at 1. cbn [world]. rewrite Hsel. cbn beta iota.
    unfold bind at 1, set_interface at 1, modify at 1. cbn beta iota.
    cbn [world interface remote_writer].
    destruct (IH n (S attempt) (mkFrame w2 (Some i1) (remote_writer f0)) i1)
      as (f' & i' & Hrun & Hrw & Hi' & Hin' & Hc3).
    + done.
    + simpl. rewrite (calm_valid _ _ Hc2). done.
    + lia.
    + intros j i'' Hj. apply Hfail. lia.
    + intros i''. replace (S attempt + k) with (attempt + S k) by lia.
      apply Hok.
    + exists f', i'. split; [exact Hrun|]. split; [done|]. split; [done|].
      split; [done|]. simpl in Hc3.
      etrans; [exact Hc0|]. etrans; [exact Hc1|].
      etrans; [exact Hc2 | exact Hc3].
Qed.

(** Lines 350-383: the handshake, the two pumps, the wait. *)
Definition relay (request_data : bytes) (method : pystr) : St Frame unit :=
  try_except
    ((if bool_decide (method = str "CONNECT")
      then lift (modify (emit Client response_200))
      else lift (modify (emit Remote request_data))) ;;;
     drain clock s AwaitHandshake ;;;
     client_to_server <-
       create_task (forward Remote (client_chunks s) (client_stop s)) ;;
     server_to_client <-
       create_task (forward Client (remote_chunks s) (remote_stop s)) ;;
     await clock s AwaitTunnel)
    (λ _, ret tt).

(** Lines 385-395: the statistics of a session that got as far as the
    connect attempts. *)
Definition account (start_time : Q) (bytes_transferred : Z) : St Frame unit :=
  end_time <- lift (time_time clock) ;;
  let response_time := (end_time - start_time)%Q in
  f <- get ;;
  match interface f with
  | None => raise NoSuchObject
  | Some i =>
      lift (with_interface i
              (NetworkInterface.update_stats
                 bytes_transferred response_time)) ;;;
      lift (report_stats clock) ;;;
      if remote_writer f
      then lift (with_interface i NetworkInterface.mark_request_success)
      else ret tt
  end.

Lemma session_parsed_connected t request_data method host port f :
  remote_writer (snd (try_all clock s host port
                        (length (LoadBalancer.interfaces (lb (world f)))) 0 f))
  = true →
  fst (try_all clock s host port
         (length (LoadBalancer.interfaces (lb (world f)))) 0 f) = Ok tt →
  session_parsed clock s t 0%Z request_data method host port f
  = (relay request_data method ;;; account t 0%Z)
      (snd (try_all clock s host port
              (length (LoadBalancer.interfaces (lb (world f)))) 0 f)).
Proof.
  intros Hrw Hok. unfold session_parsed.
  unfold bind at 1, lift at 1, get at 1. cbn beta iota.
  replace (mkFrame (world f) (interface f) (remote_writer f)) with f
    by (destruct f; done).
  unfold bind at 1.
  destruct (try_all _ _ _ _ _ _ f) as [[[]|e] f1]; [|done].
  cbn [snd] in *. unfold bind at 1, get at 1. cbn beta iota.
  rewrite Hrw. done.
Qed.

(** What the handshake and the pumps write. *)
Definition relayed (request_data : bytes) (method : pystr)
  : list (peer * bytes) :=
  (if bool_decide (method = str "CONNECT")
   then (Client, response_200) else (Remote, request_data))
  :: match drain_raises s with
     | Some _ => []
     | None =>
         map (λ data, (Remote, data))
             (delivered (client_chunks s) (client_stop s))
         ++ map (λ data, (Client, data))
                (delivered (remote_chunks s) (remote_stop s))
     end.

Lemma relay_run request_data method f :
  let f' := snd (relay request_data method f) in
  sent (world f') = sent (world f) ++ relayed request_data method
  ∧ interface f' = interface f
  ∧ remote_writer f' = remote_writer f
  ∧ reach_frame clock f f'
  ∧ (drain_raises s ≠ Some CancelledError →
     fst (relay request_data method f) = Ok tt).
Proof.
  set (shake := if bool_decide (method = str "CONNECT")
                then (Client, response_200) else (Remote, request_data)).
  set (f1 := mkFrame (emit (fst shake) (snd shake) (world f))
                     (interface f) (remote_writer f)).
  assert (Hshake :
    (if bool_decide (method = str "CONNECT")
     then lift (modify (emit Client response_200))
     else lift (modify (emit Remote request_data))) f = (Ok tt, f1)).
  { subst f1 shake. destruct (bool_decide _); done. }
  assert (Hr1 : reach_frame clock f f1).
  { exact (reach_exec clock (Write (fst shake) (snd shake)) (world f) I). }
  pose proof (await_reach clock s others_background AwaitHandshake f1) as Hr2.
  pose proof (resumed_calm clock s others_background AwaitHandshake f1) as Hc2.
  rewrite await_run in Hr2. cbn [snd] in Hr2.
  set (f2 := resumed clock s AwaitHandshake f1) in *.
  assert (Hs2 : sent (world f2) = sent (world f) ++ [shake]).
  { rewrite (calm_sent _ _ Hc2). subst f1 shake. cbn [world emit sent].
    by destruct (bool_decide _). }
  unfold relayed. fold shake. cbv zeta.
  destruct (relay request_data method f) as [r fe] eqn:Hrun. cbn [fst snd].
  unfold relay, try_except, bind at 1 in Hrun. rewrite Hshake in Hrun.
  unfold bind at 1, drain at 1, bind at 1 in Hrun.
  rewrite await_run in Hrun. fold f2 in Hrun.
  destruct (drain_raises s) as [e|].
  { assert (Hfe : fe = f2) by (destruct e; injection Hrun as _ <-; done).
    subst fe.
    split; [exact Hs2|]. split; [done|]. split; [done|].
    split; [etrans; [exact Hr1 | exact Hr2]|].
    intros Hne. destruct e; injection Hrun as <-; done. }
  cbn [ret] in Hrun. unfold bind at 1, create_task at 1 in Hrun.
  pose proof (forward_world Remote (client_chunks s) (client_stop s) (world f2))
    as Hw3.
  pose proof (forward_from_reach clock Remote (client_chunks s) (client_stop s)
                0 (world f2)) as Hr3.
  fold (forward Remote (client_chunks s) (client_stop s)) in Hr3.
  destruct (forward Remote (client_chunks s) (client_stop s) (world f2))
    as [r3 w3]. cbn [snd] in Hw3, Hr3. cbn beta iota in Hrun.
  unfold bind at 1, create_task at 1 in Hrun.
  cbn [world interface remote_writer] in Hrun.
  pose proof (forward_world Client (remote_chunks s) (remote_stop s) w3)
    as Hw4.
  pose proof (forward_from_reach clock Client (remote_chunks s) (remote_stop s)
                0 w3) as Hr4.
  fold (forward Client (remote_chunks s) (remote_stop s)) in Hr4.
  destruct (forward Client (remote_chunks s) (remote_stop s) w3) as [r4 w4].
  cbn [snd] in Hw4, Hr4. cbn beta iota in Hrun. rewrite await_run in Hrun.
  injection Hrun as <- <-.
  set (f4 := mkFrame w4 (interface f) (remote_writer f)).
  pose proof (await_reach clock s others_background AwaitTunnel f4) as Hr5.
  pose proof (resumed_calm clock s others_background AwaitTunnel f4) as Hc5.
  rewrite await_run in Hr5. cbn [snd] in Hr5.
  split.
  { rewrite (calm_sent _ _ Hc5). subst f4. cbn [world].
    rewrite Hw4. cbn [sent]. rewrite Hw3. cbn [sent]. rewrite Hs2.
    rewrite <- !app_assoc. done. }
  split; [done|]. split; [done|]. split; [|done].
  etrans; [exact Hr1|]. etrans; [exact Hr2|].
  etrans; [|exact Hr5]. unfold reach_frame. subst f4. cbn [world].
  etrans; [exact Hr3 | exact Hr4].
Qed.

Lemma account_calm t : keeps calm_frame (account t 0%Z).
Proof.
  unfold account.
  apply keeps_bind; [apply _ | | intros end_time].
  { apply lift_calm, settled_calm, time_time_settled. }
  cbv zeta.
  apply keeps_bind; [apply _ | apply keeps_get; apply _ | intros f].
  destruct (interface f) as [i|]; [| apply keeps_raise; apply _].
  apply keeps_bind; [apply _ | | intros _].
  { apply lift_calm, settled_calm, with_interface_settled, gentle_update_stats. }
  apply keeps_bind; [apply _ | | intros _].
  { apply lift_calm, settled_calm, report_stats_settled. }
  destruct (remote_writer f); [| apply keeps_ret; apply _].
  apply lift_calm, settled_calm, with_interface_settled,
    gentle_mark_request_success.
Qed.

End Connected.

Lemma written_to_cons p q (data : bytes) out :
  written_to p ((q, data) :: out)
  = (if decide (q = p) then [data] else []) ++ written_to p out.
Proof.
  unfold written_to. rewrite filter_cons. cbn [fst].
  destruct (decide (q = p)); done.
Qed.

(** X12.  A session whose request head parses and whose connect attempt
    number [k] is the first to succeed, whatever the other sessions do at
    its awaits.  Nothing else is written than what follows.  The client
    receives the 200 response if the method is CONNECT, and then, if the
    [drain] of the handshake went through, what the pump from the origin
    delivers; the origin receives the request head as it was read if the
    method is not CONNECT, and then what the pump from the client delivers.
    *)
Theorem tunnel_relays (clock : nat → Q) (int : pystr → result Z)
    (urlparse : pystr → result ParseResult) (decode : bytes → pystr)
    (s : Session) (w : World) (request_data : bytes) (method host : pystr)
    (port : Z) (k : nat) :
  (∀ p, Forall background (others s p)) →
  valid_interfaces (lb w) ≠ [] →
  head s = HeadData request_data →
  quick_parse int urlparse (decode request_data) = Some (method, host, port) →
  k < length (LoadBalancer.interfaces (lb w)) →
  (∀ j i, j < k →
     ∃ e, open_connection s j host port i = Some e ∧ e ≠ CancelledError) →
  (∀ i, open_connection s k host port i = None) →
  ∃ out,
    sent (snd (handle_client clock int urlparse decode s w)) = sent w ++ out
    ∧ written_to Client out
      = (if bool_decide (method = str "CONNECT") then [response_200] else [])
        ++ match drain_raises s with
           | None => delivered (remote_chunks s) (remote_stop s)
           | Some _ => []
           end
    ∧ written_to Remote out
      = (if bool_decide (method = str "CONNECT") then [] else [request_data])
        ++ match drain_raises s with
           | None => delivered (client_chunks s) (client_stop s)
           | Some _ => []
           end.
Proof.
  intros Hs Hne Hhead Hparse Hk Hfail Hok.
  exists (relayed s request_data method). split.
  - apply (handle_client_sent _ _ _ _ _ Hs).
    destruct (session_body_picked clock int urlparse decode s
                (clock (ticks w)) (tick w) Hne)
      as (i & w1 & Hsel & Hin & Hsent & Hlen & Hbody).
    pose proof (resumed_calm clock s Hs AwaitHead (mkFrame w1 (Some i) false))
      as Hc0.
    rewrite Hbody, session_selected_head, Hhead, Hparse.
    set (f0 := resumed clock s AwaitHead (mkFrame w1 (Some i) false)) in *.
    assert (Hsent0 : sent (world f0) = sent w).
    { rewrite (calm_sent _ _ Hc0). cbn [world]. rewrite Hsent. done. }
    destruct (try_all_connects clock s Hs host port k
                (length (LoadBalancer.interfaces (lb (world f0)))) 0 f0 i)
      as (f1 & i1 & Hrun & Hrw & Hi1 & Hin1 & Hc1).
    + done.
    + rewrite (calm_valid _ _ Hc0). done.
    + rewrite (calm_length _ _ Hc0). cbn [world]. rewrite Hlen. exact Hk.
    + intros j i' Hj. apply Hfail. lia.
    + exact Hok.
    + rewrite session_parsed_connected by (rewrite Hrun; done).
      rewrite Hrun. cbn [snd].
      destruct (relay_run clock s Hs request_data method f1)
        as (Hout & _ & _ & _ & _).
      unfold bind.
      destruct (relay clock s request_data method f1) as [[[]|e] f2];
        cbn [snd] in Hout.
      * rewrite (calm_sent _ _ (account_calm clock (clock (ticks w)) f2)).
        rewrite Hout, (calm_sent _ _ Hc1), Hsent0. done.
      * cbn [snd]. rewrite Hout, (calm_sent _ _ Hc1), Hsent0. done.
  - unfold relayed.
    destruct (bool_decide (method = str "CONNECT"));
      destruct (drain_raises s);
      rewrite !written_to_cons, ?written_to_app, ?written_to_map;
      repeat match goal with
             | |- context [decide (?a = ?b)] => destruct (decide (a = b))
             end;
      try done; rewrite ?app_nil_r; done.
Qed.

Lemma tunnel_relays_witness :
  ∃ out,
    sent (snd (handle_client (λ _, 0%Q) int_sample urlparse_sample
                 decode_ascii tunnel two_nics)) = sent two_nics ++ out
    ∧ written_to Client out = [response_200; blit "worldly"]
    ∧ written_to Remote out = [blit "hello"].
Proof.
  destruct (tunnel_relays (λ _, 0%Q) int_sample urlparse_sample decode_ascii
              tunnel two_nics
              (blit "CONNECT example.com:443 HTTP/1.1"
               ++ [Byte.x0d; Byte.x0a; Byte.x0d; Byte.x0a])
              (str "CONNECT") (str "example.com") 443%Z 0)
    as (out & Hout & Hclient & Hremote).
  - intros p. apply List.Forall_nil.
  - discriminate.
  - reflexivity.
  - reflexivity.
  - simpl. lia.
  - intros j i Hj. lia.
  - reflexivity.
  - exists out. split; [exact Hout|]. split; [exact Hclient | exact Hremote].
Defined.

(** ** What a session that connects counts *)

Section Counted.

Variable clock : nat → Q.
Variable int : pystr → result Z.
Variable urlparse : pystr → result ParseResult.
Variable decode : bytes → pystr.
Variable s : Session.
Hypothesis others_background : ∀ p, Forall background (others s p).

(** The statistics of a connected session on an object whose request count
    is not negative. *)
Lemma account_run t f i o :
  interface f = Some i →
  remote_writer f = true →
  LoadBalancer.interfaces (lb (world f)) !! i = Some o →
  (0 ≤ NetworkInterface.total_requests o)%Z →
  ∃ f' o',
    account clock t 0%Z f = (Ok tt, f')
    ∧ interface f' = Some i
    ∧ LoadBalancer.interfaces (lb (world f')) !! i = Some o'
    ∧ NetworkInterface.total_requests o'
      = (NetworkInterface.total_requests o + 2)%Z
    ∧ NetworkInterface.successful_requests o'
      = (NetworkInterface.successful_requests o + 1)%Z
    ∧ NetworkInterface.failed_requests o' = NetworkInterface.failed_requests o.
Proof.
  intros Hi Hrw Ho Hn.
  pose proof (lookup_lt_Some _ _ _ Ho) as Hlt.
  unfold account. unfold bind at 1, lift at 1, time_time at 1.
  cbn beta iota zeta. unfold bind at 1, get at 1. cbn beta iota.
  cbn [interface remote_writer world]. rewrite Hi, Hrw.
  set (rt := (clock (ticks (world f)) - t)%Q).
  destruct (update_stats_run 0 rt o Hn) as (o1 & Hup & Ht1 & _ & _).
  assert (Hs1 : NetworkInterface.successful_requests o1
                = NetworkInterface.successful_requests o
                ∧ NetworkInterface.failed_requests o1
                  = NetworkInterface.failed_requests o).
  { revert Hup. unfold NetworkInterface.update_stats, bind, modify, get.
    cbn -[Z.add Z.eqb Z.sub Qmult Qplus Qdiv inject_Z].
    destruct (_ =? 0)%Z; intros [= <-]; done. }
  unfold bind at 1, lift at 1, with_interface at 1. cbn [world lb tick].
  rewrite Ho, Hup. cbn beta iota.
  unfold bind at 1, lift at 1. cbn [world].
  set (w1 := upd_lb _ (tick (world f))).
  assert (Hrep : ∃ w2, report_stats clock w1 = (Ok tt, w2)
                       ∧ LoadBalancer.interfaces (lb w2)
                         = <[i := o1]> (LoadBalancer.interfaces (lb (world f)))).
  { unfold report_stats, bind, time_time, get. cbn [lb tick].
    destruct (Qlt_le_dec _ _); eexists; (split; [reflexivity | done]). }
  destruct Hrep as (w2 & -> & Hw2). cbn beta iota.
  unfold lift, with_interface. cbn [world]. rewrite Hw2.
  rewrite list_lookup_insert_eq by done. cbn.
  eexists _, _. split; [reflexivity|]. cbn [interface world lb upd_lb].
  split; [done|]. cbn [LoadBalancer.interfaces LoadBalancer.set_interfaces].
  split; [apply list_lookup_insert_eq; rewrite Hw2, length_insert; done|].
  cbn. destruct Hs1 as [-> ->]. rewrite Ht1. split; [lia | done].
Qed.

Lemma reach_evolves (w w' : World) :
  reach clock w w' → objectwise evolves w w'.
Proof. intros (ops & _ & ->). apply run_ops_evolves. Qed.

(** A session whose body returns ends with its [finally] block. *)
Lemma handle_client_body_returned (w : World) (f1 : Frame) :
  session_body clock int urlparse decode s (clock (ticks w)) 0%Z
    (mkFrame (tick w) None false) = (Ok tt, f1) →
  handle_client clock int urlparse decode s w
  = (fst (session_finally clock s f1),
     world (snd (session_finally clock s f1))).
Proof.
  intros Hbody. unfold handle_client, bind at 1, time_time at 1.
  cbn beta iota zeta. unfold try_finally, try_except. rewrite Hbody.
  destruct (session_finally clock s f1) as [[[]|e] f2]; done.
Qed.

End Counted.

(** X13.  A session whose request head parses and whose connect attempt
    number [k] is the first to succeed, and which is not cancelled at the
    handshake, returns, whatever the other sessions do at its awaits; and it
    is counted twice: the interface it ends on has [total_requests] up by at
    least 2 ([update_stats] and [mark_request_success] each add one) and
    [successful_requests] up by at least 1, so that [total_requests] has
    moved at least one further away from the sum of the successes and the
    failures. *)
Theorem connected_session_counted_twice (clock : nat → Q)
    (int : pystr → result Z) (urlparse : pystr → result ParseResult)
    (decode : bytes → pystr) (s : Session) (w : World)
    (request_data : bytes) (method host : pystr) (port : Z) (k : nat) :
  (∀ p, Forall background (others s p)) →
  Forall tallied (LoadBalancer.interfaces (lb w)) →
  valid_interfaces (lb w) ≠ [] →
  head s = HeadData request_data →
  quick_parse int urlparse (decode request_data) = Some (method, host, port) →
  k < length (LoadBalancer.interfaces (lb w)) →
  (∀ j i, j < k →
     ∃ e, open_connection s j host port i = Some e ∧ e ≠ CancelledError) →
  (∀ i, open_connection s k host port i = None) →
  drain_raises s ≠ Some CancelledError →
  let w' := snd (handle_client clock int urlparse decode s w) in
  fst (handle_client clock int urlparse decode s w) = Ok tt
  ∧ ∃ i o o',
      i ∈ valid_interfaces (lb w)
      ∧ LoadBalancer.interfaces (lb w) !! i = Some o
      ∧ LoadBalancer.interfaces (lb w') !! i = Some o'
      ∧ (NetworkInterface.total_requests o + 2
         ≤ NetworkInterface.total_requests o')%Z
      ∧ (NetworkInterface.successful_requests o + 1
         ≤ NetworkInterface.successful_requests o')%Z
      ∧ (NetworkInterface.total_requests o
         - NetworkInterface.successful_requests o
         - NetworkInterface.failed_requests o + 1
         ≤ NetworkInterface.total_requests o'
           - NetworkInterface.successful_requests o'
           - NetworkInterface.failed_requests o')%Z.
Proof.
  intros Hs Htal Hne Hhead Hparse Hk Hfail Hok Hdrain w'.
  destruct (session_body_picked clock int urlparse decode s
              (clock (ticks w)) (tick w) Hne)
    as (i & w1 & Hsel & Hin & Hsent & Hlen & Hbody).
  pose proof (get_best_interface_reach clock (tick w)) as Hr0.
  pose proof (get_best_interface_settled clock (tick w)) as [Hcsel _].
  rewrite Hsel in Hr0, Hcsel. cbn [snd] in Hr0, Hcsel.
  pose proof (resumed_calm clock s Hs AwaitHead (mkFrame w1 (Some i) false))
    as Hc0.
  pose proof (await_reach clock s Hs AwaitHead (mkFrame w1 (Some i) false))
    as Hr1.
  rewrite await_run in Hr1. cbn [snd] in Hr1.
  rewrite session_selected_head, Hhead, Hparse in Hbody.
  set (f0 := resumed clock s AwaitHead (mkFrame w1 (Some i) false)) in *.
  destruct (try_all_connects clock s Hs host port k
              (length (LoadBalancer.interfaces (lb (world f0)))) 0 f0 i)
    as (f1 & i1 & Hrun & Hrw & Hi1 & Hin1 & Hc1).
  { done. }
  { rewrite (calm_valid _ _ Hc0). done. }
  { rewrite (calm_length _ _ Hc0). cbn [world]. rewrite Hlen. exact Hk. }
  { intros j i' Hj. apply Hfail. lia. }
  { exact Hok. }
  pose proof (try_all_reach clock s Hs host port
                (length (LoadBalancer.interfaces (lb (world f0)))) 0 f0) as Hr2.
  rewrite Hrun in Hr2. cbn [snd] in Hr2.
  rewrite session_parsed_connected in Hbody by (rewrite Hrun; done).
  rewrite Hrun in Hbody. cbn [snd] in Hbody.
  destruct (relay_run clock s Hs request_data method f1)
    as (_ & Hi2 & Hrw2 & Hr3 & Hok3).
  specialize (Hok3 Hdrain).
  unfold bind in Hbody.
  destruct (relay clock s request_data method f1) as [[[]|e] f2];
    cbn [fst snd] in *; [|discriminate].
  (* the object of the interface the session ends on *)
  assert (Hv : i1 ∈ valid_interfaces (lb w)).
  { rewrite (calm_valid _ _ Hc1), (calm_valid _ _ Hc0) in Hin1.
    cbn [world] in Hin1. rewrite (calm_valid _ _ Hcsel) in Hin1. exact Hin1. }
  pose proof Hv as Hlive. apply valid_interfaces_elem in Hlive as (o & Ho & _).
  assert (He2 : objectwise evolves w (world f2)).
  { change (objectwise evolves (tick w) (world f2)).
    apply (reach_evolves clock).
    etrans; [exact Hr0|]. etrans; [exact Hr1|]. etrans; [exact Hr2|].
    exact Hr3. }
  destruct (Forall2_lookup_l _ _ _ _ _ He2 Ho) as (o2 & Ho2 & Heo2).
  assert (Hn2 : (0 ≤ NetworkInterface.total_requests o2)%Z).
  { pose proof (Forall_lookup_1 _ _ _ _ Htal Ho) as (Hn & _).
    pose proof (evolves_total _ _ Heo2). lia. }
  destruct (account_run clock (clock (ticks w)) f2 i1 o2)
    as (f3 & o3 & Hacc & Hi3 & Ho3 & Ht3 & Hs3 & Hf3); try congruence.
  rewrite Hacc in Hbody.
  subst w'.
  rewrite (handle_client_body_returned clock int urlparse decode s w f3 Hbody).
  destruct (session_finally_returns clock s f3) as [f4 Hf4].
  { intros j Hj. rewrite Hi3 in Hj. injection Hj as <-.
    by apply lookup_lt_Some in Ho3. }
  pose proof (session_finally_reach clock s Hs f3) as Hr4.
  rewrite Hf4 in *. cbn [fst snd] in *. split; [done|].
  pose proof (reach_evolves clock _ _ Hr4) as He4.
  destruct (Forall2_lookup_l _ _ _ _ _ He4 Ho3) as (o' & Ho' & Heo').
  exists i1, o, o'. split; [exact Hv|]. split; [exact Ho|].
  split; [exact Ho'|].
  destruct Heo2 as [_ _ _ _ ? ? ? ? _ _]. destruct Heo' as [_ _ _ _ ? ? ? ? _ _].
  lia.
Qed.

Lemma connected_session_counted_twice_witness :
  let w' := snd (handle_client (λ _, 0%Q) int_sample urlparse_sample
                   decode_ascii tunnel two_nics) in
  fst (handle_client (λ _, 0%Q) int_sample urlparse_sample decode_ascii
         tunnel two_nics) = Ok tt
  ∧ ∃ i o o',
      i ∈ valid_interfaces (lb two_nics)
      ∧ LoadBalancer.interfaces (lb two_nics) !! i = Some o
      ∧ LoadBalancer.interfaces (lb w') !! i = Some o'
      ∧ (NetworkInterface.total_requests o + 2
         ≤ NetworkInterface.total_requests o')%Z
      ∧ (NetworkInterface.successful_requests o + 1
         ≤ NetworkInterface.successful_requests o')%Z
      ∧ (NetworkInterface.total_requests o
         - NetworkInterface.successful_requests o
         - NetworkInterface.failed_requests o + 1
         ≤ NetworkInterface.total_requests o'
           - NetworkInterface.successful_requests o'
           - NetworkInterface.failed_requests o')%Z.
Proof.
  apply (connected_session_counted_twice (λ _, 0%Q) int_sample urlparse_sample
           decode_ascii tunnel two_nics
           (blit "CONNECT example.com:443 HTTP/1.1"
            ++ [Byte.x0d; Byte.x0a; Byte.x0d; Byte.x0a])
           (str "CONNECT") (str "example.com") 443%Z 0).
  - intros p. apply List.Forall_nil.
  - repeat constructor; discriminate.
  - discriminate.
  - reflexivity.
  - reflexivity.
  - simpl. lia.
  - intros j i Hj. lia.
  - reflexivity.
  - discriminate.
Defined.

(** ** The candidates are fixed at discovery *)

Lemma evolves_ips (l l' : list NetworkInterface.t) :
  Forall2 evolves l l' →
  NetworkInterface.ip <$> l' = NetworkInterface.ip <$> l.
Proof.
  induction 1 as [|o o' l l' Ho _ IH]; [done|].
  cbn [fmap list_fmap]. rewrite (evolves_ip _ _ Ho). f_equal. exact IH.
Qed.

Lemma run_ops_valid (clock : nat → Q) (ops : list op) (w : World) :
  valid_interfaces (lb (run_ops clock ops w)) = valid_interfaces (lb w).
Proof. apply valid_from_fmap, evolves_ips, run_ops_evolves. Qed.

(** X14.  No operation adds a candidate or removes one: whatever sequence of
    operations has run, and whatever a session has done while others ran at
    its awaits, [get_best_interface] filters the same references out of
    [interfaces] as before. *)
Theorem candidates_fixed (clock : nat → Q) (int : pystr → result Z)
    (urlparse : pystr → result ParseResult) (decode : bytes → pystr) :
  (∀ ops w,
     valid_interfaces (lb (run_ops clock ops w)) = valid_interfaces (lb w))
  ∧ ∀ s w,
      (∀ p, Forall background (others s p)) →
      valid_interfaces (lb (snd (handle_client clock int urlparse decode s w)))
      = valid_interfaces (lb w).
Proof.
  split; [apply run_ops_valid|].
  intros s w Hs.
  destruct (handle_client_reach clock int urlparse decode s Hs w)
    as (ops & _ & ->).
  apply run_ops_valid.
Qed.

Lemma candidates_fixed_witness :
  valid_interfaces
    (lb (snd (handle_client (λ _, 0%Q) int_sample urlparse_sample decode_ascii
                refused two_nics)))
  = valid_interfaces (lb two_nics).
Proof.
  apply (proj2 (candidates_fixed (λ _, 0%Q) int_sample urlparse_sample
                  decode_ascii)).
  exact refused_background.
Defined.

(** * Start-up *)

(** ** The console dialogue *)

(** [socket.AddressFamily], as far as [psutil] reports it. *)
Inductive AddressFamily := AF_INET | AF_INET6 | AF_LINK.

(** An entry of [psutil.net_if_addrs()]: the two fields the code reads. *)
Record snicaddr := { family : AddressFamily; address : pystr }.

(** How a dialogue on the console ends: with a value, with an exception of
    the program, or with the [EOFError] of [input] when standard input has
    no line left. *)
Inductive outcome (A : Type) :=
| Done (a : A)
| Failed (e : exn)
| EndOfInput.
Arguments Done {A} a.
Arguments Failed {A} e.
Arguments EndOfInput {A}.

Definition loopback : pystr := str "127.".

(** Lines 74-89: the (name, address) pairs offered for selection, in the
    order of the dictionary and of its address lists. *)
Definition available_interfaces
    (network_interfaces : list (pystr * list snicaddr))
  : list (pystr * pystr) :=
  flat_map
    (λ item,
       flat_map
         (λ addr,
            match family addr with
            | AF_INET =>
                if startswith (address addr) loopback then []
                else [(fst item, address addr)]
            | _ => []
            end)
         (snd item))
    network_interfaces.

(** [self.interfaces.append(NetworkInterface(name, ip))] *)
Definition append_interface (na : pystr * pystr) (self : LoadBalancer.t)
  : LoadBalancer.t :=
  LoadBalancer.set_interfaces
    (LoadBalancer.interfaces self ++ [NetworkInterface.init (fst na) (snd na)])
    self.

Section Console.

Variable int : pystr → result Z.

(** Lines 122-125: the two indices and the range check; [None] stands for
    the [continue] of an invalid selection or of a [ValueError]. *)
Definition chosen (available : list (pystr * pystr)) (x y : pystr)
  : result (option ((pystr * pystr) * (pystr * pystr))) :=
  match int x with
  | Raise ValueError => Ok None
  | Raise e => Raise e
  | Ok n1 =>
      match int y with
      | Raise ValueError => Ok None
      | Raise e => Raise e
      | Ok n2 =>
          let idx1 := (n1 - 1)%Z in
          let idx2 := (n2 - 1)%Z in
          let len := Z.of_nat (length available) in
          if ((0 <=? idx1) && (idx1 <? len)
              && (0 <=? idx2) && (idx2 <? len))%Z
          then
            match available !! Z.to_nat idx1, available !! Z.to_nat idx2 with
            | Some first, Some second => Ok (Some (first, second))
            | _, _ => Raise IndexError
            end
          else Ok None
      end
  end.

(** Lines 107-136: the loop that reads selections, one line of standard
    input per iteration. *)
Fixpoint select_interfaces (available : list (pystr * pystr))
    (stdin : list pystr) (self : LoadBalancer.t)
  : outcome unit * list pystr * LoadBalancer.t :=
  match stdin with
  | [] => (EndOfInput, [], self)
  | line :: stdin' =>
      let selections := whitespace_tokens (strip line) in
      let selected x y :=
        match chosen available x y with
        | Ok (Some (first, second)) =>
            (Done tt, stdin', append_interface second (append_interface first self))
        | Ok None => select_interfaces available stdin' self
        | Raise e => (Failed e, stdin', self)
        end in
      match selections with
      | [] => select_interfaces available stdin' self
      | [x] => selected x x
      | [x; y] => selected x y
      | _ :: _ :: _ :: _ => select_interfaces available stdin' self
      end
  end.

(** [LoadBalancer.discover_interfaces], prompts and log lines apart. *)
Definition discover_interfaces
    (network_interfaces : list (pystr * list snicaddr))
    (stdin : list pystr) (self : LoadBalancer.t)
  : outcome unit * list pystr * LoadBalancer.t :=
  let available := available_interfaces network_interfaces in
  match available with
  | [] => (Failed (RuntimeError (str "No network interfaces found")),
           stdin, self)
  | [only] =>
      (Done tt, stdin, append_interface only (append_interface only self))
  | _ :: _ :: _ => select_interfaces available stdin self
  end.

(** Lines 475-486 of [ProxyServer.start]: the loop that reads the port. *)
Fixpoint configure_port (stdin : list pystr) (port : Z)
  : outcome Z * list pystr :=
  match stdin with
  | [] => (EndOfInput, [])
  | line :: stdin' =>
      match strip line with
      | [] => (Done port, stdin')
      | (_ :: _) as port_input =>
          match int port_input with
          | Ok p =>
              if ((1024 <=? p) && (p <=? 65535))%Z then (Done p, stdin')
              else configure_port stdin' port
          | Raise ValueError => configure_port stdin' port
          | Raise e => (Failed e, stdin')
          end
      end
  end.

End Console.

Module ProxyServer.

Record t := mk {
  host : pystr;
  port : Z;
  load_balancer : LoadBalancer.t
}.

(** [__init__] with its default arguments; the log file is not modelled. *)
Definition init : t :=
  {| host := str "127.0.0.1"; port := 8080; load_balancer := LoadBalancer.init |}.

End ProxyServer.

(** [ProxyServer.start] up to the call of [asyncio.start_server]: the
    server object that starts listening. *)
Definition start (int : pystr → result Z)
    (network_interfaces : list (pystr * list snicaddr))
    (stdin : list pystr) (self : ProxyServer.t)
  : outcome ProxyServer.t * list pystr :=
  match configure_port int stdin (ProxyServer.port self) with
  | (Done port, stdin') =>
      match discover_interfaces int network_interfaces stdin'
              (ProxyServer.load_balancer self) with
      | (Done _, stdin'', load_balancer) =>
          (Done (ProxyServer.mk (ProxyServer.host self) port load_balancer),
           stdin'')
      | (Failed e, stdin'', _) => (Failed e, stdin'')
      | (EndOfInput, stdin'', _) => (EndOfInput, stdin'')
      end
  | (Failed e, stdin') => (Failed e, stdin')
  | (EndOfInput, stdin') => (EndOfInput, stdin')
  end.

(** ** What discovery selects *)

(** The pair [na] names a non-loopback IPv4 address that the host
    reports. *)
Definition offered (network_interfaces : list (pystr * list snicaddr))
    (na : pystr * pystr) : Prop :=
  ∃ addresses addr,
    (fst na, addresses) ∈ network_interfaces
    ∧ addr ∈ addresses
    ∧ family addr = AF_INET
    ∧ address addr = snd na
    ∧ startswith (snd na) loopback = false.

Lemma available_interfaces_offered network_interfaces na :
  na ∈ available_interfaces network_interfaces ↔ offered network_interfaces na.
Proof.
  unfold available_interfaces, offered.
  rewrite list_elem_of_In, in_flat_map. split.
  - intros ([name addresses] & Hitem & Hin).
    apply in_flat_map in Hin as (addr & Haddr & Hin). cbn [fst snd] in *.
    destruct (family addr) eqn:Ef; try (by destruct Hin).
    destruct (startswith (address addr) loopback) eqn:El; [by destruct Hin|].
    destruct Hin as [<- | []]. cbn [fst snd].
    exists addresses, addr. rewrite !list_elem_of_In. done.
  - intros (addresses & addr & Hitem & Haddr & Ef & Ea & El).
    exists (fst na, addresses). rewrite <- list_elem_of_In. split; [done|].
    apply in_flat_map. exists addr. rewrite <- list_elem_of_In.
    split; [done|]. cbn [fst snd]. rewrite Ef, Ea, El. left.
    by destruct na.
Qed.

Lemma append_interface_twice first second self :
  append_interface second (append_interface first self)
  = LoadBalancer.discover_interfaces [first; second] self.
Proof.
  unfold append_interface, LoadBalancer.discover_interfaces. simpl.
  rewrite <- app_assoc. done.
Qed.

Section Discovery.

Variable int : pystr → result Z.

Lemma chosen_available available x y first second :
  chosen int available x y = Ok (Some (first, second)) →
  first ∈ available ∧ second ∈ available.
Proof.
  unfold chosen. destruct (int x) as [n1|e1]; [|destruct e1; done].
  destruct (int y) as [n2|e2]; [|destruct e2; done]. cbv zeta.
  destruct (_ && _)%bool; [|done].
  destruct (available !! Z.to_nat (n1 - 1)) as [p1|] eqn:E1; [|done].
  destruct (available !! Z.to_nat (n2 - 1)) as [p2|] eqn:E2; [|done].
  intros [= <- <-]. split; eapply list_elem_of_lookup_2; done.
Qed.

Lemma select_interfaces_outcome available (stdin : list pystr) self :
  match select_interfaces int available stdin self with
  | (Done _, stdin', self') =>
      ∃ first second,
        first ∈ available ∧ second ∈ available
        ∧ self' = LoadBalancer.discover_interfaces [first; second] self
        ∧ stdin' `suffix_of` stdin
  | (Failed e, stdin', self') => self' = self ∧ e ≠ ValueError
  | (EndOfInput, stdin', self') => self' = self ∧ stdin' = []
  end.
Proof.
  induction stdin as [|line stdin IH]; [done|].
  assert (Hskip :
    match select_interfaces int available stdin self with
    | (Done _, stdin', self') =>
        ∃ first second,
          first ∈ available ∧ second ∈ available
          ∧ self' = LoadBalancer.discover_interfaces [first; second] self
          ∧ stdin' `suffix_of` line :: stdin
    | (Failed e, stdin', self') => self' = self ∧ e ≠ ValueError
    | (EndOfInput, stdin', self') => self' = self ∧ stdin' = []
    end).
  { destruct (select_interfaces int available stdin self) as [[[u|e|] stdin'] self'];
      [|done|done].
    destruct IH as (first & second & H1 & H2 & H3 & H4).
    exists first, second. repeat (split; [done|]). by apply suffix_cons_r. }
  assert (Hsel : ∀ x y,
    match
      match chosen int available x y with
      | Ok (Some (first, second)) =>
          (Done tt, stdin,
           append_interface second (append_interface first self))
      | Ok None => select_interfaces int available stdin self
      | Raise e => (Failed e, stdin, self)
      end
    with
    | (Done _, stdin', self') =>
        ∃ first second,
          first ∈ available ∧ second ∈ available
          ∧ self' = LoadBalancer.discover_interfaces [first; second] self
          ∧ stdin' `suffix_of` line :: stdin
    | (Failed e, stdin', self') => self' = self ∧ e ≠ ValueError
    | (EndOfInput, stdin', self') => self' = self ∧ stdin' = []
    end).
  { intros x y. destruct (chosen int available x y) as [[[first second]|]|e] eqn:E.
    - destruct (chosen_available _ _ _ _ _ E) as [H1 H2].
      exists first, second. split; [done|]. split; [done|].
      split; [apply append_interface_twice|]. apply suffix_cons_r. done.
    - exact Hskip.
    - split; [done|]. intros ->. revert E. unfold chosen.
      destruct (int x) as [n1|e1]; [|destruct e1; done].
      destruct (int y) as [n2|e2]; [|destruct e2; done]. cbv zeta.
      destruct (_ && _)%bool; [|done].
      destruct (available !! _); [|done]. destruct (available !! _); done. }
  cbn [select_interfaces]. cbv zeta.
  destruct (whitespace_tokens (strip line)) as [|x [|y [|z rest]]];
    [exact Hskip | apply Hsel | apply Hsel | exact Hskip].
Qed.

Lemma discover_interfaces_selected
    (network_interfaces : list (pystr * list snicaddr))
    (stdin : list pystr) (self : LoadBalancer.t) :
  match discover_interfaces int network_interfaces stdin self with
  | (Done _, stdin', self') =>
      ∃ first second,
        first ∈ available_interfaces network_interfaces
        ∧ second ∈ available_interfaces network_interfaces
        ∧ self' = LoadBalancer.discover_interfaces [first; second] self
        ∧ stdin' `suffix_of` stdin
  | (Failed e, stdin', self') => self' = self ∧ e ≠ ValueError
  | (EndOfInput, stdin', self') => self' = self ∧ stdin' = []
  end.
Proof.
  unfold discover_interfaces. cbv zeta.
  destruct (available_interfaces network_interfaces) as [|only [|other rest]].
  - done.
  - exists only, only. split; [left|]. split; [left|].
    split; [apply append_interface_twice | done].
  - apply select_interfaces_outcome.
Qed.

(** X15.  When [discover_interfaces] returns it has appended exactly two
    fresh objects, each for a non-loopback IPv4 address that the host
    reports (twice the same one when there is only one, or when one number
    was entered), and it has read a prefix of standard input; when it
    raises, it has appended nothing, and the [ValueError] of a selection
    that is not a number is never what it raises. *)
Theorem discover_interfaces_outcome
    (network_interfaces : list (pystr * list snicaddr))
    (stdin : list pystr) (self : LoadBalancer.t) :
  match discover_interfaces int network_interfaces stdin self with
  | (Done _, stdin', self') =>
      ∃ first second,
        offered network_interfaces first ∧ offered network_interfaces second
        ∧ self' = LoadBalancer.discover_interfaces [first; second] self
        ∧ stdin' `suffix_of` stdin
  | (Failed e, stdin', self') => self' = self ∧ e ≠ ValueError
  | (EndOfInput, stdin', self') => self' = self ∧ stdin' = []
  end.
Proof.
  pose proof (discover_interfaces_selected network_interfaces stdin self) as H.
  destruct (discover_interfaces _ _ _ _) as [[[u|e|] stdin'] self'];
    [|done|done].
  destruct H as (first & second & H1 & H2 & H3 & H4).
  exists first, second. rewrite <- !available_interfaces_offered. done.
Qed.

Lemma configure_port_outcome (stdin : list pystr) (port : Z) :
  match configure_port int stdin port with
  | (Done p, stdin') =>
      (p = port ∨ (1024 ≤ p ≤ 65535)%Z) ∧ stdin' `suffix_of` stdin
  | (Failed e, stdin') => e ≠ ValueError
  | (EndOfInput, stdin') => stdin' = []
  end.
Proof.
  induction stdin as [|line stdin IH]; [done|].
  assert (Hskip :
    match configure_port int stdin port with
    | (Done p, stdin') =>
        (p = port ∨ (1024 ≤ p ≤ 65535)%Z) ∧ stdin' `suffix_of` line :: stdin
    | (Failed e, stdin') => e ≠ ValueError
    | (EndOfInput, stdin') => stdin' = []
    end).
  { destruct (configure_port int stdin port) as [[p|e|] stdin']; [|done|done].
    destruct IH as [Hp Hs]. split; [done|]. by apply suffix_cons_r. }
  cbn [configure_port].
  destruct (strip line) as [|c port_input].
  { split; [by left|]. apply suffix_cons_r. done. }
  destruct (int (c :: port_input)) as [p|e].
  - destruct ((1024 <=? p) && (p <=? 65535))%Z eqn:E; [|exact Hskip].
    split; [right; lia|]. apply suffix_cons_r. done.
  - destruct e; done.
Qed.

End Discovery.

(** X16.  Whenever [start] gets as far as listening, it listens on
    127.0.0.1, on port 8080 or on a port between 1024 and 65535 read from
    the console, and the load balancer holds exactly two interface objects,
    both fresh and each for a non-loopback IPv4 address that the host
    reports: the state [started] of the two selected pairs. *)
Theorem start_listens (int : pystr → result Z)
    (network_interfaces : list (pystr * list snicaddr))
    (stdin : list pystr) :
  match start int network_interfaces stdin ProxyServer.init with
  | (Done server, stdin') =>
      ProxyServer.host server = str "127.0.0.1"
      ∧ (1024 ≤ ProxyServer.port server ≤ 65535)%Z
      ∧ stdin' `suffix_of` stdin
      ∧ ∃ first second,
          offered network_interfaces first
          ∧ offered network_interfaces second
          ∧ mkWorld (ProxyServer.load_balancer server) 0 []
            = started [first; second]
  | (Failed e, _) => e ≠ ValueError
  | (EndOfInput, stdin') => stdin' = []
  end.
Proof.
  unfold start.
  pose proof (configure_port_outcome int stdin
                (ProxyServer.port ProxyServer.init)) as Hport.
  destruct (configure_port int stdin _) as [[port|e|] stdin1]; [|done|done].
  destruct Hport as [Hport Hs1].
  pose proof (discover_interfaces_selected int network_interfaces stdin1
                (ProxyServer.load_balancer ProxyServer.init)) as Hdisc.
  destruct (discover_interfaces int network_interfaces stdin1 _)
    as [[[u|e|] stdin2] self']; [|apply Hdisc|apply Hdisc].
  destruct Hdisc as (first & second & H1 & H2 & -> & Hs2).
  cbn [ProxyServer.host ProxyServer.port ProxyServer.load_balancer].
  split; [done|]. split; [destruct Hport as [-> | ?]; [simpl|]; lia|].
  split; [etrans; done|].
  exists first, second. rewrite <- !available_interfaces_offered. done.
Qed.

(** X17.  Discovery offers link-local addresses like any other.  When every
    address it offers is link-local and [start] gets as far as listening,
    the load balancer has no candidate, and every session, at any later
    time, is answered with the 503 response and nothing else. *)
Theorem start_without_candidates (int : pystr → result Z)
    (network_interfaces : list (pystr * list snicaddr))
    (stdin : list pystr) (server : ProxyServer.t) (stdin' : list pystr) :
  start int network_interfaces stdin ProxyServer.init = (Done server, stdin') →
  Forall (λ na, startswith (snd na) link_local = true)
    (available_interfaces network_interfaces) →
  let w := mkWorld (ProxyServer.load_balancer server) 0 [] in
  valid_interfaces (lb w) = []
  ∧ ∀ clock urlparse decode ops s,
      (∀ p, Forall background (others s p)) →
      sent (snd (handle_client clock int urlparse decode s
                   (run_ops clock ops w)))
      = sent (run_ops clock ops w) ++ [(Client, response_503)].
Proof.
  intros Hstart Hll w.
  assert (Hv : valid_interfaces (lb w) = []).
  { revert Hstart. unfold start.
    destruct (configure_port int stdin _) as [[port|e|] stdin1]; [|done|done].
    pose proof (discover_interfaces_selected int network_interfaces stdin1
                  (ProxyServer.load_balancer ProxyServer.init)) as Hdisc.
    destruct (discover_interfaces int network_interfaces stdin1 _)
      as [[[u|e|] stdin2] self']; [|done|done].
    destruct Hdisc as (first & second & H1 & H2 & -> & _).
    intros [= <- <-]. subst w.
    rewrite Forall_forall in Hll.
    unfold valid_interfaces. cbn [lb ProxyServer.load_balancer].
    cbn [LoadBalancer.discover_interfaces LoadBalancer.interfaces
         LoadBalancer.set_interfaces LoadBalancer.init app map valid_from
         NetworkInterface.ip NetworkInterface.init].
    rewrite (Hll first H1), (Hll second H2). done. }
  split; [exact Hv|].
  intros clock urlparse decode ops s Hs. set (w1 := run_ops clock ops w).
  assert (Hv1 : valid_interfaces (lb (tick w1)) = [])
    by (unfold w1; cbn [tick lb]; rewrite run_ops_valid; exact Hv).
  destruct (get_best_interface_raises clock (tick w1) Hv1) as [msg Hsel].
  apply (handle_client_sent _ _ _ _ _ Hs).
  unfold session_body, lift at 1. cbn [world]. rewrite Hsel. cbn beta iota.
  rewrite (respond_sent _ s Hs). done.
Qed.

(** A host whose only address besides the loopback is link-local. *)
Definition link_local_host : list (pystr * list snicaddr) :=
  [(str "lo", [{| family := AF_INET; address := str "127.0.0.1" |}]);
   (str "eth0", [{| family := AF_LINK; address := str "00:11:22:33:44:55" |};
                 {| family := AF_INET; address := str "169.254.1.2" |}])].

Lemma start_without_candidates_witness :
  let w := mkWorld
             (LoadBalancer.discover_interfaces
                [(str "eth0", str "169.254.1.2"); (str "eth0", str "169.254.1.2")]
                LoadBalancer.init) 0 [] in
  valid_interfaces (lb w) = []
  ∧ sent (snd (handle_client (λ _, 0%Q) int_sample urlparse_sample decode_ascii
                 refused (run_ops (λ _, 0%Q) [] w)))
    = sent (run_ops (λ _, 0%Q) [] w) ++ [(Client, response_503)].
Proof.
  destruct (start_without_candidates int_sample link_local_host [[]]
              (ProxyServer.mk (str "127.0.0.1") 8080
                 (LoadBalancer.discover_interfaces
                    [(str "eth0", str "169.254.1.2");
                     (str "eth0", str "169.254.1.2")]
                    LoadBalancer.init))
              [] eq_refl) as [Hv H503].
  { repeat constructor. }
  split; [exact Hv|].
  exact (H503 (λ _, 0%Q) urlparse_sample decode_ascii [] refused
           refused_background).
Defined.

(** ** Sessions that are not counted *)

Section Uncounted.

Variable clock : nat → Q.
Variable int : pystr → result Z.
Variable urlparse : pystr → result ParseResult.
Variable decode : bytes → pystr.
Variable s : Session.
(** No other session runs while this one awaits. *)
Hypothesis alone : ∀ p, others s p = [].

Lemma resumed_alone p f : resumed clock s p f = f.
Proof. unfold resumed. rewrite alone. by destruct f. Qed.

(** The [finally] block on idle interfaces. *)
Lemma session_finally_idle f :
  lively f →
  Forall idle (LoadBalancer.interfaces (lb (world f))) →
  ∃ f', session_finally clock s f = (Ok tt, f')
        ∧ lb (world f') = lb (world f).
Proof.
  intros Hf Hidle. unfold session_finally, bind at 1, get at 1.
  cbn beta iota. unfold bind at 1.
  destruct (interface f) as [i|] eqn:Hi.
  - destruct (lookup_lt_is_Some_2 _ _ (Hf i Hi)) as [o Ho].
    pose proof (Forall_lookup_1 _ _ _ _ Hidle Ho) as Hac. unfold idle in Hac.
    unfold lift at 1, release, with_interface. rewrite Ho.
    cbn [modify]. rewrite await_run, resumed_alone.
    eexists. split; [reflexivity|]. cbn [world upd_lb lb].
    replace (NetworkInterface.set_active_connections _ o) with o
      by (destruct o; simpl in *; subst; done).
    rewrite list_insert_id by done. by destruct (lb (world f)).
  - cbn [ret]. rewrite await_run, resumed_alone. eexists. done.
Qed.

Lemma unserved_session_kept (w : World) :
  Forall idle (LoadBalancer.interfaces (lb w)) →
  valid_interfaces (lb w) ≠ [] →
  head s = HeadTimeout
  ∨ (∃ request_data,
       head s = HeadData request_data
       ∧ quick_parse int urlparse (decode request_data) = None) →
  let w' := snd (handle_client clock int urlparse decode s w) in
  fst (handle_client clock int urlparse decode s w) = Ok tt
  ∧ LoadBalancer.interfaces (lb w') = LoadBalancer.interfaces (lb w)
  ∧ sent w' = sent w
  ∧ LoadBalancer.failed_interfaces (lb w') ⊆ LoadBalancer.failed_interfaces (lb w)
  ∧ (LoadBalancer.consecutive_failures (lb w')
     = LoadBalancer.consecutive_failures (lb w)
     ∨ LoadBalancer.consecutive_failures (lb w') = ∅).
Proof.
  intros Hidle Hne Hhead w'.
  destruct (session_body_picked clock int urlparse decode s
              (clock (ticks w)) (tick w) Hne)
    as (i & w1 & Hsel & Hin & Hsent & Hlen & Hbody).
  destruct (get_best_interface_kept clock (tick w) w1 i Hsel)
    as (Hifs & _ & _ & _ & Hfailed & Hcounts).
  cbn [tick lb] in Hifs, Hfailed, Hcounts.
  rewrite session_selected_head, resumed_alone in Hbody.
  assert (Hret : session_body clock int urlparse decode s (clock (ticks w)) 0%Z
                   (mkFrame (tick w) None false)
                 = (Ok tt, mkFrame w1 (Some i) false)).
  { rewrite Hbody.
    destruct Hhead as [-> | (request_data & -> & ->)]; done. }
  subst w'.
  rewrite (handle_client_body_returned clock int urlparse decode s w _ Hret).
  destruct (session_finally_idle (mkFrame w1 (Some i) false))
    as (f' & Hfin & Hlb).
  { intros j [= <-]. cbn [world].
    apply valid_interfaces_elem in Hin as (o & Ho & _).
    by apply lookup_lt_Some in Ho. }
  { cbn [world]. rewrite Hifs. exact Hidle. }
  pose proof (session_finally_calm clock s
                (λ p, eq_ind_r (Forall background) (List.Forall_nil background)
                        (alone p))
                (mkFrame w1 (Some i) false)) as Hcalm.
  rewrite Hfin in *. cbn [fst snd world] in *. rewrite Hlb.
  split; [done|]. split; [exact Hifs|].
  split; [rewrite (calm_sent _ _ Hcalm); exact Hsent|]. done.
Qed.

End Uncounted.

(** X18.  A client that sends nothing for 5 s, or a head that does not
    parse, leaves no trace when no other session runs meanwhile and no
    interface has a connection counted: the session returns, every interface
    object is as it was (no request counted, no failure recorded), nothing
    has been written, and selection alone has touched the two maps. *)
Theorem unserved_session_uncounted (clock : nat → Q) (int : pystr → result Z)
    (urlparse : pystr → result ParseResult) (decode : bytes → pystr)
    (s : Session) (w : World) :
  (∀ p, others s p = []) →
  Forall idle (LoadBalancer.interfaces (lb w)) →
  valid_interfaces (lb w) ≠ [] →
  head s = HeadTimeout
  ∨ (∃ request_data,
       head s = HeadData request_data
       ∧ quick_parse int urlparse (decode request_data) = None) →
  let w' := snd (handle_client clock int urlparse decode s w) in
  fst (handle_client clock int urlparse decode s w) = Ok tt
  ∧ LoadBalancer.interfaces (lb w') = LoadBalancer.interfaces (lb w)
  ∧ sent w' = sent w
  ∧ LoadBalancer.failed_interfaces (lb w') ⊆ LoadBalancer.failed_interfaces (lb w)
  ∧ (LoadBalancer.consecutive_failures (lb w')
     = LoadBalancer.consecutive_failures (lb w)
     ∨ LoadBalancer.consecutive_failures (lb w') = ∅).
Proof.
  intros Halone.
  exact (unserved_session_kept clock int urlparse decode s Halone w).
Qed.

Lemma unserved_session_uncounted_witness :
  let w' := snd (handle_client (λ _, 0%Q) int_sample urlparse_sample
                   decode_ascii malformed two_nics) in
  fst (handle_client (λ _, 0%Q) int_sample urlparse_sample decode_ascii
         malformed two_nics) = Ok tt
  ∧ LoadBalancer.interfaces (lb w') = LoadBalancer.interfaces (lb two_nics)
  ∧ sent w' = sent two_nics
  ∧ LoadBalancer.failed_interfaces (lb w')
    ⊆ LoadBalancer.failed_interfaces (lb two_nics)
  ∧ (LoadBalancer.consecutive_failures (lb w')
     = LoadBalancer.consecutive_failures (lb two_nics)
     ∨ LoadBalancer.consecutive_failures (lb w') = ∅).
Proof.
  apply (unserved_session_uncounted (λ _, 0%Q) int_sample urlparse_sample
           decode_ascii malformed two_nics).
  - reflexivity.
  - repeat constructor.
  - discriminate.
  - right. exists (blit "GET /" ++ [Byte.x0d; Byte.x0a; Byte.x0d; Byte.x0a]).
    split; reflexivity.
Defined.

(** ** The keys of the two maps *)

(** Every key of [failed_interfaces] and of [consecutive_failures] is the
    address of one of the interface objects. *)
Definition keyed (w : World) : Prop :=
  ∀ ip,
    is_Some (LoadBalancer.failed_interfaces (lb w) !! ip)
    ∨ is_Some (LoadBalancer.consecutive_failures (lb w) !! ip) →
    ip ∈ NetworkInterface.ip <$> LoadBalancer.interfaces (lb w).

Lemma exec_ips (clock : nat → Q) (o : op) (w : World) :
  NetworkInterface.ip <$> LoadBalancer.interfaces (lb (snd (exec clock o w)))
  = NetworkInterface.ip <$> LoadBalancer.interfaces (lb w).
Proof. exact (evolves_ips _ _ (run_ops_evolves clock [o] w)). Qed.

Lemma exec_keyed (clock : nat → Q) (o : op) (w : World) :
  keyed w → keyed (snd (exec clock o w)).
Proof.
  intros Hk ip. rewrite exec_ips.
  destruct o as [|r error|r b t| |r|r| |p data];
    try (match goal with
         | |- context [exec clock ?o w] =>
             pose proof (exec_failures_kept clock o I w) as [Hc Hf _]
         end;
         rewrite Hc, Hf; apply Hk).
  - cbn [exec]. unfold bind.
    destruct (valid_interfaces (lb w)) as [|v vs] eqn:Ev.
    { destruct (get_best_interface_raises clock w Ev) as [msg ->]. apply Hk. }
    destruct (get_best_interface_returns clock w) as (i & w' & Hsel & _);
      [rewrite Ev; done|].
    destruct (get_best_interface_kept clock w w' i Hsel)
      as (_ & _ & _ & _ & Hf & Hc).
    rewrite Hsel. cbn [snd ret].
    intros [H|H]; apply Hk.
    + left. eapply lookup_weaken_is_Some; done.
    + right. destruct Hc as [Hc|Hc]; rewrite Hc in H; [done|].
      rewrite lookup_empty in H. by destruct H.
  - cbn [exec].
    destruct (LoadBalancer.interfaces (lb w) !! r) as [o|] eqn:Ho.
    + destruct (mark_interface_failed_run clock w r o error Ho)
        as (w' & o' & -> & _ & _ & _ & _ & _ & Hc & Hbr).
      cbn [snd]. rewrite Hc.
      assert (Hin : NetworkInterface.ip o
                    ∈ NetworkInterface.ip <$> LoadBalancer.interfaces (lb w)).
      { apply list_elem_of_fmap. exists o. split; [done|].
        eapply list_elem_of_lookup_2; done. }
      assert (Hf : is_Some (LoadBalancer.failed_interfaces (lb w') !! ip) →
                   ip = NetworkInterface.ip o
                   ∨ is_Some (LoadBalancer.failed_interfaces (lb w) !! ip)).
      { destruct (3 <=? _)%Z; destruct Hbr as [-> _]; [|by right].
        rewrite lookup_insert_is_Some. intros [<- | [_ H]]; [by left | by right]. }
      intros [H|H].
      * destruct (Hf H) as [-> | H']; [exact Hin | apply Hk; by left].
      * apply lookup_insert_is_Some in H as [<- | [_ H]];
          [exact Hin | apply Hk; by right].
    + rewrite mark_interface_failed_dangling by done. apply Hk.
Qed.

(** X19.  In every state the process can be in, the keys of
    [failed_interfaces] and of [consecutive_failures] are addresses of
    selected interfaces: neither map ever holds an entry for anything else.
    *)
Theorem maps_hold_selected_addresses (clock : nat → Q)
    (selected : list (pystr * pystr)) (ops : list op) :
  keyed (run_ops clock ops (started selected)).
Proof.
  assert (H : ∀ w, keyed w → keyed (run_ops clock ops w)).
  { induction ops as [|o ops IH]; intros w Hw; [done|].
    apply IH, exec_keyed, Hw. }
  apply H. intros ip [[x Hx]|[x Hx]]; simpl in Hx;
    rewrite lookup_empty in Hx; done.
Qed.

(** ** The unit of a byte count *)

Inductive byte_unit := B | KB | MB | GB | TB.

(** The loop of [format_bytes] over the units that are left. *)
Fixpoint scaled (units : list byte_unit) (bytes_count : Q) : Q * byte_unit :=
  match units with
  | [] => (bytes_count, TB)
  | unit :: units' =>
      if Qlt_le_dec bytes_count 1024 then (bytes_count, unit)
      else scaled units' (bytes_count / 1024)
  end.

(** [LoadBalancer.format_bytes], up to the rendering of the number: the
    number it prints (with one decimal) and the unit it prints after it.
    Dividing by 1024 is exact in floating point for counts below 2^53. *)
Definition format_bytes (bytes_count : Z) : Q * byte_unit :=
  scaled [B; KB; MB; GB] (inject_Z bytes_count).

(** The power of 1024 a unit stands for. *)
Definition unit_size (unit : byte_unit) : Q :=
  match unit with
  | B => 1
  | KB => 1024
  | MB => 1024 * 1024
  | GB => 1024 * 1024 * 1024
  | TB => 1024 * 1024 * 1024 * 1024
  end.

(** X20.  The number [format_bytes] prints, times the size of the unit it
    prints, is the byte count; the number is below 1024 unless the unit is
    TB, and at least 1 unless the unit is B: the unit is the largest one
    that does not exceed the count. *)
Theorem format_bytes_unit (bytes_count : Z) :
  (Z.abs bytes_count < 2 ^ 53)%Z →
  let '(number, unit) := format_bytes bytes_count in
  (number * unit_size unit == inject_Z bytes_count)%Q
  ∧ (unit ≠ TB → number < 1024)%Q
  ∧ (unit ≠ B → 1 <= number)%Q.
Proof.
  intros _. unfold format_bytes. cbn [scaled].
  set (n := inject_Z bytes_count).
  repeat match goal with
         | |- context [Qlt_le_dec ?x 1024] => destruct (Qlt_le_dec x 1024)
         end;
    cbn [unit_size]; (split; [field | split; [intros H | intros H]]);
    try done; try lra;
    (apply Qle_shift_div_l; [reflexivity | lra]).
Qed.

Lemma format_bytes_unit_witness :
  let '(number, unit) := format_bytes 1536 in
  (number * unit_size unit == inject_Z 1536)%Q
  ∧ (unit ≠ TB → number < 1024)%Q
  ∧ (unit ≠ B → 1 <= number)%Q.
Proof. apply (format_bytes_unit 1536). reflexivity. Defined.

(** ** The theorems on concrete runs *)

(** A host with two usable addresses, and [int] on the two numbers typed. *)
Definition two_nic_host : list (pystr * list snicaddr) :=
  [(str "lo", [{| family := AF_INET; address := str "127.0.0.1" |};
               {| family := AF_INET6; address := str "::1" |}]);
   (str "eth0", [{| family := AF_INET; address := str "10.0.0.2" |}]);
   (str "wlan0", [{| family := AF_INET; address := str "10.0.0.3" |}])].

Definition int_typed (text : pystr) : result Z :=
  if bool_decide (text = str "1") then Ok 1%Z
  else if bool_decide (text = str "2") then Ok 2%Z
  else if bool_decide (text = str "80") then Ok 80%Z
  else if bool_decide (text = str "9000") then Ok 9000%Z
  else Raise ValueError.

Lemma get_best_interface_outcome_witness :
  ∃ r w' o,
    get_best_interface (λ _, 3%Q) eth0_down = (Ok r, w')
    ∧ LoadBalancer.interfaces (lb eth0_down) !! r = Some o
    ∧ startswith (NetworkInterface.ip o) link_local = false
    ∧ LoadBalancer.failed_interfaces (lb w') !! NetworkInterface.ip o = None.
Proof. exact (get_best_interface_outcome (λ _, 3%Q) eth0_down). Defined.

Lemma discover_interfaces_outcome_witness :
  ∃ first second,
    offered two_nic_host first ∧ offered two_nic_host second
    ∧ LoadBalancer.discover_interfaces
        [(str "wlan0", str "10.0.0.3"); (str "eth0", str "10.0.0.2")]
        LoadBalancer.init
      = LoadBalancer.discover_interfaces [first; second] LoadBalancer.init
    ∧ [str "left"] `suffix_of` [str ""; str "1 2 3"; str "x"; str " 2 1 ";
                                str "left"].
Proof.
  exact (discover_interfaces_outcome int_typed two_nic_host
           [str ""; str "1 2 3"; str "x"; str " 2 1 "; str "left"]
           LoadBalancer.init).
Defined.

Lemma start_listens_witness :
  str "127.0.0.1" = str "127.0.0.1"
  ∧ (1024 ≤ 9000 ≤ 65535)%Z
  ∧ [] `suffix_of` [str "80"; str " 9000 "; str "2"]
  ∧ ∃ first second,
      offered two_nic_host first ∧ offered two_nic_host second
      ∧ mkWorld
          (LoadBalancer.discover_interfaces
             [(str "wlan0", str "10.0.0.3"); (str "wlan0", str "10.0.0.3")]
             LoadBalancer.init) 0 []
        = started [first; second].
Proof.
  exact (start_listens int_typed two_nic_host
           [str "80"; str " 9000 "; str "2"]).
Defined.

(** ** Failover *)

Section Failover.

Variable clock : nat → Q.

(** A call whose cursor designates a candidate that is not in
    [failed_interfaces] returns it at the first iteration. *)
Lemma get_best_interface_designated (w : World) (r : nat) :
  valid_interfaces (lb w)
    !! Z.to_nat (LoadBalancer.current_interface_index (lb w)
                 `mod` Z.of_nat (length (valid_interfaces (lb w)))) = Some r →
  healthy w r →
  get_best_interface clock w =
    (Ok r,
     moved (next_index (length (valid_interfaces (lb w)))
              (LoadBalancer.current_interface_index (lb w))) 0 w).
Proof.
  intros Hr (o & Ho & Hf).
  unfold get_best_interface, bind at 1, get at 1. cbn beta iota.
  destruct (LoadBalancer.interfaces (lb w)) as [|o0 rest] eqn:Ei; [done|].
  rewrite <- Ei in Ho.
  destruct (valid_interfaces (lb w)) as [|v vs] eqn:Ev; [done|].
  unfold bind at 1. cbn [length].
  rewrite (round_robin_step clock _ _ _ _ Hr). unfold bind at 1.
  erewrite is_interface_failed_absent; [| exact Ho | exact Hf].
  reflexivity.
Qed.

Lemma mark_interface_failed_cursor (w : World) (r : nat)
    (o : NetworkInterface.t) (error : pystr) :
  LoadBalancer.interfaces (lb w) !! r = Some o →
  LoadBalancer.current_interface_index
    (lb (snd (mark_interface_failed clock r error w)))
  = LoadBalancer.current_interface_index (lb w).
Proof.
  intros Ho.
  pose proof (lookup_lt_Some _ _ _ Ho) as Hlt.
  unfold mark_interface_failed.
  unfold bind at 1. unfold with_interface at 1. rewrite Ho.
  cbn -[str Z.add Z.leb].
  unfold bind at 1. unfold time_time at 1. cbn -[str Z.add Z.leb].
  unfold bind at 1. unfold with_interface at 1. cbn -[str Z.add Z.leb].
  rewrite list_lookup_insert_eq by done. cbn -[str Z.add Z.leb].
  unfold bind at 1. unfold attr at 1. cbn -[str Z.add Z.leb].
  rewrite list_lookup_insert_eq by (rewrite length_insert; done).
  cbn -[str Z.add Z.leb].
  unfold bind at 1. unfold modify at 1. cbn -[str Z.add Z.leb].
  rewrite lookup_insert_eq.
  change (LoadBalancer.max_consecutive_failures) with 3%Z.
  destruct (3 <=? _)%Z.
  - unfold with_interface, modify. cbn -[str Z.add Z.leb].
    rewrite list_lookup_insert_eq by (rewrite length_insert; done). done.
  - unfold with_interface, modify. cbn -[str Z.add Z.leb].
    rewrite list_lookup_insert_eq by (rewrite length_insert; done). done.
Qed.

(** X21.  Failover goes to the next candidate.  When the cursor designates
    a candidate [i] and the candidate after it, [j], has another address,
    neither address being in [failed_interfaces], then selection returns
    [i], and after [mark_interface_failed] on [i] the next selection
    returns [j], an other interface, whether or not that failure has put
    the address of [i] in [failed_interfaces]. *)
Theorem failover_moves_on (w : World) (i j : nat)
    (o oj : NetworkInterface.t) (error : pystr) :
  let valid := valid_interfaces (lb w) in
  let c := LoadBalancer.current_interface_index (lb w) in
  valid !! Z.to_nat (c `mod` Z.of_nat (length valid)) = Some i →
  valid !! Z.to_nat ((c + 1) `mod` Z.of_nat (length valid)) = Some j →
  LoadBalancer.interfaces (lb w) !! i = Some o →
  LoadBalancer.interfaces (lb w) !! j = Some oj →
  LoadBalancer.failed_interfaces (lb w) !! NetworkInterface.ip o = None →
  LoadBalancer.failed_interfaces (lb w) !! NetworkInterface.ip oj = None →
  NetworkInterface.ip oj ≠ NetworkInterface.ip o →
  ∃ w1 w2 w3,
    get_best_interface clock w = (Ok i, w1)
    ∧ mark_interface_failed clock i error w1 = (Ok tt, w2)
    ∧ get_best_interface clock w2 = (Ok j, w3)
    ∧ j ≠ i.
Proof.
  intros valid c Hi Hj Ho Hoj Hf Hfj Hip.
  assert (Hne : j ≠ i) by (intros ->; congruence).
  rewrite (get_best_interface_designated w i Hi) by (exists o; done).
  set (w1 := moved _ 0 w).
  destruct (mark_interface_failed_run clock w1 i o error Ho)
    as (w2 & o' & Hrun & _ & _ & _ & _ & _ & _ & Hbr).
  pose proof (mark_interface_failed_cursor w1 i o error Ho) as Hcur.
  pose proof (run_ops_valid clock [MarkInterfaceFailed i error] w1) as Hv.
  pose proof (run_ops_evolves clock [MarkInterfaceFailed i error] w1) as He.
  cbn [run_ops fold_left exec] in Hv, He. rewrite Hrun in Hcur, Hv, He.
  cbn [snd] in Hcur, Hv, He.
  change (valid_interfaces (lb w1)) with valid in Hv.
  destruct (Forall2_lookup_l _ _ _ _ _ He Hoj) as (oj2 & Hoj2 & Hevo).
  exists w1, w2. eexists. split; [reflexivity|]. split; [exact Hrun|].
  split; [|exact Hne].
  apply get_best_interface_designated.
  - rewrite Hv, Hcur. subst w1. cbn [moved lb].
    cbn [LoadBalancer.current_interface_index
         LoadBalancer.set_current_interface_index].
    unfold next_index. fold valid. fold c. rewrite Z.mod_mod; [exact Hj|].
    destruct valid; [done | simpl; lia].
  - exists oj2. split; [exact Hoj2|]. rewrite (evolves_ip _ _ Hevo).
    destruct (3 <=? _)%Z; destruct Hbr as [-> _]; [|exact Hfj].
    rewrite lookup_insert_ne by done. exact Hfj.
Qed.

End Failover.

Lemma failover_moves_on_witness :
  ∃ w1 w2 w3,
    get_best_interface (λ _, 0%Q) two_nics = (Ok 0, w1)
    ∧ mark_interface_failed (λ _, 0%Q) 0 [] w1 = (Ok tt, w2)
    ∧ get_best_interface (λ _, 0%Q) w2 = (Ok 1, w3)
    ∧ 1 ≠ 0.
Proof.
  apply (failover_moves_on (λ _, 0%Q) two_nics 0 1 eth0 wlan0 []);
    try reflexivity.
  discriminate.
Defined.
